(** * Verification of the [fbamend] and [p4fastimport.p4] extensions

    A shallow embedding of [src/p4fastimport/p4.py] (module [P4]) and of
    [src/hgext3rd/fbamend.py] (module [Fbamend]) together with the
    properties their specification states about them. *)

From Stdlib Require Import ZArith List Bool Lia Ascii String.
From Stdlib Require Import Sorting.Permutation Sorting.Sorted.
From stdpp Require Import base gmap strings list pretty.

Open Scope string_scope.
Open Scope list_scope.
Open Scope Z_scope.

(** ** Python values shared by both modules *)

(** The objects [marshal.load] can hand back that matter here: [None],
    integers, byte strings and dictionaries keyed by strings. *)
#[warnings="-register-all"]
Inductive pyobj : Type :=
| PyNone
| PyInt (z : Z)
| PyStr (s : string)
| PyDict (d : list (string * pyobj)).

(** Python truth value of an object ([if not d]). *)
Definition truthy (o : pyobj) : bool :=
  match o with
  | PyNone => false
  | PyInt z => negb (z =? 0)
  | PyStr s => negb (String.eqb s "")
  | PyDict d => match d with [] => false | _ :: _ => true end
  end.

(** [x in l] for a Python list of strings. *)
Definition str_in (x : string) (l : list string) : bool :=
  existsb (String.eqb x) l.

(** ** p4fastimport/p4.py *)
Module P4.

(** *** [loaditer] *)

(** What one call of [marshal.load(f)] does: it returns the next object
    of the stream, or raises.  The file is the list of the outcomes still
    to come; reading past its end raises [EOFError]. *)
Inductive load_outcome : Type :=
| Loaded (d : pyobj)
| BadData.                       (* ValueError: bad marshal data *)

Definition file := list load_outcome.

Inductive pyexn : Type :=
| EOFError
| ValueError
| AssertionError.

Definition marshal_load (f : file) : (pyobj + pyexn) * file :=
  match f with
  | [] => (inr EOFError, [])
  | Loaded d :: f' => (inl d, f')
  | BadData :: f' => (inr ValueError, f')
  end.

(** A generator object is either suspended inside the [while] loop,
    holding its file, or finished. *)
Inductive generator : Type :=
| Suspended (f : file)
| Finished.

(** Outcome of one [next()] on the generator. *)
Inductive next_result : Type :=
| Yield (d : pyobj)
| StopIteration
| Raised (e : pyexn).

(** One resumption of [loaditer]: load a record, stop at a falsy one,
    swallow [EOFError], let any other exception through. *)
Definition loaditer_next (g : generator) : next_result * generator :=
  match g with
  | Finished => (StopIteration, Finished)
  | Suspended f =>
      match marshal_load f with
      | (inl d, f') =>
          if negb (truthy d) then (StopIteration, Finished)
          else (Yield d, Suspended f')
      | (inr EOFError, _) => (StopIteration, Finished)
      | (inr e, _) => (Raised e, Finished)
      end
  end.

Definition loaditer (f : file) : generator := Suspended f.

(** [for d in g]: drive the generator until it stops, collecting what it
    yields; the [option] is the exception that ended the loop, if any. *)
Fixpoint iterate (fuel : nat) (g : generator)
  : option (list pyobj * option pyexn * generator) :=
  match fuel with
  | O => None
  | S n =>
      match loaditer_next g with
      | (Yield d, g') =>
          match iterate n g' with
          | Some (ds, e, g'') => Some (d :: ds, e, g'')
          | None => None
          end
      | (StopIteration, g') => Some ([], None, g')
      | (Raised e, g') => Some ([], Some e, g')
      end
  end.

(** *** [P4Changelist] *)

Record P4Changelist : Type := mkP4Changelist {
  _origclnum : Z;
  _clnum : Z
}.

Definition cl (c : P4Changelist) : Z := _clnum c.
Definition origcl (c : P4Changelist) : Z := _origclnum c.

(** A Python boolean used as an integer. *)
Definition bool_int (b : bool) : Z := if b then 1 else 0.

(** [__cmp__]: [(self.cl > other.cl) - (self.cl < other.cl)]. *)
Definition __cmp__ (self other : P4Changelist) : Z :=
  bool_int (cl other <? cl self) - bool_int (cl self <? cl other).

(** Python 2 falls back on [__cmp__] for [==] when no [__eq__] exists. *)
Definition py_eq (a b : P4Changelist) : bool := __cmp__ a b =? 0.

(** The interpreter's hash of a tuple, on a 64-bit C [long]
    (CPython 2 [tuplehash]); [wrap64] is the wrap-around of the signed
    multiplication and addition. *)
Definition wrap64 (z : Z) : Z := (z + 2 ^ 63) mod 2 ^ 64 - 2 ^ 63.

(** Hash of a machine integer: itself, [-1] being reserved. *)
Definition int_hash (z : Z) : Z := if z =? -1 then -2 else z.

Fixpoint tuplehash_loop (items : list Z) (x mult : Z) : Z :=
  match items with
  | [] => x
  | y :: rest =>
      let len := Z.of_nat (length rest) in
      let x' := wrap64 (Z.lxor x (int_hash y) * mult) in
      tuplehash_loop rest x' (wrap64 (mult + (82520 + len + len)))
  end.

Definition tuplehash (items : list Z) : Z :=
  let x := wrap64 (tuplehash_loop items 3430008 1000003 + 97531) in
  if x =? -1 then -2 else x.

(** [__hash__]: [hash((self.origcl, self.cl))]. *)
Definition __hash__ (self : P4Changelist) : Z :=
  tuplehash [origcl self; cl self].

(** *** The [files] property *)

Definition ACTION_EDIT : list string := ["edit"; "integrate"].
Definition ACTION_ADD : list string := ["add"; "branch"; "move/add"].
Definition ACTION_DELETE : list string := ["delete"; "move/delete"].
Definition SUPPORTED_ACTIONS : list string :=
  ACTION_EDIT ++ ACTION_ADD ++ ACTION_DELETE.

(** One entry of [parsed['files']]. *)
Record fileinfo : Type := mkFileinfo {
  fi_rev : Z;
  fi_action : string
}.

(** [parsed['files']] in the order [iteritems()] walks it (one entry
    per depot file). *)
Definition filesdict := list (string * fileinfo).

(** The loop of [files]: the three accumulators [a], [m], [r] are
    appended to in turn; an unknown action hits [assert False]. *)
Fixpoint files_loop (items : filesdict) (a m r : list string)
  : (list string * list string * list string) + pyexn :=
  match items with
  | [] => inl (a, m, r)
  | (fname, info) :: rest =>
      if str_in (fi_action info) ACTION_EDIT then
        files_loop rest a (m ++ [fname]) r
      else if str_in (fi_action info) ACTION_ADD then
        files_loop rest (a ++ [fname]) m r
      else if str_in (fi_action info) ACTION_DELETE then
        files_loop rest a m (r ++ [fname])
      else inr AssertionError
  end.

Definition files (parsed_files : filesdict)
  : (list string * list string * list string) + pyexn :=
  files_loop parsed_files [] [] [].

(** The files of a dictionary whose action is in a given list, in
    iteration order. *)
Definition with_action (acts : list string) (d : filesdict) : list string :=
  map fst (List.filter (fun e => str_in (fi_action (snd e)) acts) d).

Definition supported (e : string * fileinfo) : Prop :=
  In (fi_action (snd e)) SUPPORTED_ACTIONS.

Definition supportedb (e : string * fileinfo) : bool :=
  str_in (fi_action (snd e)) SUPPORTED_ACTIONS.

End P4.

(** ** Generic helpers *)

(** [sorted(l)]: insertion sort with respect to a boolean order. *)
Fixpoint insert_by {A} (leb : A -> A -> bool) (x : A) (l : list A) : list A :=
  match l with
  | [] => [x]
  | y :: l' => if leb x y then x :: l else y :: insert_by leb x l'
  end.

Fixpoint sorted_by {A} (leb : A -> A -> bool) (l : list A) : list A :=
  match l with
  | [] => []
  | x :: l' => insert_by leb x (sorted_by leb l')
  end.

(** [x in l] for revision numbers. *)
Definition inZ (x : Z) (l : list Z) : bool := existsb (Z.eqb x) l.

(** The newline character that ends the messages. *)
Definition nl : string := String (ascii_of_nat 10) EmptyString.

(** The double quote that appears inside a message. *)
Definition dquote : string := String (ascii_of_nat 34) EmptyString.

(** Python truth value of a list. *)
Definition nonempty {A} (l : list A) : bool :=
  match l with [] => false | _ :: _ => true end.

(** ** hgext3rd/fbamend.py *)
Module Fbamend.

(** *** The repository as the extension sees it *)

(** A node is the 20-byte binary identifier of a changeset; revisions
    are indices into the changelog, [nullrev] standing for "no parent". *)
Definition node := string.
Definition nullrev : Z := -1.
Definition nullid : node := "".

Definition hexdigit (n : N) : ascii :=
  match String.get (N.to_nat n) "0123456789abcdef" with
  | Some c => c
  | None => "0"%char
  end.

(** [mercurial.node.hex]. *)
Fixpoint hex (s : string) : string :=
  match s with
  | EmptyString => EmptyString
  | String c s' =>
      let n := N_of_ascii c in
      String (hexdigit (n / 16)) (String (hexdigit (n mod 16)) (hex s'))
  end.

(** [s.endswith(suffix)]. *)
Definition endswith (s suffix : string) : bool :=
  (String.length suffix <=? String.length s)%nat &&
  String.eqb
    (substring (String.length s - String.length suffix) (String.length suffix) s)
    suffix.

Inductive phase : Type := Public | Draft | Secret.

Definition phase_eqb (a b : phase) : bool :=
  match a, b with
  | Public, Public | Draft, Draft | Secret, Secret => true
  | _, _ => false
  end.

(** One changelog entry. *)
Record changeset : Type := mkChangeset {
  c_node : node;
  c_p1 : Z;
  c_p2 : Z;
  c_phase : phase;
  c_desc : string;
  c_date : string
}.

(** The repository state the extension reads and writes: the changelog,
    the revisions hidden by the repository filter, the obsolescence
    markers (precursor node, successor nodes), the nodes kept alive by
    the inhibit extension, the bookmark store, the active bookmark, the
    parents of the working directory, the state files and the
    configuration that the code consults. *)
Record repo : Type := mkRepo {
  changelog : list changeset;
  filteredrevs : list Z;
  obsstore : list (node * list node);
  _obsinhibit : list node;
  _bookmarks : gmap string node;
  _activebookmark : option string;
  dirstate_parents : Z * Z;
  histedit_state : bool;
  unfinished_state : option string;
  uncommitted_changes : bool;
  config_userestack : bool;
  config_education : option string;
  evolution_allnewcommands : bool;
  evolution_createmarkers : bool;
  inhibitmod : bool;
  config_extensions_fbamend : string
}.

Definition set_bookmarks (bm : gmap string node) (r : repo) : repo :=
  mkRepo (changelog r) (filteredrevs r) (obsstore r) (_obsinhibit r) bm
    (_activebookmark r) (dirstate_parents r) (histedit_state r)
    (unfinished_state r) (uncommitted_changes r) (config_userestack r)
    (config_education r) (evolution_allnewcommands r)
    (evolution_createmarkers r) (inhibitmod r) (config_extensions_fbamend r).

Definition set_obsinhibit (inh : list node) (r : repo) : repo :=
  mkRepo (changelog r) (filteredrevs r) (obsstore r) inh (_bookmarks r)
    (_activebookmark r) (dirstate_parents r) (histedit_state r)
    (unfinished_state r) (uncommitted_changes r) (config_userestack r)
    (config_education r) (evolution_allnewcommands r)
    (evolution_createmarkers r) (inhibitmod r) (config_extensions_fbamend r).

(** *** Changelog and revision-set queries of the host *)

Definition hidden (r : repo) (rev : Z) : bool := inZ rev (filteredrevs r).

(** The revisions of the filtered repository, ascending. *)
Definition visiblerevs (r : repo) : list Z :=
  List.filter (fun rev => negb (hidden r rev))
    (seqZ 0 (Z.of_nat (length (changelog r)))).

Definition visible (r : repo) (rev : Z) : bool := inZ rev (visiblerevs r).

Definition entry (r : repo) (rev : Z) : option changeset :=
  if rev <? 0 then None else changelog r !! Z.to_nat rev.

(** [changelog.node(rev)] without the filter. *)
Definition nodeof (r : repo) (rev : Z) : node :=
  match entry r rev with Some c => c_node c | None => nullid end.

(** [changelog.parentrevs(rev)]. *)
Definition parentrevs (r : repo) (rev : Z) : list Z :=
  match entry r rev with
  | Some c => [c_p1 c; c_p2 c]
  | None => [nullrev; nullrev]
  end.

(** [ctx.phase()]; the null revision is public. *)
Definition phaseof (r : repo) (rev : Z) : phase :=
  match entry r rev with Some c => c_phase c | None => Public end.

(** [changelog.nodemap.get(node)]. *)
Definition revof (r : repo) (n : node) : option Z :=
  match list_find (fun c => c_node c = n) (changelog r) with
  | Some (i, _) => Some (Z.of_nat i)
  | None => None
  end.

(** [ctx.children()]: the visible revisions one of whose parents is [rev]. *)
Definition children (r : repo) (rev : Z) : list Z :=
  List.filter (fun c => inZ rev (parentrevs r c)) (visiblerevs r).

(** Revset [(roots)::], which is also [descendants(roots)]: the roots and
    every visible revision with an ancestor among them, ascending.  A
    parent always has a smaller revision number than its children. *)
Definition descendants (r : repo) (roots : list Z) : list Z :=
  fold_left
    (fun acc rev =>
       if inZ rev roots || existsb (fun p => inZ p acc) (parentrevs r rev)
       then acc ++ [rev] else acc)
    (visiblerevs r) [].

(** Revset [::heads]: the heads and their ancestors, ascending. *)
Definition ancestors (r : repo) (heads : list Z) : list Z :=
  snd (fold_left
         (fun '(wanted, out) rev =>
            if inZ rev wanted then (parentrevs r rev ++ wanted, rev :: out)
            else (wanted, out))
         (rev (visiblerevs r)) (heads, [])).

(** Working-directory parent ['.']. *)
Definition dot (r : repo) : Z := fst (dirstate_parents r).

(** [repo[None].parents()]: the second parent is listed only when set. *)
Definition wdir_parents (r : repo) : list Z :=
  let '(a, b) := dirstate_parents r in
  if b =? nullrev then [a] else [a; b].

(** Revset [::. & draft()]. *)
Definition draft_ancestors_of_dot (r : repo) : list Z :=
  List.filter (fun rev => phase_eqb (phaseof r rev) Draft) (ancestors r [dot r]).

(** Precursor and successor nodes recorded for a node by the markers. *)
Definition marker_precursors (r : repo) (n : node) : list node :=
  map fst (List.filter (fun m => existsb (String.eqb n) (snd m)) (obsstore r)).

Definition marker_successors (r : repo) (n : node) : list node :=
  List.filter (fun s => negb (String.eqb s nullid))
    (flat_map snd (List.filter (fun m => String.eqb (fst m) n) (obsstore r))).

(** The work-list closure shared by [allprecursors] and [allsuccessors]:
    nodes reachable through [next], the start nodes themselves excluded
    unless they are reached again. *)
Fixpoint closure (next : node -> list node) (fuel : nat)
    (toproceed seen : list node) : list node :=
  match fuel with
  | O => seen
  | S k =>
      match toproceed with
      | [] => seen
      | nc :: rest =>
          let '(todo, seen') :=
            fold_left
              (fun '(t, s) n =>
                 if existsb (String.eqb n) s then (t, s) else (n :: t, s ++ [n]))
              (next nc) (rest, seen) in
          closure next k todo seen'
      end
  end.

Definition closure_fuel (r : repo) : nat :=
  S (S (length (flat_map (fun m => fst m :: snd m) (obsstore r)))).

(** Revset [allprecursors(rev)]: visible revisions among the transitive
    precursors, ascending. *)
Definition allprecursors (r : repo) (rev : Z) : list Z :=
  let seen := closure (marker_precursors r) (closure_fuel r) [nodeof r rev] [] in
  List.filter (fun x => existsb (String.eqb (nodeof r x)) seen) (visiblerevs r).

(** Revset [allsuccessors(rev)]. *)
Definition allsuccessors (r : repo) (rev : Z) : list Z :=
  let seen := closure (marker_successors r) (closure_fuel r) [nodeof r rev] [] in
  List.filter (fun x => existsb (String.eqb (nodeof r x)) seen) (visiblerevs r).

(** [ctx.obsolete()]: a marker names the changeset as precursor, it is
    not public and no inhibition marker keeps it alive. *)
Definition obsolete (r : repo) (rev : Z) : bool :=
  existsb (fun m => String.eqb (fst m) (nodeof r rev)) (obsstore r)
  && negb (phase_eqb (phaseof r rev) Public)
  && negb (existsb (String.eqb (nodeof r rev)) (_obsinhibit r)).

(** [repo.nodebookmarks(node)]: the names pointing at [node], sorted. *)
Definition nodebookmarks (r : repo) (n : node) : list string :=
  sorted_by String.leb
    (map fst (List.filter (fun kv => String.eqb (snd kv) n)
                (map_to_list (_bookmarks r)))).

(** [smartset.first()] and [smartset.last()] of an ascending set. *)
Definition first (l : list Z) : option Z := List.hd_error l.
Definition last (l : list Z) : option Z := List.hd_error (rev l).

(** *** Effects: exceptions, transactions, locks, the interface log *)

Inductive exn : Type :=
| Abort (msg : string) (hint : option string)
| InterventionRequired
| FilteredRepoLookupError (rev : Z)
| RepoLookupError (name : string)
| KeyError (key : string)
| RuntimeError (msg : string)
| HostError (msg : string).

(** The keyword arguments handed to [rebasemod.rebase]: source
    revisions, destination, and whatever else the caller passed. *)
Record rebaseopts : Type := mkRebaseopts {
  ro_rev : list Z;
  ro_dest : option Z;
  ro_other : list (string * pyobj)
}.

(** The options of [hg amend] that the code looks at. *)
Record amendopts : Type := mkAmendopts {
  o_rebase : bool;
  o_fixup : bool;
  o_interactive : bool;
  o_noeditmessage : bool;
  o_message : string;
  o_logfile : string;
  o_date : option string
}.

(** What the extension says to the user and asks of the host, in the
    order it happens. *)
Inductive event : Type :=
| ui_warn (s : string)
| ui_status (s : string)
| ui_write_err (s : string)
| call_rebase (o : rebaseopts)
| call_amend (old : Z) (o : amendopts)
| call_dorecord (o : amendopts)
| call_update (rev : Z)
| call_merge_update (n : node)
| call_strip (n : node)
| call_createmarkers (ms : list (node * list node))
| call_activate (mark : string)
| tr_opened (name : string)
| tr_committed
| tr_aborted.

(** A transaction object: [tr_count] is positive while it runs;
    [tr_backup] is what an abort restores. *)
Record transaction : Type := mkTransaction {
  tr_id : nat;
  tr_count : nat;
  tr_usages : nat;
  tr_backup : repo
}.

(** The world a command runs in.  [w_local_tr] is the local variable
    [tr] of the running function ([None] until it is assigned). *)
Record world : Type := mkWorld {
  w_repo : repo;
  w_tr : transaction;
  w_wlock : nat;
  w_lock : nat;
  w_local_tr : option nat;
  w_log : list event
}.

Definition set_repo (r : repo) (w : world) : world :=
  mkWorld r (w_tr w) (w_wlock w) (w_lock w) (w_local_tr w) (w_log w).
Definition set_tr (t : transaction) (w : world) : world :=
  mkWorld (w_repo w) t (w_wlock w) (w_lock w) (w_local_tr w) (w_log w).
Definition set_wlock (n : nat) (w : world) : world :=
  mkWorld (w_repo w) (w_tr w) n (w_lock w) (w_local_tr w) (w_log w).
Definition set_lock (n : nat) (w : world) : world :=
  mkWorld (w_repo w) (w_tr w) (w_wlock w) n (w_local_tr w) (w_log w).
Definition set_local_tr (t : option nat) (w : world) : world :=
  mkWorld (w_repo w) (w_tr w) (w_wlock w) (w_lock w) t (w_log w).
Definition add_log (e : event) (w : world) : world :=
  mkWorld (w_repo w) (w_tr w) (w_wlock w) (w_lock w) (w_local_tr w)
    (w_log w ++ [e]).

(** Computations that read and write the world and may raise. *)
Definition M (A : Type) : Type := world -> (A + exn) * world.

#[export] Instance M_ret : MRet M := fun A a w => (inl a, w).
#[export] Instance M_bind : MBind M := fun A B f m w =>
  match m w with
  | (inl a, w') => f a w'
  | (inr e, w') => (inr e, w')
  end.

Definition raise {A} (e : exn) : M A := fun w => (inr e, w).
Definition getrepo : M repo := fun w => (inl (w_repo w), w).
Definition modify (f : repo -> repo) : M unit :=
  fun w => (inl tt, set_repo (f (w_repo w)) w).
Definition emit (e : event) : M unit := fun w => (inl tt, add_log e w).

(** [try: m except e: h e]. *)
Definition try_except {A} (m : M A) (h : exn -> M A) : M A := fun w =>
  match m w with
  | (inr e, w') => h e w'
  | ok => ok
  end.

(** [try: m finally: fin]; an exception of [fin] replaces the outcome. *)
Definition try_finally {A} (m : M A) (fin : M unit) : M A := fun w =>
  let '(res, w') := m w in
  match fin w' with
  | (inl _, w'') => (res, w'')
  | (inr e, w'') => (inr e, w'')
  end.

(** A function call: the callee has its own local [tr]. *)
Definition with_frame {A} (m : M A) : M A := fun w =>
  let '(res, w') := m (set_local_tr None w) in
  (res, set_local_tr (w_local_tr w) w').

Fixpoint for_each {A} (l : list A) (f : A -> M unit) : M unit :=
  match l with
  | [] => mret tt
  | x :: l' => f x ;; for_each l' f
  end.

(** [repo.wlock()], [repo.lock()] and the release of a lock. *)
Definition repo_wlock : M unit := fun w => (inl tt, set_wlock (S (w_wlock w)) w).
Definition repo_lock : M unit := fun w => (inl tt, set_lock (S (w_lock w)) w).
Definition wlock_release : M unit := fun w => (inl tt, set_wlock (pred (w_wlock w)) w).
Definition lock_release : M unit := fun w => (inl tt, set_lock (pred (w_lock w)) w).

(** [repo.transaction(name)]: nest into the running transaction or start
    a new one, remembering the state to roll back to. *)
Definition repo_transaction (name : string) : M nat := fun w =>
  let t := w_tr w in
  if (0 <? tr_count t)%nat then
    (inl (tr_id t),
     set_tr (mkTransaction (tr_id t) (S (tr_count t)) (S (tr_usages t)) (tr_backup t)) w)
  else
    (inl (S (tr_id t)),
     add_log (tr_opened name)
       (set_tr (mkTransaction (S (tr_id t)) 1 1 (w_repo w)) w)).

(** Is [h] the transaction object that is running now? *)
Definition running (h : nat) (w : world) : bool :=
  (h =? tr_id (w_tr w))%nat && (0 <? tr_count (w_tr w))%nat.

(** [tr.close()]: the outermost close commits what was written. *)
Definition tr_close (h : nat) : M unit := fun w =>
  let t := w_tr w in
  if running h w then
    if (tr_count t =? 1)%nat then
      (inl tt, add_log tr_committed
                 (set_tr (mkTransaction (tr_id t) 0 (tr_usages t) (tr_backup t)) w))
    else
      (inl tt, set_tr (mkTransaction (tr_id t) (pred (tr_count t)) (tr_usages t)
                         (tr_backup t)) w)
  else
    (inr (Abort "cannot use transaction when it is already committed/aborted" None), w).

(** [tr.release()]: a transaction left without being closed is aborted,
    which restores the repository; after a close it does nothing. *)
Definition tr_release (h : nat) : M unit := fun w =>
  let t := w_tr w in
  if running h w then
    if (pred (tr_usages t) =? 0)%nat then
      (inl tt, add_log tr_aborted
                 (set_repo (tr_backup t)
                    (set_tr (mkTransaction (tr_id t) 0 0 (tr_backup t)) w)))
    else
      (inl tt, set_tr (mkTransaction (tr_id t) (tr_count t) (pred (tr_usages t))
                         (tr_backup t)) w)
  else (inl tt, w).

(** [with repo.transaction(name) as tr: body]: close on normal exit,
    release in every case. *)
Definition with_transaction {A} (name : string) (body : nat -> M A) : M A :=
  tr ← repo_transaction name;
  ((fun w =>
      match body tr (set_local_tr (Some tr) w) with
      | (inl a, w1) =>
          match tr_close tr w1 with
          | (inl _, w2) => let '(_, w3) := tr_release tr w2 in (inl a, w3)
          | (inr e, w2) => let '(_, w3) := tr_release tr w2 in (inr e, w3)
          end
      | (inr e, w1) => let '(_, w3) := tr_release tr w1 in (inr e, w3)
      end) : M A).

(** [lockmod.release(wlock, lock, tr)] of the [finally] clauses. *)
Definition lockmod_release : M unit :=
  wlock_release ;; lock_release ;;
  ((fun w => match w_local_tr w with
             | Some h => tr_release h w
             | None => (inl tt, w)
             end) : M unit).

(** [with nested(repo.wlock(), repo.lock()): body]. *)
Definition with_locks {A} (body : M A) : M A :=
  repo_wlock ;; repo_lock ;;
  try_finally body (lock_release ;; wlock_release).

(** *** What the host provides *)

(** A host subsystem: it transforms the repository and returns or
    raises. *)
Definition hostfn (A : Type) : Type := repo -> (A + exn) * repo.

(** The subsystems of the host that the extension calls.  [set_iter] is
    the order in which the interpreter iterates over a set of revision
    numbers (the argument lists its elements). *)
Class Host : Type := {
  rebasemod_rebase : rebaseopts -> hostfn unit;
  cmdutil_amend : Z -> string -> amendopts -> bool -> hostfn node;
  cmdutil_logmessage : amendopts -> string + exn;
  cmdutil_dorecord : (amendopts -> M (option Z)) -> amendopts -> M unit;
  commands_update : Z -> hostfn unit;
  merge_update : node -> hostfn unit;
  repair_strip : node -> hostfn unit;
  obsolete_createmarkers : list (node * list node) -> hostfn unit;
  bookmarks_activate : string -> hostfn unit;
  set_iter : list Z -> list Z;
  set_iter_perm : forall s, Permutation (set_iter s) s
}.

(** Run a host subsystem on the current repository, logging the call. *)
Definition call {A} (e : event) (f : hostfn A) : M A := fun w =>
  let '(res, r') := f (w_repo w) in
  (res, set_repo r' (add_log e w)).

(** *** The functions of [fbamend.py] *)

Section Functions.
Context `{Host}.

Definition ui_warn_ (s : string) : M unit := emit (ui_warn s).
Definition ui_status_ (s : string) : M unit := emit (ui_status s).

(** [bmactive(repo)]. *)
Definition bmactive (r : repo) : option string := _activebookmark r.

(** Python truth value of an optional string. *)
Definition str_truthy (o : option string) : bool :=
  match o with
  | Some s => negb (String.eqb s "")
  | None => false
  end.

(** [_preamendname(repo, node)]. *)
Definition _preamendname (r : repo) (n : node) : string :=
  let suffix := ".preamend" in
  let name :=
    match bmactive r with
    | Some name => if negb (String.eqb name "") then name
                   else substring 0 12 (hex n)
    | None => substring 0 12 (hex n)
    end in
  name ++ suffix.

(** [_histediting(repo)]. *)
Definition _histediting (r : repo) : bool := histedit_state r.

(** [_usereducation(ui)]. *)
Definition _usereducation : M unit :=
  r ← getrepo;
  match config_education r with
  | Some education =>
      if negb (String.eqb education "") then ui_warn_ (education ++ nl)
      else mret tt
  | None => mret tt
  end.

(** [repo[rev]] for a revision number: hidden revisions cannot be
    looked up through the filtered repository. *)
Definition changectx (r : repo) (rev : Z) : Z + exn :=
  if visible r rev then inl rev else inr (FilteredRepoLookupError rev).

(** [[repo[r] for r in revs]]. *)
Fixpoint changectxs (r : repo) (revs : list Z) : list Z + exn :=
  match revs with
  | [] => inl []
  | x :: revs' =>
      match changectx r x with
      | inl c =>
          match changectxs r revs' with
          | inl cs => inl (c :: cs)
          | inr e => inr e
          end
      | inr e => inr e
      end
  end.

(** [repo[name]] for a bookmark name. *)
Definition lookup_name (r : repo) (name : string) : Z + exn :=
  match _bookmarks r !! name with
  | Some n =>
      match revof r n with
      | Some rev => changectx r rev
      | None => inr (RepoLookupError name)
      end
  | None => inr (RepoLookupError name)
  end.

Definition lift {A} (x : A + exn) : M A := fun w => (x, w).

(** [_clearpreamend(repo, contexts)]: the inner loop over the bookmarks
    of one context, then the loop over the contexts. *)
Definition clearpreamend_node (r : repo) (n : node) : repo :=
  fold_left
    (fun r' bookmark =>
       if endswith bookmark ".preamend"
       then set_bookmarks (delete bookmark (_bookmarks r')) r'
       else r')
    (nodebookmarks r n) r.

Definition _clearpreamend (contexts : list Z) (r : repo) : repo :=
  fold_left (fun r' ctx => clearpreamend_node r' (nodeof r' ctx)) contexts r.

(** [inhibitmod._deinhibitmarkers(repo, nodes)]. *)
Definition _deinhibitmarkers (nodes : list node) (r : repo) : repo :=
  set_obsinhibit
    (List.filter (fun n => negb (existsb (String.eqb n) nodes)) (_obsinhibit r)) r.

(** [_deinhibit(repo, contexts)]. *)
Definition _deinhibit (contexts : list Z) (r : repo) : repo :=
  if inhibitmod r then _deinhibitmarkers (map (nodeof r) contexts) r else r.

(** A [defaultdict(set)] from revisions to sets of revisions; a set is
    kept as the list of its elements. *)
Definition set_add (x : Z) (s : list Z) : list Z :=
  if inZ x s then s else s ++ [x].

Definition dict_get (d : gmap Z (list Z)) (k : Z) : list Z :=
  default [] (d !! k).

(** [_getchildrelationships(repo, revs)]. *)
Definition _getchildrelationships (r : repo) (revs : list Z) : gmap Z (list Z) :=
  fold_left
    (fun children rev =>
       fold_left
         (fun children parent =>
            if negb (parent =? nullrev)
            then <[parent := set_add rev (dict_get children parent)]> children
            else children)
         (parentrevs r rev) children)
    (descendants r revs) ∅.

(** [_latest(repo, rev)]. *)
Definition _latest (r : repo) (rev : Z) : Z :=
  match last (allsuccessors r rev) with
  | Some latest => latest
  | None => rev
  end.

(** The state of the loop of [_findrestacktargets]. *)
Record bfs_state : Type := mkBfs {
  queue : list Z;
  targets : list Z;
  processed : list Z
}.

(** One pass through the body of the [while queue] loop, for the
    revision just taken from the left of the queue. *)
Definition bfs_body (r : repo) (childrenof : gmap Z (list Z))
    (rev : Z) (st : bfs_state) : bfs_state :=
  if inZ rev (processed st) then st
  else
    let processed' := processed st ++ [rev] in
    let queue' := queue st ++ sorted_by Z.leb (dict_get childrenof rev) in
    let precursors := allprecursors r rev in
    let successors := allsuccessors r rev in
    if nonempty precursors && negb (nonempty successors) then
      let children :=
        flat_map (fun p => set_iter (dict_get childrenof p)) precursors in
      if nonempty children
      then mkBfs (queue' ++ children) (targets st ++ [rev]) processed'
      else mkBfs queue' (targets st) processed'
    else mkBfs queue' (targets st) processed'.

Fixpoint bfs_loop (fuel : nat) (r : repo) (childrenof : gmap Z (list Z))
    (st : bfs_state) : option bfs_state :=
  match fuel with
  | O => None
  | S k =>
      match queue st with
      | [] => Some st
      | rev :: rest =>
          bfs_loop k r childrenof
            (bfs_body r childrenof rev (mkBfs rest (targets st) (processed st)))
      end
  end.

(** What one visit can add to the queue. *)
Definition bfs_cost (r : repo) (childrenof : gmap Z (list Z)) (rev : Z) : nat :=
  (length (dict_get childrenof rev) +
   length (flat_map (fun p => set_iter (dict_get childrenof p))
             (allprecursors r rev)))%nat.

(** Enough passes for the loop to empty its queue: every revision is
    visited once, and only [base] and members of the child sets are
    ever queued. *)
Definition bfs_fuel (r : repo) (childrenof : gmap Z (list Z)) (base : Z) : nat :=
  let universe :=
    remove_dups (base :: flat_map snd (map_to_list childrenof)) in
  (2 + list_sum (map (bfs_cost r childrenof) universe))%nat.

(** The child relation that [_findrestacktargets] works with. *)
Definition restack_children (r : repo) (base : Z) : gmap Z (list Z) :=
  _getchildrelationships r (base :: allprecursors r base).

Definition bfs_run (r : repo) (base : Z) : option bfs_state :=
  let childrenof := restack_children r base in
  bfs_loop (bfs_fuel r childrenof base) r childrenof (mkBfs [base] [] []).

(** [_findrestacktargets(repo, base)]: the [while queue] loop, then
    [reversed(targets)]. *)
Definition _findrestacktargets (r : repo) (base : Z) : option (list Z) :=
  match bfs_run r base with
  | Some st => Some (rev (targets st))
  | None => None
  end.

(** Revset [descendants(%ld) - %ld]. *)
Definition descendants_minus (r : repo) (revs : list Z) : list Z :=
  List.filter (fun x => negb (inZ x revs)) (descendants r revs).

(** [_restackonce(ui, repo, rev, rebaseopts)]. *)
Definition _restackonce (rev : Z) (rebaseopts : option rebaseopts) : M unit :=
  r ← getrepo;
  let allprecursors := allprecursors r rev in
  let descendants := descendants_minus r allprecursors in
  if negb (nonempty descendants) then mret tt
  else
    let rebaseopts := default (mkRebaseopts [] None []) rebaseopts in
    let rebaseopts := mkRebaseopts descendants (Some rev) (ro_other rebaseopts) in
    call (call_rebase rebaseopts) (rebasemod_rebase rebaseopts) ;;
    r' ← getrepo;
    contexts ← lift (changectxs r' allprecursors);
    modify (_clearpreamend contexts) ;;
    modify (_deinhibit contexts).

(** [cmdutil.checkunfinished(repo)] and [cmdutil.bailifchanged(repo)]. *)
Definition cmdutil_checkunfinished : M unit :=
  r ← getrepo;
  match unfinished_state r with
  | Some msg => raise (Abort msg None)
  | None => mret tt
  end.

Definition cmdutil_bailifchanged : M unit :=
  r ← getrepo;
  if negb (snd (dirstate_parents r) =? nullrev)
  then raise (Abort "outstanding uncommitted merge" None)
  else if uncommitted_changes r
  then raise (Abort "uncommitted changes" None)
  else mret tt.

(** The handler [except error.InterventionRequired: tr.close(); raise]. *)
Definition close_and_reraise (tr : nat) (e : exn) : M unit :=
  match e with
  | InterventionRequired => tr_close tr ;; raise e
  | _ => raise e
  end.

(** [restack(ui, repo, rebaseopts)].  The traversal always finishes
    within [bfs_fuel] passes, so the [None] branch below is never
    taken. *)
Definition restack (rebaseopts : option rebaseopts) : M unit :=
  let rebaseopts := default (mkRebaseopts [] None []) rebaseopts in
  with_frame (with_locks (
    cmdutil_checkunfinished ;;
    cmdutil_bailifchanged ;;
    r ← getrepo;
    let base := first (draft_ancestors_of_dot r) in
    let latest :=
      match base with
      | Some base => _latest r base
      | None => dot r
      end in
    match _findrestacktargets r latest with
    | None => raise (RuntimeError "traversal did not finish")
    | Some targets =>
        with_transaction "restack" (fun tr =>
          for_each targets (fun rev =>
            try_except (_restackonce rev (Some rebaseopts))
              (close_and_reraise tr)) ;;
          r' ← getrepo;
          match last (allsuccessors r' (dot r')) with
          | Some successor =>
              call (call_update successor) (commands_update successor)
          | None => mret tt
          end)
    end)).

(** [repo._bookmarks.pop(bookmark)]. *)
Definition bookmarks_pop (bookmark : string) : M unit :=
  r ← getrepo;
  match _bookmarks r !! bookmark with
  | Some _ => modify (fun r' => set_bookmarks (delete bookmark (_bookmarks r')) r')
  | None => raise (KeyError bookmark)
  end.

(** [bmactivate(repo, mark)]. *)
Definition bmactivate (mark : string) : M unit :=
  call (call_activate mark) (bookmarks_activate mark).

(** The error of [fixupamend] when the recovery bookmark is on the
    current changeset. *)
Definition ambiguous (preamendname : string) : exn :=
  Abort
    ("cannot automatically determine what to rebase "
     ++ "because bookmark " ++ dquote ++ preamendname ++ dquote
     ++ " points to the current changset")
    (Some "please examine smartlog and rebase your changsets manually").

(** [fixupamend(ui, repo)]. *)
Definition fixupamend : M unit :=
  with_frame (try_finally (
    repo_wlock ;; repo_lock ;;
    r ← getrepo;
    let current := dot r in
    if config_userestack r then
      with_transaction "fixupamend" (fun tr =>
        try_except (_restackonce current None) (close_and_reraise tr))
    else
      let preamendname := _preamendname r (nodeof r current) in
      match _bookmarks r !! preamendname with
      | None =>
          raise (Abort ("no bookmark " ++ preamendname)
                   (Some "check if your bookmark is active"))
      | Some _ =>
          old ← lift (lookup_name r preamendname);
          if old =? current then
            raise (ambiguous preamendname)
          else
            let oldbookmarks := nodebookmarks r (nodeof r old) in
            ui_status_ ("rebasing the children of " ++ preamendname ++ nl) ;;
            let active := bmactive r in
            let opts :=
              mkRebaseopts (descendants_minus r [old]) (Some current) [] in
            (if nonempty (ro_rev opts)
             then call (call_rebase opts) (rebasemod_rebase opts)
             else mret tt) ;;
            for_each oldbookmarks bookmarks_pop ;;
            tr ← repo_transaction "fixupamend";
            (fun w => (inl tt, set_local_tr (Some tr) w)) ;;
            r1 ← getrepo;
            (if evolution_createmarkers r1 then
               (if negb (obsolete r1 old)
                then call (call_createmarkers [(nodeof r old, [])])
                       (obsolete_createmarkers [(nodeof r old, [])])
                else mret tt) ;;
               tr_close tr
             else
               tr_close tr ;;
               call (call_strip (nodeof r old)) (repair_strip (nodeof r old))) ;;
            call (call_merge_update (nodeof r current))
              (merge_update (nodeof r current)) ;;
            (if str_truthy active
             then bmactivate (default "" active)
             else mret tt)
      end)
    lockmod_release).

(** The flags among [rebase] and [fixup] that are set. *)
Definition badflags (opts : amendopts) : list string :=
  List.filter
    (fun flag => if String.eqb flag "rebase" then o_rebase opts else o_fixup opts)
    ["rebase"; "fixup"].

Definition incompatible_msg (cfg : string) : string :=
  "fbamend and evolve extension are incompatible, fbamend deactivated." ++ nl
  ++ "You can either disable it globally:" ++ nl
  ++ "- type `hg config --edit`" ++ nl
  ++ "- drop the `fbamend=` line from the `[extensions]` section" ++ nl
  ++ "or disable it for a specific repo:" ++ nl
  ++ "- type `hg config --local --edit`" ++ nl
  ++ "- add a `fbamend=!" ++ cfg ++ "` line in the `[extensions]` section" ++ nl.

(** The options as [amend] leaves them for the commit: the message of
    the old changeset unless one was given or an editor is wanted, and
    no log file any more. *)
Definition amend_commitopts (r : repo) (opts : amendopts) (message : string)
  : amendopts :=
  let message :=
    if negb (o_noeditmessage opts) && String.eqb message ""
    then match entry r (dot r) with Some c => c_desc c | None => "" end
    else message in
  mkAmendopts (o_rebase opts) (o_fixup opts) (o_interactive opts)
    (o_noeditmessage opts) message "" (o_date opts).

(** [commitdate]: the date given, or the date of the old changeset. *)
Definition amend_commitdate (r : repo) (opts : amendopts) : string :=
  if str_truthy (o_date opts) then default "" (o_date opts)
  else match entry r (dot r) with Some c => c_date c | None => "" end.

(** The body of [amend(ui, repo, *pats, **opts)]; [self] is [amend]
    itself, which the interactive mode hands to [cmdutil.dorecord]. *)
Definition amend_body (self : amendopts -> M (option Z)) (opts : amendopts)
  : M (option Z) :=
  r ← getrepo;
  (if evolution_allnewcommands r
   then emit (ui_write_err (incompatible_msg (config_extensions_fbamend r)))
   else mret tt) ;;
  let rebase := o_rebase opts in
  if rebase && _histediting r then
    raise (Abort "histedit in progress"
             (Some "during histedit, use amend without --rebase"))
  else if o_interactive opts && nonempty (badflags opts) then
    raise (Abort ("--interactive and --" ++ List.hd "" (badflags opts)
                  ++ " are mutually exclusive") None)
  else if o_fixup opts then
    fixupamend ;; mret None
  else
    let old := dot r in
    if phase_eqb (phaseof r old) Public then
      raise (Abort "cannot amend public changesets" None)
    else if (1 <? length (wdir_parents r))%nat then
      raise (Abort "cannot amend while merging" None)
    else
      let haschildren := nonempty (children r old) in
      message ← lift (cmdutil_logmessage opts);
      let commitdate := amend_commitdate r opts in
      let opts := amend_commitopts r opts message in
      let active := bmactive r in
      let oldbookmarks := nodebookmarks r (nodeof r old) in
      with_frame (try_finally (
        repo_wlock ;; repo_lock ;;
        if o_interactive opts then
          let opts :=
            mkAmendopts (o_rebase opts) (o_fixup opts) false
              (o_noeditmessage opts) (o_message opts) (o_logfile opts)
              (o_date opts) in
          emit (call_dorecord opts) ;;
          cmdutil_dorecord self opts ;;
          mret None
        else
          node ← call (call_amend old opts)
                   (cmdutil_amend old commitdate opts haschildren);
          if String.eqb node (nodeof r old) then
            ui_status_ ("nothing changed" ++ nl) ;; mret (Some 0)
          else
            (if haschildren && negb rebase then
               let msg :=
                 ("warning: the changeset's children were left behind" ++ nl)%string in
               r1 ← getrepo;
               if _histediting r1 then
                 ui_warn_ msg ;;
                 ui_status_ ("(this is okay since a histedit is in progress)" ++ nl)
               else
                 _usereducation ;;
                 ui_warn_ msg ;;
                 ui_status_ ("(use 'hg amend --fixup' to rebase them)" ++ nl)
             else mret tt) ;;
            for_each oldbookmarks (fun bm =>
              modify (fun r' => set_bookmarks (<[bm := node]> (_bookmarks r')) r')) ;;
            r2 ← getrepo;
            let userestack := config_userestack r2 in
            (if negb (_histediting r2) && negb userestack then
               let preamendname := _preamendname r2 node in
               if haschildren then
                 modify (fun r' =>
                   set_bookmarks (<[preamendname := nodeof r old]> (_bookmarks r')) r')
               else if negb (str_truthy active) then
                 let oldname := _preamendname r2 (nodeof r old) in
                 match _bookmarks r2 !! oldname with
                 | Some target =>
                     modify (fun r' =>
                       set_bookmarks
                         (delete oldname (<[preamendname := target]> (_bookmarks r'))) r')
                 | None => mret tt
                 end
               else mret tt
             else mret tt) ;;
            tr ← repo_transaction "fixupamend";
            (fun w => (inl tt, set_local_tr (Some tr) w)) ;;
            tr_close tr ;;
            (if rebase && haschildren then fixupamend else mret tt) ;;
            mret None)
        lockmod_release).

(** [amend]: the interpreter bounds the depth of the re-entry through
    [cmdutil.dorecord]. *)
Fixpoint amend (depth : nat) (opts : amendopts) : M (option Z) :=
  amend_body
    (match depth with
     | O => fun _ => raise (RuntimeError "maximum recursion depth exceeded")
     | S d => amend d
     end) opts.

End Functions.

(** *** Vocabulary of the properties *)

Section Vocabulary.
Context `{Host}.

(** The two things a visit puts on the queue: the children of the
    revision, sorted, and the children of its precursors. *)
Definition kids (childrenof : gmap Z (list Z)) (rev : Z) : list Z :=
  sorted_by Z.leb (dict_get childrenof rev).

Definition pkids (r : repo) (childrenof : gmap Z (list Z)) (rev : Z) : list Z :=
  flat_map (fun p => set_iter (dict_get childrenof p)) (allprecursors r rev).

(** The test under which a visited revision is recorded as a target. *)
Definition is_target (r : repo) (childrenof : gmap Z (list Z)) (rev : Z) : bool :=
  nonempty (allprecursors r rev) && negb (nonempty (allsuccessors r rev))
  && nonempty (pkids r childrenof rev).

Definition pushes (r : repo) (childrenof : gmap Z (list Z)) (rev : Z) : list Z :=
  kids childrenof rev ++ (if is_target r childrenof rev then pkids r childrenof rev else []).

(** [c] is a child of [p] in the relation built from [base]: [c] is
    among the descendants of [base] and of its precursors and [p] is one
    of its parents. *)
Definition child_from (r : repo) (base p c : Z) : Prop :=
  In c (descendants r (base :: allprecursors r base))
  /\ In p (parentrevs r c) /\ p <> nullrev.

(** [rev] has a precursor, no successor, and one of its precursors has
    a child in that relation. *)
Definition target_from (r : repo) (base rev : Z) : Prop :=
  allprecursors r rev <> [] /\ allsuccessors r rev = []
  /\ exists p c, In p (allprecursors r rev) /\ child_from r base p c.

(** The same with the children the repository has ([ctx.children()]). *)
Definition target_in_repo (r : repo) (rev : Z) : Prop :=
  allprecursors r rev <> [] /\ allsuccessors r rev = []
  /\ exists p c, In p (allprecursors r rev) /\ In c (children r p).

(** The revisions the traversal gets to: [base], the children of a
    revision it got to, and the children of the precursors of a target
    it got to. *)
Inductive bfs_reach (r : repo) (base : Z) : Z -> Prop :=
| reach_base : bfs_reach r base base
| reach_child x c :
    bfs_reach r base x -> child_from r base x c -> bfs_reach r base c
| reach_precursor_child x p c :
    bfs_reach r base x -> target_from r base x ->
    In p (allprecursors r x) -> child_from r base p c ->
    bfs_reach r base c.

(** Every revision that can come onto the queue. *)
Definition universe (childrenof : gmap Z (list Z)) (base : Z) : list Z :=
  remove_dups (base :: flat_map snd (map_to_list childrenof)).

(** What the revisions of [l] not yet visited can still add to the
    queue. *)
Definition pending_in (r : repo) (childrenof : gmap Z (list Z))
    (l processed : list Z) : nat :=
  list_sum (map (bfs_cost r childrenof)
              (List.filter (fun x => negb (inZ x processed)) l)).

(** Revisions reachable through what the visits push. *)
Inductive reach (r : repo) (childrenof : gmap Z (list Z)) (base : Z) : Z -> Prop :=
| reach_start : reach r childrenof base base
| reach_push x y :
    reach r childrenof base x -> In y (pushes r childrenof x) ->
    reach r childrenof base y.

(** What holds of the state of the loop before and after every pass. *)
Record invariant (r : repo) (childrenof : gmap Z (list Z)) (base : Z)
    (st : bfs_state) : Prop := {
  inv_nodup : NoDup (processed st);
  inv_targets :
    targets st = List.filter (is_target r childrenof) (processed st);
  inv_processed : forall x, In x (processed st) -> reach r childrenof base x;
  inv_queue : forall x, In x (queue st) -> reach r childrenof base x;
  inv_closed : forall x y, In x (processed st) -> In y (pushes r childrenof x) ->
    In y (processed st) \/ In y (queue st);
  inv_base : In base (processed st) \/ In base (queue st)
}.

(** The loop that pops the [.preamend] names of a list. *)
Definition pop_preamend (l : list string) (m : gmap string node) : gmap string node :=
  fold_left (fun m' b => if endswith b ".preamend" then delete b m' else m') l m.

(** The parts of the world that [_restackonce] leaves alone. *)
Definition same_frame (w w' : world) : Prop :=
  w_tr w' = w_tr w /\ w_wlock w' = w_wlock w /\ w_lock w' = w_lock w
  /\ w_local_tr w' = w_local_tr w.

(** The world after the notice that [amend] prints when the evolve
    commands are enabled: the log grows, nothing else changes. *)
Definition noticed (w : world) : world :=
  if evolution_allnewcommands (w_repo w)
  then add_log (ui_write_err (incompatible_msg (config_extensions_fbamend (w_repo w)))) w
  else w.

(** The arguments with which [_restackonce] calls the rebase for the
    target [rev] in repository [r]. *)
Definition rebase_call (r : repo) (rev : Z) (opts : option rebaseopts) : rebaseopts :=
  mkRebaseopts (descendants_minus r (allprecursors r rev)) (Some rev)
    (ro_other (default (mkRebaseopts [] None []) opts)).

(** No visible, non-obsolete changeset has an obsolete ancestor. *)
Definition stable (r : repo) : Prop :=
  forall rev a, visible r rev = true -> obsolete r rev = false ->
    In a (ancestors r [rev]) -> obsolete r a = false.

(** The base that [restack] starts its traversal from. *)
Definition restack_base (r : repo) : Z :=
  match first (draft_ancestors_of_dot r) with
  | Some base => _latest r base
  | None => dot r
  end.

(** The world in which the body of a [with repo.transaction(name)]
    block starts, when the locks were taken on entry of the function and
    no transaction was running; [opened_tr] is the new transaction. *)
Definition opened_tr (w : world) : nat := S (tr_id (w_tr w)).

Definition block_entry (name : string) (w : world) : world :=
  mkWorld (w_repo w)
    (mkTransaction (opened_tr w) 1 1 (w_repo w))
    (S (w_wlock w)) (S (w_lock w)) (Some (opened_tr w))
    (w_log w ++ [tr_opened name]).

(** One turn of the loop of [restack]. *)
Definition restack_turn (tr : nat) (rebaseopts : rebaseopts) (rev : Z) : M unit :=
  try_except (_restackonce rev (Some rebaseopts)) (close_and_reraise tr).

(** The world a command leaves when it ends in world [w'], having
    committed its transaction and released its locks. *)
Definition block_exit (w w' : world) : world :=
  mkWorld (w_repo w')
    (mkTransaction (tr_id (w_tr w')) 0 (tr_usages (w_tr w')) (tr_backup (w_tr w')))
    (w_wlock w) (w_lock w) (w_local_tr w)
    (w_log w' ++ [tr_committed]).

End Vocabulary.

End Fbamend.

(** ** Concrete repositories and a concrete host

    Small repositories and one executable host on which the functions
    above can be run. *)
Module Scenarios.
Import Fbamend.

Definition cs (n : node) (p1 : Z) (ph : phase) : changeset :=
  mkChangeset n p1 nullrev ph "" "0 0".

Definition plain_repo (cl : list changeset) (markers : list (node * list node))
    (dotrev : Z) : repo :=
  mkRepo cl [] markers [] ∅ None (dotrev, nullrev) false None false
    false None false true false "".

(** No transaction yet, no lock held, nothing logged. *)
Definition fresh (r : repo) : world :=
  mkWorld r (mkTransaction 0 0 0 r) 0 0 None [].

(** A public root [P], the stack [A], [B], [C] on it, and [B2], the
    successor of [B], which sits directly on [P]; the working directory
    is on [C]. *)
Definition moved_successor : repo :=
  plain_repo
    [cs "P" nullrev Public; cs "A" 0 Draft; cs "B" 1 Draft; cs "C" 2 Draft;
     cs "B2" 0 Draft]
    [("B", ["B2"])] 3.

(** A public root [P] with [A] on it; [X] with child [Y] also on [P];
    [X2], the successor of [X], on [A]; the working directory is on
    [X2]. *)
Definition outside_precursor : repo :=
  plain_repo
    [cs "P" nullrev Public; cs "A" 0 Draft; cs "X" 0 Draft; cs "Y" 2 Draft;
     cs "X2" 1 Draft]
    [("X", ["X2"])] 4.

(** [A] amended into [A2] with its child [B] left behind, on a public
    root; the working directory is on [A2]. *)
Definition amended_stack : repo :=
  plain_repo
    [cs "P" nullrev Public; cs "A" 0 Draft; cs "B" 1 Draft; cs "A2" 0 Draft]
    [("A", ["A2"])] 3.

(** A stack [A], [B] with the working directory on [A]. *)
Definition two_stack (userestack : bool) (active : option string) : repo :=
  mkRepo [cs "P" nullrev Public; cs "A" 0 Draft; cs "B" 1 Draft] [] [] []
    ∅ active (1, nullrev) false None false userestack None false true false "".

(** The working directory on a public changeset, restack mode on. *)
Definition on_public : repo :=
  mkRepo [cs "P" nullrev Public; cs "A" 0 Draft] [] [] []
    ∅ None (0, nullrev) false None false true None false true false "".

(** The stack [amended_stack] with [fbamend.userestack] on. *)
Definition amended_stack_restackmode : repo :=
  mkRepo (changelog amended_stack) [] (obsstore amended_stack) [] ∅ None
    (3, nullrev) false None false true None false true false "".

(** The bookmark [feature] is active and [feature.preamend] points at
    the current changeset [A]. *)
Definition bookmark_on_current : repo :=
  mkRepo [cs "P" nullrev Public; cs "A" 0 Draft; cs "B" 1 Draft] [] [] []
    (<["feature.preamend" := "A"]> ∅) (Some "feature") (1, nullrev) false None
    false false None false true false "".

(** [hg amend] without options, and [hg amend --fixup]. *)
Definition plain_opts : amendopts := mkAmendopts false false false false "" "" None.
Definition fixup_opts : amendopts := mkAmendopts false true false false "" "" None.

Definition set_changelog_dot (cl : list changeset)
    (markers : list (node * list node)) (d : Z * Z) (r : repo) : repo :=
  mkRepo cl (filteredrevs r) markers (_obsinhibit r) (_bookmarks r)
    (_activebookmark r) d (histedit_state r) (unfinished_state r)
    (uncommitted_changes r) (config_userestack r) (config_education r)
    (evolution_allnewcommands r) (evolution_createmarkers r) (inhibitmod r)
    (config_extensions_fbamend r).

(** Copy one changeset onto its rebased parent, or onto [dest], and
    record the marker; [copies] maps the sources done so far to their
    copies. *)
Definition rebase_one (dest : Z) (acc : repo * list (Z * Z)) (src : Z)
  : repo * list (Z * Z) :=
  let '(r, copies) := acc in
  let new := Z.of_nat (length (changelog r)) in
  let parent :=
    match List.find (fun c => fst c =? List.hd nullrev (parentrevs r src)) copies with
    | Some (_, copy) => copy
    | None => dest
    end in
  let n := (nodeof r src ++ "'")%string in
  (set_changelog_dot
     (changelog r ++ [cs n parent Draft])
     (obsstore r ++ [(nodeof r src, [n])])
     (if dot r =? src then (new, nullrev) else dirstate_parents r) r,
   copies ++ [(src, new)]).

(** A rebase that stops with a conflict, after its first changeset,
    when the destination is one of [conflicts]. *)
Definition simple_rebase (conflicts : list Z) (o : rebaseopts) : hostfn unit :=
  fun r =>
    match ro_dest o with
    | None => (inr (Abort "nothing to rebase" None), r)
    | Some dest =>
        if inZ dest conflicts then
          (inr InterventionRequired,
           fst (fold_left (rebase_one dest) (firstn 1 (ro_rev o)) (r, [])))
        else
          (inl tt, fst (fold_left (rebase_one dest) (ro_rev o) (r, [])))
    end.

(** An amend that commits the successor of [old] beside it and moves the
    working directory there. *)
Definition simple_amend (old : Z) (date : string) (o : amendopts)
    (keepchildren : bool) : hostfn node :=
  fun r =>
    let new := Z.of_nat (length (changelog r)) in
    let n := (nodeof r old ++ "'")%string in
    (inl n,
     set_changelog_dot
       (changelog r ++ [cs n (List.hd nullrev (parentrevs r old)) Draft])
       (obsstore r ++ [(nodeof r old, [n])])
       (new, nullrev) r).

Definition simple_update (rev : Z) : hostfn unit :=
  fun r => (inl tt, set_changelog_dot (changelog r) (obsstore r) (rev, nullrev) r).

#[export] Instance simple_host (conflicts : list Z) : Host := {|
  rebasemod_rebase := simple_rebase conflicts;
  cmdutil_amend := simple_amend;
  cmdutil_logmessage := fun o => inl (o_message o);
  cmdutil_dorecord := fun self o => self o ;; mret tt;
  commands_update := simple_update;
  merge_update := fun n r =>
    match revof r n with
    | Some rev => simple_update rev r
    | None => (inr (RepoLookupError n), r)
    end;
  repair_strip := fun n r => (inr (HostError "strip"), r);
  obsolete_createmarkers := fun ms r =>
    (inl tt, set_changelog_dot (changelog r) (obsstore r ++ ms) (dirstate_parents r) r);
  bookmarks_activate := fun mark r => (inl tt, r);
  set_iter := fun s => s;
  set_iter_perm := fun s => Permutation_refl s
|}.

(** A host like [simple_host []] with its rebase, its commit machinery
    and its interactive recorder replaced. *)
Definition host_of (rebase : rebaseopts -> hostfn unit)
    (amendfn : Z -> string -> amendopts -> bool -> hostfn node)
    (dorecord : (amendopts -> M (option Z)) -> amendopts -> M unit) : Host := {|
  rebasemod_rebase := rebase;
  cmdutil_amend := amendfn;
  cmdutil_logmessage := fun o => inl (o_message o);
  cmdutil_dorecord := dorecord;
  commands_update := simple_update;
  merge_update := fun n r =>
    match revof r n with
    | Some rev => simple_update rev r
    | None => (inr (RepoLookupError n), r)
    end;
  repair_strip := fun n r => (inr (HostError "strip"), r);
  obsolete_createmarkers := fun ms r =>
    (inl tt, set_changelog_dot (changelog r) (obsstore r ++ ms) (dirstate_parents r) r);
  bookmarks_activate := fun mark r => (inl tt, r);
  set_iter := fun s => s;
  set_iter_perm := fun s => Permutation_refl s
|}.

(** A host like [simple_host] with its rebase and its amend replaced. *)
Definition host_with (rebase : rebaseopts -> hostfn unit)
    (amendfn : Z -> string -> amendopts -> bool -> hostfn node) : Host :=
  host_of rebase amendfn (fun self o => self o ;; mret tt).

(** An amend that finds nothing to commit. *)
Definition idle_amend (old : Z) (date : string) (o : amendopts)
    (keepchildren : bool) : hostfn node :=
  fun r => (inl (nodeof r old), r).


(** The view of the repository after a change: a revision is hidden
    when it and all its visible descendants are obsolete and none of
    them carries a bookmark or is the parent of the working
    directory. *)
Definition pinned (r : repo) (x : Z) : bool :=
  nonempty (nodebookmarks r (nodeof r x)) || (x =? dot r).

Definition hideable (r : repo) (x : Z) : bool :=
  forallb (fun d => obsolete r d && negb (pinned r d)) (descendants r [x]).

Definition refilter (r : repo) : repo :=
  mkRepo (changelog r)
    (List.filter (hideable r) (seqZ 0 (Z.of_nat (length (changelog r)))))
    (obsstore r) (_obsinhibit r) (_bookmarks r) (_activebookmark r)
    (dirstate_parents r) (histedit_state r) (unfinished_state r)
    (uncommitted_changes r) (config_userestack r) (config_education r)
    (evolution_allnewcommands r) (evolution_createmarkers r) (inhibitmod r)
    (config_extensions_fbamend r).

(** A rebase after which the view is computed anew. *)
Definition hiding_rebase (o : rebaseopts) : hostfn unit :=
  fun r => let '(res, r') := simple_rebase [] o r in (res, refilter r').

(** Under the active bookmark [old], [A0] with its child [C] was amended
    into [A1], which left [old.preamend] on [A0]; [D] was committed on
    [A1], and [A1] was amended into [A2], which moved [old.preamend] to
    [A1].  The working directory is on [A2]; the inhibit extension is
    not installed. *)
Definition two_precursors : repo :=
  mkRepo
    [cs "P" nullrev Public; cs "A0" 0 Draft; cs "C" 1 Draft; cs "A1" 0 Draft;
     cs "D" 3 Draft; cs "A2" 0 Draft]
    [] [("A0", ["A1"]); ("A1", ["A2"])] []
    (<["old.preamend" := "A1"]> (<["old" := "A2"]> ∅)) (Some "old")
    (5, nullrev) false None false
    false None false true false "".

End Scenarios.

(** ** More repositories and hosts *)
Module MoreScenarios.
Import Fbamend Scenarios.

(** The stack [amended_stack] while a rebase is unfinished, with a
    modified working copy, and in the middle of a merge. *)
Definition with_state (unfinished : option string) (dirty : bool) (p2 : Z)
  : repo :=
  mkRepo (changelog amended_stack) [] (obsstore amended_stack) [] ∅ None
    (3, p2) false unfinished dirty false None false true false "".

(** The stack [A], [B] with the working directory on [A], on which the
    active bookmark [feature] and the bookmark [old.preamend] sit. *)
Definition bookmarked_stack : repo :=
  mkRepo [cs "P" nullrev Public; cs "A" 0 Draft; cs "B" 1 Draft] [] [] []
    (<["feature" := "A"]> (<["old.preamend" := "A"]> ∅)) (Some "feature")
    (1, nullrev) false None false false None false true false "".

(** A rebase that fails half-way, having copied its first changeset. *)
Definition broken_rebase (o : rebaseopts) : hostfn unit :=
  fun r =>
    (inr (HostError "rebase"),
     fst (fold_left (rebase_one (default nullrev (ro_dest o)))
            (firstn 1 (ro_rev o)) (r, []))).

End MoreScenarios.

(** ** p4fastimport/p4.py: the parsers, the caches and the file logs *)
Module P4Parsing.

(** What these functions raise. *)
Inductive err : Type :=
| KeyError (key : pyobj)
| ValueError
| TypeError
| AttributeError
| P4Exception
| LoadError (e : P4.pyexn).       (* an exception of [marshal.load] let through *)

Definition ebind {A B} (x : A + err) (f : A -> B + err) : B + err :=
  match x with
  | inl a => f a
  | inr e => inr e
  end.

(** [d[key]] and [d.get(key)] on the pairs of a dictionary. *)
Fixpoint assoc (key : string) (d : list (string * pyobj)) : option pyobj :=
  match d with
  | [] => None
  | (k, v) :: d' => if String.eqb k key then Some v else assoc key d'
  end.

(** [o[key]] for a string key. *)
Definition subscript (o : pyobj) (key : string) : pyobj + err :=
  match o with
  | PyDict d =>
      match assoc key d with
      | Some v => inl v
      | None => inr (KeyError (PyStr key))
      end
  | _ => inr TypeError
  end.

(** [o.get(key)]. *)
Definition get (o : pyobj) (key : string) : pyobj + err :=
  match o with
  | PyDict d => inl (default PyNone (assoc key d))
  | _ => inr AttributeError
  end.

(** [o in l] for a list of strings. *)
Definition py_in_strs (o : pyobj) (l : list string) : bool :=
  match o with
  | PyStr s => str_in s l
  | _ => false
  end.

(** *** [P4Changelist.load]

    The description of a changelist as [p4 -G describe] gives it: a
    dictionary from field names to strings. *)

(** ['<name>%d' % i]. *)
Definition field (name : string) (i : nat) : string := name ++ pretty i.

Record parsed : Type := mkParsed {
  p_files : gmap string P4.fileinfo;
  p_desc : string;
  p_user : string;
  p_time : Z
}.

Definition getitem (info : gmap string string) (k : string) : string + err :=
  match info !! k with
  | Some v => inl v
  | None => inr (KeyError (PyStr k))
  end.

Section Load.

(** [int(s)] of the interpreter, on a string; [None] is its
    [ValueError]. *)
Variable int : string -> option Z.

Definition to_int (s : string) : Z + err :=
  match int s with
  | Some z => inl z
  | None => inr ValueError
  end.

(** The [while True] loop of [load], at index [i] with the files read so
    far; [None] when [fuel] passes do not reach the [break]. *)
Fixpoint load_loop (fuel : nat) (info : gmap string string) (i : nat)
    (files : gmap string P4.fileinfo) : option (gmap string P4.fileinfo + err) :=
  match fuel with
  | O => None
  | S k =>
      let fidx := field "depotFile" i in
      let aidx := field "action" i in
      let ridx := field "rev" i in
      match info !! fidx with
      | None => Some (inl files)
      | Some fname =>
          match ebind (getitem info ridx) to_int with
          | inr e => Some (inr e)
          | inl rev =>
              match getitem info aidx with
              | inr e => Some (inr e)
              | inl action =>
                  load_loop k info (S i) (<[fname := P4.mkFileinfo rev action]> files)
              end
          end
      end
  end.

(** [load], given what [parse_cl] returned.  A dictionary of [n] entries
    cannot hold [depotFile0] ... [depotFile<n>], so [n + 1] passes reach
    the [break]. *)
Definition load (info : gmap string string) : option (parsed + err) :=
  match load_loop (S (size info)) info 0 ∅ with
  | None => None
  | Some (inr e) => Some (inr e)
  | Some (inl files) =>
      Some (ebind (getitem info "desc") (fun desc =>
            ebind (getitem info "user") (fun user =>
            ebind (ebind (getitem info "time") to_int) (fun time =>
            inl (mkParsed files desc user time)))))
  end.

End Load.

(** [rev(fname)]. *)
Definition rev (p : parsed) (fname : string) : Z + err :=
  match p_files p !! fname with
  | Some fi => inl (P4.fi_rev fi)
  | None => inr (KeyError (PyStr fname))
  end.

(** The number of the first missing [depotFile<i>] field. *)
Definition nfiles (info : gmap string string) : nat :=
  match list_find (fun i => info !! field "depotFile" i = None)
          (seq 0 (S (size info))) with
  | Some (_, n) => n
  | None => S (size info)
  end.

(** The file entries [0 .. n-1] given by three functions of the index,
    latest first. *)
Definition entries (names : nat -> string) (revs : nat -> Z)
    (actions : nat -> string) (n : nat) : list (string * P4.fileinfo) :=
  List.rev (map (fun i => (names i, P4.mkFileinfo (revs i) (actions i))) (seq 0 n)).

(** *** [P4Filelog] *)

(** One entry of [parse_fstat]. *)
Record fstat : Type := mkFstat {
  fs_depotFile : string;
  fs_action : pyobj;
  fs_type : pyobj;
  fs_rev : pyobj
}.

Record P4Filelog : Type := mkP4Filelog {
  _depotfile : string;
  _data : gmap Z fstat
}.

Definition depotfile (fl : P4Filelog) : string := _depotfile fl.

(** [revisions]: [sorted(self._data.keys())]. *)
Definition revisions (fl : P4Filelog) : list Z :=
  sorted_by Z.leb (map fst (map_to_list (_data fl))).

(** [self._data[clnum]]. *)
Definition data_at (fl : P4Filelog) (clnum : Z) : fstat + err :=
  match _data fl !! clnum with
  | Some s => inl s
  | None => inr (KeyError (PyInt clnum))
  end.

(** [isdeleted(clnum)]. *)
Definition isdeleted (fl : P4Filelog) (clnum : Z) : bool + err :=
  ebind (data_at fl clnum) (fun s =>
    inl (py_in_strs (fs_action s) ["move/delete"; "delete"])).

(** *** [config] and its cache *)

Section Config.

(** What the [n]-th run of [p4 -ztag -G info] in this process
    unmarshals to. *)
Variable p4_info : nat -> pyobj + P4.pyexn.

(** The module global [_config] and the number of runs of [p4 info] so
    far. *)
Record cfgstate : Type := mkCfg {
  _config : pyobj;
  info_runs : nat
}.

(** [parse_info()]. *)
Definition parse_info (st : cfgstate) : (pyobj + err) * cfgstate :=
  (match p4_info (info_runs st) with
   | inl o => inl o
   | inr e => inr (LoadError e)
   end,
   mkCfg (_config st) (S (info_runs st))).

(** [config(key)]. *)
Definition config (key : string) (st : cfgstate) : (pyobj + err) * cfgstate :=
  match _config st with
  | PyNone =>
      match parse_info st with
      | (inl o, st') => (subscript o key, mkCfg o (info_runs st'))
      | (inr e, st') => (inr e, st')
      end
  | c => (subscript c key, st)
  end.

(** A sequence of calls of [config], with their outcomes. *)
Fixpoint configs (keys : list string) (st : cfgstate)
  : list (pyobj + err) * cfgstate :=
  match keys with
  | [] => ([], st)
  | k :: keys' =>
      let '(x, st') := config k st in
      let '(xs, st'') := configs keys' st' in
      (x :: xs, st'')
  end.

End Config.

(** *** [parse_fstat] and [parse_filelogs] *)

(** The module global [_filelogs], a [defaultdict(dict)]. *)
Abbreviation filelogs := (gmap string (gmap Z fstat)).

Section Filelogs.

(** The stream that [p4 -G fstat -e <clnum> ...] writes. *)
Variable p4_fstat : Z -> P4.file.

(** [for d in loaditer(stdout)]: the records, and the exception that
    ended the loop, if any.  A stream of [n] items is exhausted by
    [n + 1] resumptions. *)
Definition records (f : P4.file) : list pyobj * option P4.pyexn :=
  match P4.iterate (S (length f)) (P4.loaditer f) with
  | Some (ds, e, _) => (ds, e)
  | None => ([], None)
  end.

(** The body of the loop of [parse_fstat] for one record, with the
    filter [lambda f: f['depotFile'] in filelist] of [parse_filelogs]:
    the record is skipped, or an entry is yielded, or something is
    raised. *)
Definition fstat_of (filelist : list string) (d : pyobj) : option fstat + err :=
  ebind (get d "depotFile") (fun name =>
    match name with
    | PyStr s =>
        if truthy name && str_in s filelist then
          ebind (subscript d "headAction") (fun a =>
          ebind (subscript d "headType") (fun t =>
          ebind (subscript d "headRev") (fun r =>
          inl (Some (mkFstat s a t r)))))
        else inl None
    | _ => inl None
    end).

(** What the generator yields before it ends, and the [P4Exception] it
    ends with when anything was raised. *)
Fixpoint fstat_loop (filelist : list string) (ds : list pyobj)
  : list fstat * option err :=
  match ds with
  | [] => ([], None)
  | d :: ds' =>
      match fstat_of filelist d with
      | inr _ => ([], Some P4Exception)
      | inl None => fstat_loop filelist ds'
      | inl (Some s) =>
          let '(out, e) := fstat_loop filelist ds' in (s :: out, e)
      end
  end.

Definition parse_fstat (clnum : Z) (filelist : list string)
  : list fstat * option err :=
  let '(ds, e) := records (p4_fstat clnum) in
  let '(out, e') := fstat_loop filelist ds in
  (out,
   match e' with
   | Some x => Some x
   | None => match e with Some _ => Some P4Exception | None => None end
   end).

(** [_filelogs[fstat['depotFile']][cl.cl] = fstat]. *)
Definition store (clnum : Z) (st : filelogs) (s : fstat) : filelogs :=
  <[fs_depotFile s := <[clnum := s]> (default ∅ (st !! fs_depotFile s))]> st.

(** The first loop of [parse_filelogs]. *)
Fixpoint filelogs_loop (changelists : list P4.P4Changelist)
    (filelist : list string) (st : filelogs) : option err * filelogs :=
  match changelists with
  | [] => (None, st)
  | c :: rest =>
      let '(fstats, e) := parse_fstat (P4.cl c) filelist in
      let st' := fold_left (store (P4.cl c)) fstats st in
      match e with
      | Some x => (Some x, st')
      | None => filelogs_loop rest filelist st'
      end
  end.

(** [parse_filelogs(changelists, filelist)], run to its end: the file
    logs it yields, or what it raises, and the cache it leaves. *)
Definition parse_filelogs (changelists : list P4.P4Changelist)
    (filelist : list string) (st : filelogs)
  : (list P4Filelog + err) * filelogs :=
  match filelogs_loop changelists filelist st with
  | (Some e, st') => (inr e, st')
  | (None, st') =>
      (inl (map (fun kv => mkP4Filelog (fst kv) (snd kv)) (map_to_list st')), st')
  end.

End Filelogs.

(** The cache [st'] extends the cache [st] through calls for the
    changelists [cls] and the files [filelist]: every file and every
    revision of [st] is still there, the revisions of other changelists
    are untouched, and the new files are among [filelist]. *)
Definition grows (cls : list Z) (filelist : list string) (st st' : filelogs) : Prop :=
  (forall f log, st !! f = Some log ->
     exists log', st' !! f = Some log'
       /\ (forall c, is_Some (log !! c) -> is_Some (log' !! c))
       /\ (forall c, ~ In c cls -> log' !! c = log !! c))
  /\ (forall f, is_Some (st' !! f) -> is_Some (st !! f) \/ In f filelist).

(** *** [parse_client] *)

(** The characters [str.split()] splits at. *)
Definition is_space (c : ascii) : bool :=
  existsb (Nat.eqb (nat_of_ascii c)) [9; 10; 11; 12; 13; 32]%nat.

(** [s.split()]: [word] is the word being read, if any. *)
Fixpoint split_loop (s : string) (word : option string) : list string :=
  match s with
  | EmptyString => match word with Some w => [w] | None => [] end
  | String c s' =>
      if is_space c then
        match word with
        | Some w => w :: split_loop s' None
        | None => split_loop s' None
        end
      else split_loop s' (Some (default "" word ++ String c "")%string)
  end.

Definition split (s : string) : list string := split_loop s None.

(** [s.lstrip(c)]. *)
Fixpoint lstrip (c : ascii) (s : string) : string :=
  match s with
  | EmptyString => EmptyString
  | String c' s' => if Ascii.eqb c' c then lstrip c s' else s
  end.

(** [s.find(c)]. *)
Fixpoint find (c : ascii) (s : string) : Z :=
  match s with
  | EmptyString => -1
  | String c' s' =>
      if Ascii.eqb c' c then 0
      else let k := find c s' in if k <? 0 then -1 else k + 1
  end.

(** [s[n:]] for [0 <= n]. *)
Fixpoint slice_from (n : nat) (s : string) : string :=
  match n, s with
  | O, _ => s
  | S n', String _ s' => slice_from n' s'
  | S _, EmptyString => EmptyString
  end.

(** A word: not empty, and without white space. *)
Definition word (s : string) : Prop :=
  s <> "" /\ forall c, In c (list_ascii_of_string s) -> is_space c = false.

(** Without slash. *)
Definition no_slash (s : string) : Prop :=
  forall c, In c (list_ascii_of_string s) -> Ascii.eqb c "/" = false.

(** The body of the loop for one [View] line. *)
Definition parse_view (line : pyobj) : (string * string) + err :=
  match line with
  | PyStr s =>
      match split s with
      | [sview; cview] =>
          let cview := lstrip "/" cview in
          let cview := slice_from (Z.to_nat (find "/" cview + 1)) cview in
          inl (sview, cview)
      | _ => inr ValueError
      end
  | _ => inr AttributeError
  end.

Fixpoint client_loop (items : list (string * pyobj)) (views : gmap string string)
  : gmap string string + err :=
  match items with
  | [] => inl views
  | (client, value) :: rest =>
      if String.prefix "View" client then
        match parse_view value with
        | inl (sview, cview) => client_loop rest (<[sview := cview]> views)
        | inr e => inr e
        end
      else client_loop rest views
  end.

(** [parse_client], given what [marshal.load] did on the output of
    [p4 -G client -o]. *)
Definition parse_client (clientspec : pyobj + P4.pyexn) : gmap string string + err :=
  match clientspec with
  | inr _ => inr P4Exception
  | inl (PyDict items) => client_loop items ∅
  | inl (PyStr _) => inl ∅
  | inl _ => inr TypeError
  end.

End P4Parsing.

(** ** Concrete descriptions *)
Module P4Scenarios.
Import P4Parsing.

(** A stand-in for [int()] on strings of decimal digits. *)
Fixpoint digits (s : string) (acc : Z) : option Z :=
  match s with
  | EmptyString => Some acc
  | String c s' =>
      let n := nat_of_ascii c in
      if ((48 <=? n) && (n <=? 57))%nat
      then digits s' (10 * acc + Z.of_nat (n - 48))
      else None
  end.

Definition int_digits (s : string) : option Z :=
  match s with
  | EmptyString => None
  | _ => digits s 0
  end.

(** A changelist of two files; a stray entry numbered 3 follows the
    gap. *)
Definition describe : gmap string string :=
  list_to_map
    [("depotFile0", "//depot/a"); ("rev0", "3"); ("action0", "edit");
     ("depotFile1", "//depot/b"); ("rev1", "1"); ("action1", "add");
     ("depotFile3", "//depot/d"); ("rev3", "9"); ("action3", "delete");
     ("desc", "fix"); ("user", "alice"); ("time", "1500000000")].

(** The second file has no revision. *)
Definition describe_norev : gmap string string :=
  list_to_map
    [("depotFile0", "//depot/a"); ("rev0", "3"); ("action0", "edit");
     ("depotFile1", "//depot/b"); ("action1", "add");
     ("desc", "fix"); ("user", "alice"); ("time", "1500000000")].

Definition names01 (i : nat) : string :=
  match i with O => "//depot/a" | _ => "//depot/b" end.
Definition revs01 (i : nat) : Z := match i with O => 3 | _ => 1 end.
Definition actions01 (i : nat) : string :=
  match i with O => "edit" | _ => "add" end.

(** [p4 info] fails the first time and answers afterwards. *)
Definition info_runs01 (n : nat) : pyobj + P4.pyexn :=
  match n with
  | O => inr P4.EOFError
  | _ => inl (PyDict [("clientName", PyStr "ws"); ("serverVersion", PyStr "2017.1")])
  end.

(** [p4 fstat] for changelist 7 lists two files, for every other one
    none. *)
Definition fstat_stream (clnum : Z) : P4.file :=
  if clnum =? 7 then
    [P4.Loaded (PyDict [("depotFile", PyStr "//depot/a"); ("headAction", PyStr "edit");
                        ("headType", PyStr "text"); ("headRev", PyStr "2")]);
     P4.Loaded (PyDict [("depotFile", PyStr "//depot/b"); ("headAction", PyStr "add");
                        ("headType", PyStr "xtext"); ("headRev", PyStr "1")])]
  else [].

(** The cache after an earlier call that saw [//depot/old] in
    changelist 5. *)
Definition old_cache : filelogs :=
  {[ "//depot/old" :=
       {[ 5 := mkFstat "//depot/old" (PyStr "edit") (PyStr "text") (PyStr "4") ]} ]}.

(** A file changed in changelists 7 and 5, deleted in 7. *)
Definition two_revisions : P4Filelog :=
  mkP4Filelog "//depot/a"
    (<[7 := mkFstat "//depot/a" (PyStr "delete") (PyStr "text") (PyStr "2")]>
       (<[5 := mkFstat "//depot/a" (PyStr "add") (PyStr "text") (PyStr "1")]> ∅)).

End P4Scenarios.

(** ** hgext3rd/fbamend.py: [_hideopts] and [unamend] *)
Module FbamendCommands.
Import Fbamend.

(** *** [_hideopts] *)

(** One option of a command entry: short name, long name, default and
    help text. *)
Record cmdopt : Type := mkOpt {
  opt_short : string;
  opt_long : string;
  opt_default : pyobj;
  opt_help : string
}.

(** [list(enumerate(l))]. *)
Definition enumerate {A} (l : list A) : list (nat * A) :=
  combine (seq 0 (length l)) l.

(** [del l[i]]; [None] is the [IndexError] of an index out of range. *)
Definition del_at {A} (i : nat) (l : list A) : option (list A) :=
  if (i <? length l)%nat then Some (delete i l) else None.

(** The loop of [_hideopts] over the pairs still to visit; [l] is the
    list [entry[1]] as the deletions have left it. *)
Fixpoint hideopts_loop (todo : list (nat * cmdopt)) (opts : list string)
    (l : list cmdopt) : option (list cmdopt) :=
  match todo with
  | [] => Some l
  | (i, opt) :: rest =>
      if str_in (opt_long opt) opts then
        match del_at i l with
        | Some l' => hideopts_loop rest opts l'
        | None => None
        end
      else hideopts_loop rest opts l
  end.

(** [_hideopts(entry, opts)], as what it leaves in [entry[1]]. *)
Definition _hideopts (entry1 : list cmdopt) (opts : list string)
  : option (list cmdopt) :=
  hideopts_loop (List.rev (enumerate entry1)) opts entry1.

(** *** [unamend] *)

(** What [unamend] needs of the host beyond [Host]: whether the inhibit
    extension is enabled, its [_inhibitmarkers], the comparison of the
    manifest of the precursor with the one of the working directory,
    and the rebuilding of the dirstate on the precursor. *)
Class UnamendHost : Type := {
  extensions_find_inhibit : repo -> bool;
  inhibit_inhibitmarkers : list node -> hostfn unit;
  manifest_diff : Z -> hostfn unit;
  dirstate_rebuild : node -> hostfn unit
}.

(** A call of the host that is not recorded in the log. *)
Definition hostcall {A} (f : hostfn A) : M A := fun w =>
  let '(res, r') := f (w_repo w) in (res, set_repo r' w).

(** [obsolete.precursormarkers(ctx)]: the markers that name the node
    among their successors. *)
Definition precursormarkers (r : repo) (n : node) : list (node * list node) :=
  List.filter (fun m => existsb (String.eqb n) (snd m)) (obsstore r).

(** [unfi[node]]. *)
Definition unfi_lookup (r : repo) (n : node) : Z + exn :=
  match revof r n with
  | Some rev => inl rev
  | None => inr (RepoLookupError n)
  end.

Section Unamend.
Context `{Host} `{UnamendHost}.

Definition unamend : M unit :=
  r ← getrepo;
  if negb (extensions_find_inhibit r) then
    raise (Abort "unamend requires inhibit extension to be enabled"
             (Some "please add inhibit to the list of enabled extensions"))
  else
    let curctx := dot r in
    let markers := precursormarkers r (nodeof r curctx) in
    if negb (length markers =? 1)%nat then
      raise (Abort ("changeset must have one precursor, found "
                    ++ pretty (length markers) ++ " precursors") None)
    else
      let precnode := List.hd nullid (map fst markers) in
      precctx ← lift (unfi_lookup r precnode);
      if nonempty (children r curctx) then
        raise (Abort "cannot unamend in the middle of a stack" None)
      else
        with_locks (
          let ctxbookmarks := nodebookmarks r (nodeof r curctx) in
          hostcall (inhibit_inhibitmarkers [precnode]) ;;
          hostcall (manifest_diff precctx) ;;
          tr ← repo_transaction "unamend";
          hostcall (dirstate_rebuild precnode) ;;
          for_each ctxbookmarks (fun book =>
            modify (fun r' => set_bookmarks (<[book := precnode]> (_bookmarks r')) r')) ;;
          tr_close tr ;;
          call (call_createmarkers [(nodeof r curctx, [])])
            (obsolete_createmarkers [(nodeof r curctx, [])])).

End Unamend.

End FbamendCommands.

(** A host for [unamend] on the concrete repositories. *)
Module UnamendScenarios.
Import Fbamend Scenarios FbamendCommands.

#[export] Instance simple_unamend_host : UnamendHost := {|
  extensions_find_inhibit := fun r => true;
  inhibit_inhibitmarkers := fun nodes r =>
    (inl tt, set_obsinhibit (_obsinhibit r ++ nodes) r);
  manifest_diff := fun rev r => (inl tt, r);
  dirstate_rebuild := fun n r =>
    match revof r n with
    | Some rev => simple_update rev r
    | None => (inr (RepoLookupError n), r)
    end
|}.

(** [A] amended into [A2]; the bookmark [feature] is on [A2], where the
    working directory is. *)
Definition amended_once : repo :=
  mkRepo [cs "P" nullrev Public; cs "A" 0 Draft; cs "A2" 0 Draft] [] [("A", ["A2"])] []
    (<["feature" := "A2"]> ∅) (Some "feature") (2, nullrev) false None false
    false None false true true "".

(** Some options of a command. *)
Definition some_opts : list cmdopt :=
  [mkOpt "r" "rev" PyNone "revisions"; mkOpt "" "keep" (PyInt 0) "keep";
   mkOpt "d" "dest" PyNone "destination"; mkOpt "" "tool" (PyStr "") "merge tool"].

End UnamendScenarios.

(* ===================================================================== *)
(** * Properties *)
(* ===================================================================== *)

Lemma str_in_In x l : str_in x l = true <-> In x l.
Proof.
  unfold str_in. rewrite existsb_exists. split.
  - intros (y & Hy & E). apply String.eqb_eq in E. now subst.
  - intros H. exists x. split; [assumption | apply String.eqb_refl].
Qed.

Lemma str_in_false x l : str_in x l = false <-> ~ In x l.
Proof.
  rewrite <- str_in_In. destruct (str_in x l); split; intros; congruence.
Qed.

(** ** Properties of [p4.py] *)
Module P4Spec.
Import P4.

(** More fuel never changes what a finished iteration returned. *)
Lemma iterate_more_fuel n m g r :
  iterate n g = Some r -> (n <= m)%nat -> iterate m g = Some r.
Proof.
  revert m g r. induction n as [|n IH]; intros m g r H Hle; [discriminate|].
  destruct m as [|m]; [lia|]. simpl in *.
  destruct (loaditer_next g) as [[d| |e] g']; try assumption.
  destruct (iterate n g') as [[[ds e] g'']|] eqn:E; [|discriminate].
  rewrite (IH m g' _ E) by lia. assumption.
Qed.

(** A finished generator stays finished. *)
Lemma finished_stays n : iterate (S n) Finished = Some ([], None, Finished).
Proof. reflexivity. Qed.

(** The loop over truthy records followed by whatever [k] does next. *)
Lemma iterate_records rs f n ds e g :
  Forall (fun d => truthy d = true) rs ->
  iterate n (Suspended f) = Some (ds, e, g) ->
  iterate (length rs + n) (Suspended (map Loaded rs ++ f)) = Some (rs ++ ds, e, g).
Proof.
  intros Hrs Hk. induction Hrs as [|d rs Hd _ IH]; [exact Hk|].
  cbn [length map app Nat.add iterate loaditer_next marshal_load].
  rewrite Hd. cbn [negb]. rewrite IH. reflexivity.
Qed.

(** C9: a stream of (truthy) records followed by end-of-stream or by a
    falsy record makes [loaditer] yield exactly those records, in order,
    and finish without an exception; once finished it yields nothing
    more, whatever is left in the stream. *)
Theorem loaditer_yields_records (rs : list pyobj) (tail : file) (n : nat) :
  Forall (fun d => truthy d = true) rs ->
  (tail = [] \/ exists t rest, tail = Loaded t :: rest /\ truthy t = false) ->
  (length rs < n)%nat ->
  iterate n (loaditer (map Loaded rs ++ tail)) = Some (rs, None, Finished)
  /\ loaditer_next Finished = (StopIteration, Finished).
Proof.
  intros Hrs Htail Hn. split; [|reflexivity].
  apply iterate_more_fuel with (n := (length rs + 1)%nat); [|lia].
  rewrite <- (app_nil_r rs) at 3. unfold loaditer.
  apply iterate_records; [assumption|].
  destruct Htail as [-> | (t & rest & -> & Ht)]; cbn; [reflexivity|].
  now rewrite Ht.
Qed.

(** Two records, an empty dictionary, then something more. *)
Lemma loaditer_yields_records_witness :
  iterate 5 (loaditer (map Loaded [PyDict [("code", PyStr "stat")]; PyDict [("change", PyStr "7")]]
                        ++ [Loaded (PyDict []); Loaded (PyInt 3)]))
  = Some ([PyDict [("code", PyStr "stat")]; PyDict [("change", PyStr "7")]], None, Finished)
  /\ loaditer_next Finished = (StopIteration, Finished).
Proof.
  apply loaditer_yields_records.
  - repeat constructor.
  - right. exists (PyDict []), [Loaded (PyInt 3)]. split; reflexivity.
  - simpl. lia.
Defined.

(** Membership in one of the three result lists. *)
Lemma in_with_action acts d f :
  In f (with_action acts d) <->
  exists info, In (f, info) d /\ In (fi_action info) acts.
Proof.
  unfold with_action. rewrite in_map_iff. split.
  - intros ([f' info] & <- & Hin). apply filter_In in Hin as [Hin Hact].
    exists info. split; [assumption|]. now apply str_in_In.
  - intros (info & Hin & Hact). exists (f, info). split; [reflexivity|].
    apply filter_In. split; [assumption|]. now apply str_in_In.
Qed.

(** The loop, started from any accumulators. *)
Lemma files_loop_spec d a m r :
  files_loop d a m r =
  if forallb supportedb d
  then inl (a ++ with_action ACTION_ADD d, m ++ with_action ACTION_EDIT d,
            r ++ with_action ACTION_DELETE d)
  else inr AssertionError.
Proof.
  revert a m r. induction d as [|[f info] d IH]; intros a m r.
  - cbn. now rewrite !app_nil_r.
  - cbn [files_loop forallb]. unfold supportedb at 1. cbn [snd].
    unfold with_action. cbn [List.filter snd].
    unfold SUPPORTED_ACTIONS, str_in. rewrite !existsb_app.
    fold (str_in (fi_action info) ACTION_EDIT) (str_in (fi_action info) ACTION_ADD)
         (str_in (fi_action info) ACTION_DELETE).
    destruct (str_in (fi_action info) ACTION_EDIT) eqn:Ee.
    + assert (str_in (fi_action info) ACTION_ADD = false) as ->.
      { apply str_in_false. intros H. apply str_in_In in Ee.
        cbn in *. intuition congruence. }
      assert (str_in (fi_action info) ACTION_DELETE = false) as ->.
      { apply str_in_false. intros H. apply str_in_In in Ee.
        cbn in *. intuition congruence. }
      cbn. rewrite IH. fold (with_action ACTION_ADD d) (with_action ACTION_EDIT d)
        (with_action ACTION_DELETE d). unfold with_action. now rewrite <- app_assoc.
    + destruct (str_in (fi_action info) ACTION_ADD) eqn:Ea.
      * assert (str_in (fi_action info) ACTION_DELETE = false) as ->.
        { apply str_in_false. intros H. apply str_in_In in Ea.
          cbn in *. intuition congruence. }
        cbn. rewrite IH. unfold with_action. now rewrite <- app_assoc.
      * destruct (str_in (fi_action info) ACTION_DELETE) eqn:Ed.
        -- cbn. rewrite IH. unfold with_action. now rewrite <- app_assoc.
        -- reflexivity.
Qed.

(** C8: when every action is a supported one, [files] returns the files
    split into added ([add], [branch], [move/add]), modified ([edit],
    [integrate]) and removed ([delete], [move/delete]); as soon as one
    file has any other action the assertion fails. *)
Theorem files_classification (d : filesdict) :
  (Forall supported d ->
   exists a m r, files d = inl (a, m, r)
     /\ (forall f, In f m <-> exists i, In (f, i) d /\
            (fi_action i = "edit" \/ fi_action i = "integrate"))
     /\ (forall f, In f a <-> exists i, In (f, i) d /\
            (fi_action i = "add" \/ fi_action i = "branch" \/ fi_action i = "move/add"))
     /\ (forall f, In f r <-> exists i, In (f, i) d /\
            (fi_action i = "delete" \/ fi_action i = "move/delete")))
  /\ (~ Forall supported d -> files d = inr AssertionError).
Proof.
  unfold files. rewrite files_loop_spec. cbn [app].
  assert (Hb : forallb supportedb d = true <-> Forall supported d).
  { rewrite forallb_forall, List.Forall_forall. unfold supportedb, supported.
    split; intros H e He; apply str_in_In; auto. }
  split.
  - intros Hs. apply Hb in Hs. rewrite Hs.
    exists (with_action ACTION_ADD d), (with_action ACTION_EDIT d),
      (with_action ACTION_DELETE d).
    split; [reflexivity|].
    repeat split; intros H; try (apply in_with_action in H as (i & Hi & Ha);
      exists i; split; [assumption|]; cbn in Ha; intuition congruence);
      destruct H as (i & Hi & Ha); apply in_with_action; exists i;
      (split; [assumption|]); cbn; intuition congruence.
  - intros Hn. destruct (forallb supportedb d) eqn:E; [|reflexivity].
    exfalso. apply Hn, Hb. reflexivity.
Qed.

(** A changelist of four files, and one with an unknown action. *)
Lemma files_classification_witness :
  files [("//depot/a", mkFileinfo 1 "edit"); ("//depot/b", mkFileinfo 2 "move/add");
         ("//depot/c", mkFileinfo 1 "delete"); ("//depot/d", mkFileinfo 4 "branch")]
  = inl (["//depot/b"; "//depot/d"], ["//depot/a"], ["//depot/c"])
  /\ files [("//depot/a", mkFileinfo 1 "edit"); ("//depot/e", mkFileinfo 2 "purge")]
     = inr AssertionError.
Proof.
  split.
  - destruct (proj1 (files_classification
      [("//depot/a", mkFileinfo 1 "edit"); ("//depot/b", mkFileinfo 2 "move/add");
       ("//depot/c", mkFileinfo 1 "delete"); ("//depot/d", mkFileinfo 4 "branch")]))
      as (a & m & r & E & _).
    + repeat constructor; unfold supported; cbn; tauto.
    + reflexivity.
  - apply (proj2 (files_classification
      [("//depot/a", mkFileinfo 1 "edit"); ("//depot/e", mkFileinfo 2 "purge")])).
    intros H. inversion H as [|? ? _ H']. inversion H' as [|? ? H'' _].
    unfold supported in H''. cbn in H''. intuition discriminate.
Defined.

(** C10: [__cmp__] looks at [cl] only and [__hash__] at the pair
    [(origcl, cl)]; two changelists with the same [cl] and different
    [origcl] are equal for [==] and have different hashes. *)
Theorem changelist_eq_not_hash :
  (forall a a' b b', cl a = cl a' -> cl b = cl b' -> __cmp__ a b = __cmp__ a' b')
  /\ (forall a b, py_eq a b = true <-> cl a = cl b)
  /\ (forall a b, origcl a = origcl b -> cl a = cl b -> __hash__ a = __hash__ b)
  /\ (exists a b, cl a = cl b /\ origcl a <> origcl b /\
                  py_eq a b = true /\ __hash__ a <> __hash__ b).
Proof.
  split; [|split; [|split]].
  - intros a a' b b' Ha Hb. unfold __cmp__. now rewrite Ha, Hb.
  - intros a b. unfold py_eq, __cmp__, bool_int.
    destruct (Z.ltb_spec (cl b) (cl a)), (Z.ltb_spec (cl a) (cl b));
      split; intros Heq; cbn in *; try discriminate; try reflexivity; lia.
  - intros a b Ho Hc. unfold __hash__. now rewrite Ho, Hc.
  - exists (mkP4Changelist 1 2), (mkP4Changelist 3 2).
    split; [reflexivity|]. split; [discriminate|]. split; [reflexivity|].
    vm_compute. discriminate.
Qed.

End P4Spec.

(** ** Properties of [fbamend.py] *)
Module FbamendSpec.
Import Fbamend Scenarios.

(** *** Lists, sorting, membership *)

Lemma inZ_In x l : inZ x l = true <-> In x l.
Proof.
  unfold inZ. rewrite existsb_exists. split.
  - intros (y & Hy & E). apply Z.eqb_eq in E. now subst.
  - intros Hin. exists x. split; [assumption | apply Z.eqb_refl].
Qed.

Lemma inZ_not_In x l : inZ x l = false <-> ~ In x l.
Proof.
  rewrite <- inZ_In. destruct (inZ x l); split; intros; congruence.
Qed.

Lemma nonempty_spec {A} (l : list A) : nonempty l = true <-> l <> [].
Proof. destruct l; cbn; split; intros; congruence. Qed.

Lemma nonempty_false {A} (l : list A) : nonempty l = false <-> l = [].
Proof. destruct l; cbn; split; intros; congruence. Qed.

Lemma insert_by_perm {A} (leb : A -> A -> bool) x l :
  Permutation (insert_by leb x l) (x :: l).
Proof.
  induction l as [|y l IH]; cbn; [reflexivity|].
  destruct (leb x y); [reflexivity|].
  rewrite IH. apply perm_swap.
Qed.

Lemma sorted_by_perm {A} (leb : A -> A -> bool) l :
  Permutation (sorted_by leb l) l.
Proof.
  induction l as [|x l IH]; cbn; [reflexivity|].
  rewrite insert_by_perm. now constructor.
Qed.

Lemma sorted_by_In {A} (leb : A -> A -> bool) l x :
  In x (sorted_by leb l) <-> In x l.
Proof.
  split; apply Permutation_in; [|symmetry]; apply sorted_by_perm.
Qed.

Lemma insert_by_sorted x l :
  StronglySorted Z.le l -> StronglySorted Z.le (insert_by Z.leb x l).
Proof.
  induction 1 as [|y l Hs IH Hall]; cbn.
  - repeat constructor.
  - destruct (Z.leb_spec x y).
    + constructor; [now constructor|].
      constructor; [assumption|].
      eapply List.Forall_impl; [|exact Hall]. cbn. intros; lia.
    + constructor; [assumption|].
      apply List.Forall_forall. intros z Hz.
      apply (Permutation_in _ (insert_by_perm Z.leb x l)) in Hz.
      destruct Hz as [<- | Hz]; [lia|].
      rewrite List.Forall_forall in Hall. now apply Hall.
Qed.

(** [sorted(...)] of revision numbers is ascending. *)
Lemma sorted_by_sorted l : StronglySorted Z.le (sorted_by Z.leb l).
Proof.
  induction l as [|x l IH]; cbn; [constructor|].
  now apply insert_by_sorted.
Qed.

(** *** The traversal of [_findrestacktargets] *)

Section Traversal.
Context `{Host}.
Variable r : repo.
Variable childrenof : gmap Z (list Z).
Variable base : Z.

#[local] Abbreviation body := (bfs_body r childrenof).
#[local] Abbreviation cost := (bfs_cost r childrenof).
#[local] Abbreviation universe := (Fbamend.universe childrenof base).
#[local] Abbreviation pending_in := (Fbamend.pending_in r childrenof).
#[local] Abbreviation reach := (Fbamend.reach r childrenof base).
#[local] Abbreviation invariant := (Fbamend.invariant r childrenof base).

(** The body of the loop on a revision seen before, and on a new one. *)
Lemma body_processed rev st :
  inZ rev (processed st) = true -> body rev st = st.
Proof. intros E. unfold bfs_body. now rewrite E. Qed.

Lemma body_unprocessed rev st :
  inZ rev (processed st) = false ->
  body rev st =
  mkBfs (queue st ++ pushes r childrenof rev)
    (targets st ++ (if is_target r childrenof rev then [rev] else []))
    (processed st ++ [rev]).
Proof.
  intros E. unfold bfs_body, pushes, is_target, kids, pkids. rewrite E.
  destruct (nonempty (allprecursors r rev) && negb (nonempty (allsuccessors r rev)));
    cbn [andb].
  - destruct (nonempty _); [now rewrite app_assoc | now rewrite !app_nil_r].
  - now rewrite !app_nil_r.
Qed.

Lemma universe_NoDup : NoDup universe.
Proof. apply NoDup_remove_dups. Qed.

Lemma in_universe x :
  In x universe <-> x = base \/ exists k, In x (dict_get childrenof k).
Proof.
  unfold Fbamend.universe.
  rewrite <- list_elem_of_In, elem_of_remove_dups, list_elem_of_In.
  cbn [In]. rewrite in_flat_map. split.
  - intros [E | ([k l] & Hkl & Hx)]; [left; congruence|]. right. exists k.
    apply list_elem_of_In, elem_of_map_to_list in Hkl.
    unfold dict_get. now rewrite Hkl.
  - intros [-> | (k & Hx)]; [now left|]. right. unfold dict_get in Hx.
    destruct (childrenof !! k) as [l|] eqn:E; [|contradiction].
    exists (k, l). split; [|exact Hx].
    now apply list_elem_of_In, elem_of_map_to_list.
Qed.

Lemma in_pkids x rev :
  In x (pkids r childrenof rev) <->
  exists p, In p (allprecursors r rev) /\ In x (dict_get childrenof p).
Proof.
  unfold pkids. rewrite in_flat_map. split; intros (p & Hp & Hx); exists p;
    (split; [assumption|]).
  - eapply Permutation_in; [apply set_iter_perm | exact Hx].
  - eapply Permutation_in; [symmetry; apply set_iter_perm | exact Hx].
Qed.

Lemma in_kids x rev : In x (kids childrenof rev) <-> In x (dict_get childrenof rev).
Proof. apply sorted_by_In. Qed.

Lemma pushes_universe rev x : In x (pushes r childrenof rev) -> In x universe.
Proof.
  unfold pushes. rewrite in_app_iff, in_universe. intros [Hx | Hx].
  - right. exists rev. now apply in_kids.
  - destruct (is_target r childrenof rev); [|contradiction].
    apply in_pkids in Hx as (p & _ & Hx). right. now exists p.
Qed.

Lemma length_pushes rev : (length (pushes r childrenof rev) <= cost rev)%nat.
Proof.
  unfold pushes, bfs_cost, kids. rewrite length_app.
  rewrite (Permutation_length (sorted_by_perm Z.leb _)).
  fold (pkids r childrenof rev).
  destruct (is_target r childrenof rev); cbn [length]; lia.
Qed.

Lemma inZ_snoc y l x : inZ y (l ++ [x]) = inZ y l || (y =? x).
Proof. unfold inZ. rewrite existsb_app. cbn. now rewrite orb_false_r. Qed.

Lemma pending_cons y l processed :
  pending_in (y :: l) processed =
  ((if inZ y processed then 0 else cost y) + pending_in l processed)%nat.
Proof.
  unfold Fbamend.pending_in. cbn [List.filter].
  destruct (inZ y processed); reflexivity.
Qed.

Lemma pending_other l processed x :
  ~ In x l -> pending_in l (processed ++ [x]) = pending_in l processed.
Proof.
  induction l as [|y l IH]; intros Hx; [reflexivity|].
  rewrite !pending_cons, inZ_snoc.
  assert (Hne : (y =? x) = false) by (apply Z.eqb_neq; intros ->; apply Hx; now left).
  rewrite Hne, orb_false_r, IH; [reflexivity|].
  intros Hin. apply Hx. now right.
Qed.

Lemma pending_visit l processed x :
  NoDup l -> In x l -> inZ x processed = false ->
  pending_in l processed = (cost x + pending_in l (processed ++ [x]))%nat.
Proof.
  induction 1 as [|y l Hy Hl IH]; intros Hin Hx; [contradiction|].
  rewrite list_elem_of_In in Hy. rewrite !pending_cons, inZ_snoc.
  destruct Hin as [-> | Hin].
  - rewrite Hx, Z.eqb_refl, (pending_other l processed x Hy). cbn. lia.
  - specialize (IH Hin Hx).
    assert (Hne : (y =? x) = false) by (apply Z.eqb_neq; intros ->; contradiction).
    rewrite Hne, orb_false_r. lia.
Qed.

(** With enough passes the loop runs until its queue is empty. *)
Lemma bfs_loop_finishes fuel st :
  (forall x, In x (queue st) -> In x universe) ->
  (length (queue st) + pending_in universe (processed st) < fuel)%nat ->
  exists st', bfs_loop fuel r childrenof st = Some st'.
Proof.
  revert st. induction fuel as [|k IH]; intros st Hq Hm; [lia|].
  cbn [bfs_loop]. destruct st as [q t p]. cbn [queue targets processed] in *.
  destruct q as [|rev rest]; [eauto|].
  destruct (inZ rev p) eqn:E.
  - rewrite body_processed by exact E. apply IH; cbn [queue processed] in *.
    + intros x Hx. apply Hq. now right.
    + cbn [length] in Hm. lia.
  - rewrite body_unprocessed by exact E. cbn [queue targets processed].
    apply IH; cbn [queue processed].
    + intros x Hx. apply in_app_iff in Hx as [Hx | Hx].
      * apply Hq. now right.
      * eapply pushes_universe; eauto.
    + rewrite length_app.
      pose proof (length_pushes rev).
      pose proof (pending_visit universe p rev universe_NoDup
                    (Hq rev (or_introl eq_refl)) E).
      cbn [length] in Hm. lia.
Qed.

Lemma pending_all l : pending_in l [] = list_sum (map cost l).
Proof.
  induction l as [|x l IH]; [reflexivity|].
  rewrite pending_cons, IH. reflexivity.
Qed.

Lemma invariant_start : invariant (mkBfs [base] [] []).
Proof.
  constructor; cbn.
  - constructor.
  - reflexivity.
  - contradiction.
  - intros x [<- | []]. constructor.
  - contradiction.
  - right. now left.
Qed.

Lemma invariant_step rev rest t p :
  invariant (mkBfs (rev :: rest) t p) ->
  invariant (body rev (mkBfs rest t p)).
Proof.
  intros [Hnd Ht Hp Hq Hc Hb]. cbn [queue targets processed] in *.
  destruct (inZ rev p) eqn:E.
  - rewrite body_processed by exact E. apply inZ_In in E.
    constructor; cbn [queue targets processed]; auto.
    + intros x Hx. apply Hq. now right.
    + intros x y Hx Hy. destruct (Hc x y Hx Hy) as [|[<-|]]; auto.
    + destruct Hb as [|[<-|]]; auto.
  - rewrite body_unprocessed by exact E. apply inZ_not_In in E.
    constructor; cbn [queue targets processed].
    + apply NoDup_app. split; [assumption|]. split.
      * intros x Hx Hx'. apply list_elem_of_In in Hx, Hx'.
        destruct Hx' as [-> | []]. contradiction.
      * apply NoDup_singleton.
    + rewrite List.filter_app, Ht. cbn.
      now destruct (is_target r childrenof rev).
    + intros x Hx. apply in_app_iff in Hx as [Hx | [<- | []]]; auto.
      apply Hq. now left.
    + intros x Hx. apply in_app_iff in Hx as [Hx | Hx].
      * apply Hq. now right.
      * apply reach_push with rev; [apply Hq; now left | assumption].
    + intros x y Hx Hy. rewrite !in_app_iff. cbn [In].
      apply in_app_iff in Hx as [Hx | [<- | []]].
      * destruct (Hc x y Hx Hy) as [|[<-|]]; auto.
      * auto.
    + rewrite !in_app_iff. cbn [In]. destruct Hb as [|[<-|]]; auto.
Qed.

Lemma bfs_loop_invariant fuel st st' :
  invariant st -> bfs_loop fuel r childrenof st = Some st' ->
  invariant st' /\ queue st' = [].
Proof.
  revert st. induction fuel as [|k IH]; intros st Hinv Hrun; [discriminate|].
  cbn [bfs_loop] in Hrun. destruct st as [q t p]. cbn [queue targets processed] in *.
  destruct q as [|rev rest].
  - injection Hrun as <-. now split.
  - eapply IH; [|exact Hrun]. now apply invariant_step.
Qed.

(** When the queue is empty, everything reachable has been visited. *)
Lemma reach_processed st x :
  invariant st -> queue st = [] -> reach x -> In x (processed st).
Proof.
  intros [_ _ _ _ Hc Hb] Hq. rewrite Hq in *. induction 1 as [|x y _ IH Hy].
  - destruct Hb as [|[]]; assumption.
  - destruct (Hc x y IH Hy) as [|[]]; assumption.
Qed.

(** The loop of [_findrestacktargets] finishes; it has then visited,
    once each, exactly the reachable revisions, and its targets are the
    visited revisions that pass the test, in the order of the visits. *)
Lemma bfs_loop_spec :
  exists visited,
    bfs_loop (bfs_fuel r childrenof base) r childrenof (mkBfs [base] [] [])
      = Some (mkBfs [] (List.filter (is_target r childrenof) visited) visited)
    /\ NoDup visited
    /\ forall x, In x visited <-> reach x.
Proof.
  destruct (bfs_loop_finishes (bfs_fuel r childrenof base) (mkBfs [base] [] []))
    as [st Hrun].
  - cbn. intros x [<- | []]. apply in_universe. now left.
  - cbn [queue processed length]. rewrite pending_all. unfold bfs_fuel.
    fold universe. lia.
  - destruct (bfs_loop_invariant _ _ _ invariant_start Hrun) as [Hinv Hq].
    exists (processed st). split; [|split].
    + rewrite Hrun. pose proof (inv_targets _ _ _ _ Hinv) as Ht.
      destruct st as [q t p]. cbn [queue targets processed] in *.
      now rewrite Hq, Ht.
    + apply Hinv.
    + intros x. split; [apply Hinv | now apply reach_processed].
Qed.

End Traversal.

(** *** The child relation of [_getchildrelationships] *)

Lemma in_set_add c x s : In c (set_add x s) <-> c = x \/ In c s.
Proof.
  unfold set_add. destruct (inZ x s) eqn:E.
  - apply inZ_In in E. split; [auto | intros [-> | ?]; auto].
  - rewrite in_app_iff. cbn. intuition.
Qed.

Lemma dict_get_insert (m : gmap Z (list Z)) k v p :
  dict_get (<[k := v]> m) p = if decide (k = p) then v else dict_get m p.
Proof.
  unfold dict_get. rewrite lookup_insert. now destruct (decide (k = p)).
Qed.

Lemma add_parents_spec rev ps (m : gmap Z (list Z)) p c :
  In c (dict_get
          (fold_left
             (fun children parent =>
                if negb (parent =? nullrev)
                then <[parent := set_add rev (dict_get children parent)]> children
                else children) ps m) p)
  <-> In c (dict_get m p) \/ (c = rev /\ In p ps /\ p <> nullrev).
Proof.
  revert m. induction ps as [|q ps IH]; intros m; cbn [fold_left In].
  - intuition.
  - rewrite IH. destruct (Z.eqb_spec q nullrev) as [E | E]; cbn [negb].
    + intuition congruence.
    + rewrite dict_get_insert. destruct (decide (q = p)) as [-> | Hne].
      * rewrite in_set_add. intuition.
      * intuition congruence.
Qed.

(** [childrenof[p]] holds the revisions among the descendants of [revs]
    that have [p] as a parent. *)
Lemma getchildrelationships_spec r revs p c :
  In c (dict_get (_getchildrelationships r revs) p) <->
  In c (descendants r revs) /\ In p (parentrevs r c) /\ p <> nullrev.
Proof.
  unfold _getchildrelationships.
  assert (G : forall l (m : gmap Z (list Z)),
    In c (dict_get
      (fold_left
         (fun children rev =>
            fold_left
              (fun children parent =>
                 if negb (parent =? nullrev)
                 then <[parent := set_add rev (dict_get children parent)]> children
                 else children)
              (parentrevs r rev) children) l m) p)
    <-> In c (dict_get m p) \/ (In c l /\ In p (parentrevs r c) /\ p <> nullrev)).
  { induction l as [|x l IH]; intros m; cbn [fold_left In].
    - intuition.
    - rewrite IH, add_parents_spec. intuition (subst; auto). }
  rewrite G. unfold dict_get at 1. rewrite lookup_empty. cbn. intuition.
Qed.

Section Targets.
Context `{Host}.
Variable r : repo.
Variable base : Z.

#[local] Abbreviation childrenof := (restack_children r base).

Lemma in_childrenof p c :
  In c (dict_get childrenof p) <-> child_from r base p c.
Proof. apply getchildrelationships_spec. Qed.

Lemma is_target_spec x :
  is_target r childrenof x = true <-> target_from r base x.
Proof.
  unfold is_target, target_from.
  rewrite !andb_true_iff, negb_true_iff, nonempty_spec, nonempty_false, nonempty_spec.
  assert (Hk : pkids r childrenof x <> [] <->
               exists p c, In p (allprecursors r x) /\ child_from r base p c).
  { split.
    - intros Hne. destruct (pkids r childrenof x) as [|c l] eqn:E; [congruence|].
      assert (Hc : In c (pkids r childrenof x)) by (rewrite E; now left).
      apply in_pkids in Hc as (p & Hp & Hc). exists p, c.
      split; [assumption | now apply in_childrenof].
    - intros (p & c & Hp & Hc) E.
      assert (Hin : In c (pkids r childrenof x)).
      { apply in_pkids. exists p. split; [assumption | now apply in_childrenof]. }
      rewrite E in Hin. contradiction. }
  rewrite Hk. tauto.
Qed.

Lemma in_pushes x y :
  In y (pushes r childrenof x) <->
  child_from r base x y \/
  (target_from r base x /\
   exists p, In p (allprecursors r x) /\ child_from r base p y).
Proof.
  unfold pushes. rewrite in_app_iff, in_kids, in_childrenof.
  destruct (is_target r childrenof x) eqn:E.
  - apply is_target_spec in E. rewrite in_pkids.
    split; (intros [Hc | Hp]; [now left | right]).
    + split; [assumption|]. destruct Hp as (p & Hp & Hc). exists p.
      split; [assumption | now apply in_childrenof].
    + destruct Hp as (_ & p & Hp & Hc). exists p.
      split; [assumption | now apply in_childrenof].
  - split; (intros [Hc | Hp]; [now left|]); [contradiction|].
    destruct Hp as (Ht & _). apply is_target_spec in Ht. congruence.
Qed.

Lemma reach_bfs_reach x : reach r childrenof base x <-> bfs_reach r base x.
Proof.
  split.
  - induction 1 as [|x y _ IH Hy]; [constructor|].
    apply in_pushes in Hy as [Hc | (Ht & p & Hp & Hc)].
    + now apply reach_child with x.
    + now apply reach_precursor_child with x p.
  - induction 1 as [|x c _ IH Hc|x p c _ IH Ht Hp Hc]; [constructor| |].
    + apply reach_push with x; [assumption|]. apply in_pushes. now left.
    + apply reach_push with x; [assumption|]. apply in_pushes. right. eauto.
Qed.

End Targets.

(** *** Bookmarks and inhibition markers *)

Lemma in_nodebookmarks r n b :
  In b (nodebookmarks r n) <-> _bookmarks r !! b = Some n.
Proof.
  unfold nodebookmarks. rewrite sorted_by_In, in_map_iff. split.
  - intros ([b' n'] & <- & Hin). apply filter_In in Hin as [Hin E].
    cbn in *. apply String.eqb_eq in E. subst n'.
    now apply list_elem_of_In, elem_of_map_to_list in Hin.
  - intros Hb. exists (b, n). split; [reflexivity|]. apply filter_In. split.
    + now apply list_elem_of_In, elem_of_map_to_list.
    + apply String.eqb_refl.
Qed.

Lemma pop_preamend_cons x l (m : gmap string node) :
  pop_preamend (x :: l) m =
  pop_preamend l (if endswith x ".preamend" then delete x m else m).
Proof. reflexivity. Qed.

Lemma pop_preamend_only_deletes l (m : gmap string node) b v :
  pop_preamend l m !! b = Some v -> m !! b = Some v.
Proof.
  revert m. induction l as [|x l IH]; intros m; [auto|].
  rewrite pop_preamend_cons. intros Hl. apply IH in Hl.
  destruct (endswith x ".preamend"); [|assumption].
  rewrite lookup_delete in Hl. now destruct (decide (x = b)).
Qed.

Lemma pop_preamend_deletes l (m : gmap string node) b :
  In b l -> endswith b ".preamend" = true -> pop_preamend l m !! b = None.
Proof.
  revert m. induction l as [|x l IH]; intros m Hin He; [contradiction|].
  rewrite pop_preamend_cons. destruct Hin as [-> | Hin]; [|now apply IH].
  rewrite He.
  destruct (pop_preamend l (delete b m) !! b) as [v|] eqn:E; [|reflexivity].
  apply pop_preamend_only_deletes in E. rewrite lookup_delete_eq in E.
  discriminate.
Qed.

Lemma clearpreamend_node_bookmarks r n :
  clearpreamend_node r n =
  set_bookmarks (pop_preamend (nodebookmarks r n) (_bookmarks r)) r.
Proof.
  unfold clearpreamend_node, pop_preamend.
  assert (G : forall l r0,
    fold_left
      (fun r' bookmark =>
         if endswith bookmark ".preamend"
         then set_bookmarks (delete bookmark (_bookmarks r')) r' else r') l r0
    = set_bookmarks
        (fold_left (fun m' b => if endswith b ".preamend" then delete b m' else m')
           l (_bookmarks r0)) r0).
  { induction l as [|x l IH]; intros r0; cbn; [now destruct r0|].
    rewrite IH. now destruct (endswith x ".preamend"), r0. }
  apply G.
Qed.

(** [_clearpreamend] touches nothing but the bookmark store, only
    removes names from it, and leaves no [.preamend] name on any of the
    contexts. *)
Lemma clearpreamend_frame ctxs r :
  let r' := _clearpreamend ctxs r in
  changelog r' = changelog r /\ _obsinhibit r' = _obsinhibit r
  /\ inhibitmod r' = inhibitmod r
  /\ forall b v, _bookmarks r' !! b = Some v -> _bookmarks r !! b = Some v.
Proof.
  revert r. induction ctxs as [|c ctxs IH]; intros r; cbn; [auto|].
  destruct (IH (clearpreamend_node r (nodeof r c))) as (Hc & Hi & Hm & Hb).
  rewrite clearpreamend_node_bookmarks in *. cbn in *.
  fold (_clearpreamend ctxs
          (set_bookmarks (pop_preamend (nodebookmarks r (nodeof r c)) (_bookmarks r)) r))
    in *.
  repeat split; try assumption.
  intros b v Hl. eapply pop_preamend_only_deletes, Hb, Hl.
Qed.

Lemma nodeof_changelog r r' rev : changelog r' = changelog r -> nodeof r' rev = nodeof r rev.
Proof. unfold nodeof, entry. now intros ->. Qed.

Lemma clearpreamend_clears ctxs r p b :
  In p ctxs -> endswith b ".preamend" = true ->
  _bookmarks (_clearpreamend ctxs r) !! b <> Some (nodeof r p).
Proof.
  revert r. induction ctxs as [|c ctxs IH]; intros r Hin He; [contradiction|].
  cbn [_clearpreamend fold_left].
  fold (_clearpreamend ctxs (clearpreamend_node r (nodeof r c))).
  set (r1 := clearpreamend_node r (nodeof r c)).
  assert (Hcl : changelog r1 = changelog r).
  { unfold r1. rewrite clearpreamend_node_bookmarks. reflexivity. }
  destruct Hin as [-> | Hin].
  - intros Hl. destruct (clearpreamend_frame ctxs r1) as (_ & _ & _ & Hb).
    apply Hb in Hl. unfold r1 in Hl. rewrite clearpreamend_node_bookmarks in Hl.
    cbn in Hl. rewrite pop_preamend_deletes in Hl; [discriminate| |assumption].
    apply in_nodebookmarks. now apply pop_preamend_only_deletes in Hl.
  - rewrite <- (nodeof_changelog r r1 p Hcl). now apply IH.
Qed.

Lemma deinhibit_frame ctxs r :
  changelog (_deinhibit ctxs r) = changelog r
  /\ _bookmarks (_deinhibit ctxs r) = _bookmarks r.
Proof. unfold _deinhibit. now destruct (inhibitmod r). Qed.

Lemma deinhibit_clears ctxs r p :
  inhibitmod r = true -> In p ctxs ->
  ~ In (nodeof r p) (_obsinhibit (_deinhibit ctxs r)).
Proof.
  intros Hm Hin. unfold _deinhibit. rewrite Hm. cbn. intros Hf.
  apply filter_In in Hf as [_ Hf]. apply negb_true_iff in Hf.
  assert (Ht : existsb (String.eqb (nodeof r p)) (map (nodeof r) ctxs) = true).
  { apply existsb_exists. exists (nodeof r p).
    split; [now apply in_map | apply String.eqb_refl]. }
  congruence.
Qed.

Lemma changectxs_visible r l :
  Forall (fun p => visible r p = true) l -> changectxs r l = inl l.
Proof.
  induction 1 as [|p l Hp _ IH]; cbn; [reflexivity|].
  unfold changectx. now rewrite Hp, IH.
Qed.

(** *** [_findrestacktargets] *)

(** X27: [_findrestacktargets] as the code has it: it finishes; the
    list returned is the reverse of the targets in the order in which
    the traversal met them; the targets
    are the visited revisions that have a precursor, no successor, and a
    precursor with a child among the descendants of [base] and of its
    precursors (the child relation [_getchildrelationships] builds);
    the visited revisions are those reachable from [base] along that
    relation and along the children of the precursors of targets; and a
    visit appends the children of the revision in ascending order. *)
Theorem findrestacktargets_spec `{Host} (r : repo) (base : Z) :
  exists visited discovered,
    bfs_run r base = Some (mkBfs [] discovered visited)
    /\ _findrestacktargets r base = Some (rev discovered)
    /\ NoDup visited
    /\ (forall x, In x visited <-> bfs_reach r base x)
    /\ discovered = List.filter (is_target r (restack_children r base)) visited
    /\ (forall x, In x discovered <-> bfs_reach r base x /\ target_from r base x)
    /\ (forall x st, inZ x (processed st) = false ->
        exists more,
          queue (bfs_body r (restack_children r base) x st)
            = queue st ++ kids (restack_children r base) x ++ more
          /\ StronglySorted Z.le (kids (restack_children r base) x)
          /\ forall c, In c (kids (restack_children r base) x) <-> child_from r base x c).
Proof.
  destruct (bfs_loop_spec r (restack_children r base) base)
    as (visited & Hrun & Hnd & Hreach).
  exists visited, (List.filter (is_target r (restack_children r base)) visited).
  assert (Hv : forall x, In x visited <-> bfs_reach r base x).
  { intros x. rewrite Hreach. apply reach_bfs_reach. }
  split; [exact Hrun|]. split.
  { unfold _findrestacktargets, bfs_run. now rewrite Hrun. }
  split; [exact Hnd|]. split; [exact Hv|]. split; [reflexivity|]. split.
  - intros x. rewrite filter_In, Hv, is_target_spec. reflexivity.
  - intros x st Hx. rewrite body_unprocessed by exact Hx. cbn [queue].
    exists (if is_target r (restack_children r base) x
            then pkids r (restack_children r base) x else []).
    split; [reflexivity|]. split; [apply sorted_by_sorted|].
    intros c. rewrite in_kids. apply in_childrenof.
Qed.

(** C2, the failing run: from base [A] (revision 1) the traversal
    reaches [X2] (revision 4), which has the precursor [X], no
    successor, and whose precursor has the child [Y]; yet no target is
    returned, because [X] is not a descendant of the base and so has no
    entry in the child relation.  [_restackonce] on [X2] does rebase
    [Y] onto it; [restack], which relies on the targets, calls no
    rebase and returns leaving [Y] on the obsolete [X]. *)
Theorem findrestacktargets_misses_outside_child :
  _findrestacktargets (H := simple_host []) outside_precursor 1 = Some []
  /\ bfs_reach outside_precursor 1 4
  /\ target_in_repo outside_precursor 4
  /\ children outside_precursor 2 = [3]
  /\ dict_get (restack_children outside_precursor 1) 2 = []
  /\ (exists w',
        _restackonce (H := simple_host []) 4 None (fresh outside_precursor) = (inl tt, w')
        /\ w_log w' = [call_rebase (mkRebaseopts [3] (Some 4) [])])
  /\ restack_base outside_precursor = 1
  /\ restack (H := simple_host []) None (fresh outside_precursor)
     = (inl tt,
        mkWorld outside_precursor (mkTransaction 1 0 1 outside_precursor) 0 0 None
          [tr_opened "restack"; tr_committed])
  /\ obsolete outside_precursor 2 = true
  /\ obsolete outside_precursor 3 = false
  /\ In 2 (ancestors outside_precursor [3]).
Proof.
  split; [vm_compute; reflexivity|]. split.
  { apply reach_child with 1; [constructor|].
    unfold child_from. vm_compute. intuition discriminate. }
  split.
  { unfold target_in_repo. split; [vm_compute; discriminate|].
    split; [vm_compute; reflexivity|].
    exists 2, 3. vm_compute. tauto. }
  split; [vm_compute; reflexivity|]. split; [vm_compute; reflexivity|]. split.
  { eexists. split; vm_compute; reflexivity. }
  split; [vm_compute; reflexivity|]. split; [vm_compute; reflexivity|].
  split; [vm_compute; reflexivity|]. split; [vm_compute; reflexivity|].
  vm_compute. tauto.
Qed.

(** The traversal on the stack whose bottom changeset was amended. *)
Lemma findrestacktargets_spec_witness :
  exists visited discovered,
    bfs_run (H := simple_host []) amended_stack 3 = Some (mkBfs [] discovered visited)
    /\ _findrestacktargets (H := simple_host []) amended_stack 3 = Some (rev discovered)
    /\ (forall x, In x visited <-> bfs_reach amended_stack 3 x)
    /\ (forall x, In x discovered <-> bfs_reach amended_stack 3 x /\ target_from amended_stack 3 x).
Proof.
  destruct (findrestacktargets_spec (H := simple_host []) amended_stack 3)
    as (visited & discovered & H1 & H2 & _ & H4 & _ & H6 & _).
  exists visited, discovered.
  split; [exact H1|]. split; [exact H2|]. split; [exact H4 | exact H6].
Defined.

(** *** [restack] on a stack whose obsolete changeset has its successor
    elsewhere *)

(** C1, the failing run: with the working directory on [C], whose parent
    [B] was obsoleted in favour of [B2] sitting on the public root,
    [restack] finds no target, calls no rebase, and returns leaving the
    repository as it was, in which the visible changeset [C] has the
    obsolete ancestor [B]. *)
Theorem restack_leaves_unstable `{Host} :
  restack None (fresh moved_successor)
  = (inl tt,
     mkWorld moved_successor (mkTransaction 1 0 1 moved_successor) 0 0 None
       [tr_opened "restack"; tr_committed])
  /\ visible moved_successor 3 = true
  /\ obsolete moved_successor 3 = false
  /\ In 2 (ancestors moved_successor [3])
  /\ obsolete moved_successor 2 = true
  /\ allsuccessors moved_successor 2 = [4]
  /\ ~ stable moved_successor.
Proof.
  split; [vm_compute; reflexivity|].
  assert (Hin : In 2 (ancestors moved_successor [3])) by (vm_compute; tauto).
  repeat split; try (vm_compute; reflexivity); try exact Hin.
  intros Hs. specialize (Hs 3 2 eq_refl eq_refl Hin). vm_compute in Hs.
  discriminate.
Qed.

(** *** Running the effects *)

(** Unfold the plumbing of the effects in the goal, or in a hypothesis. *)
Ltac run :=
  cbv beta iota zeta delta
    [mbind M_bind mret M_ret getrepo raise modify emit lift call
     try_except try_finally with_frame with_locks with_transaction
     repo_wlock repo_lock wlock_release lock_release repo_transaction
     tr_close tr_release running lockmod_release restack_turn
     block_entry block_exit opened_tr ui_warn_ ui_status_
     set_repo set_tr set_wlock set_lock set_local_tr add_log];
  cbn [w_repo w_tr w_wlock w_lock w_local_tr w_log
       tr_id tr_count tr_usages tr_backup
       Nat.ltb Nat.leb Nat.pred andb negb nonempty].

Ltac run_in H :=
  cbv beta iota zeta delta
    [mbind M_bind mret M_ret getrepo raise modify emit lift call
     try_except try_finally with_frame with_locks with_transaction
     repo_wlock repo_lock wlock_release lock_release repo_transaction
     tr_close tr_release running lockmod_release restack_turn
     block_entry block_exit opened_tr ui_warn_ ui_status_
     set_repo set_tr set_wlock set_lock set_local_tr add_log] in H;
  cbn [w_repo w_tr w_wlock w_lock w_local_tr w_log
       tr_id tr_count tr_usages tr_backup
       Nat.ltb Nat.leb Nat.pred andb negb nonempty] in H.

(** *** Conflicts during [restack] and [fixupamend] *)

Section Intervention.
Context `{Host}.

Lemma same_frame_refl w : same_frame w w.
Proof. now repeat split. Qed.

Lemma same_frame_trans w1 w2 w3 :
  same_frame w1 w2 -> same_frame w2 w3 -> same_frame w1 w3.
Proof. unfold same_frame. intuition congruence. Qed.

Lemma restackonce_frame rev o w out w' :
  _restackonce rev o w = (out, w') -> same_frame w w'.
Proof.
  destruct w as [r t wl l lt lg].
  unfold _restackonce, mbind, M_bind, getrepo, call, lift, modify.
  cbn [w_repo w_log set_repo add_log].
  destruct (nonempty (descendants_minus r (allprecursors r rev)));
    cbn [negb w_repo w_log set_repo add_log].
  - destruct (rebasemod_rebase _ r) as [[[]|e] r'].
    + cbn [w_repo set_repo add_log].
      destruct (changectxs r' (allprecursors r rev)); intros [= <- <-];
        now repeat split.
    + intros [= <- <-]. now repeat split.
  - intros [= <- <-]. now repeat split.
Qed.

(** A turn of the loop that returns did not go through the handler. *)
Lemma restack_turn_ok tr o rev w w' :
  restack_turn tr o rev w = (inl tt, w') ->
  _restackonce rev (Some o) w = (inl tt, w').
Proof.
  unfold restack_turn, try_except.
  destruct (_restackonce rev (Some o) w) as [[[]|e] w1]; [auto|].
  unfold close_and_reraise. destruct e; cbn; unfold raise; try discriminate.
  unfold mbind, M_bind. destruct (tr_close tr w1) as [[[]|e] w2]; discriminate.
Qed.

Lemma for_each_turns_frame tr o revs w w' :
  for_each revs (restack_turn tr o) w = (inl tt, w') -> same_frame w w'.
Proof.
  revert w. induction revs as [|rev revs IH]; intros w; cbn [for_each].
  - intros [= <-]. apply same_frame_refl.
  - unfold mbind, M_bind.
    destruct (restack_turn tr o rev w) as [[[]|e] w1] eqn:E; [|discriminate].
    intros Hrest. apply restack_turn_ok, restackonce_frame in E.
    eapply same_frame_trans; [exact E | now apply IH].
Qed.

(** The loop stops at the first turn that raises. *)
Lemma for_each_stops {A} (f : A -> M unit) pre t post w w2 e w3 :
  for_each pre f w = (inl tt, w2) -> f t w2 = (inr e, w3) ->
  for_each (pre ++ t :: post) f w = (inr e, w3).
Proof.
  revert w. induction pre as [|x pre IH]; intros w; cbn [for_each app].
  - intros [= <-] Hf. unfold mbind, M_bind. now rewrite Hf.
  - unfold mbind, M_bind. destruct (f x w) as [[[]|e'] w1]; [|discriminate].
    apply IH.
Qed.

(** The handler on a conflict: the transaction is committed, then the
    conflict goes on to the caller. *)
Lemma restack_turn_conflict tr o rev w w' :
  _restackonce rev (Some o) w = (inr InterventionRequired, w') ->
  w_tr w = mkTransaction tr 1 1 (tr_backup (w_tr w)) ->
  restack_turn tr o rev w =
  (inr InterventionRequired,
   add_log tr_committed
     (set_tr (mkTransaction tr 0 1 (tr_backup (w_tr w))) w')).
Proof.
  intros Hrun Ht. pose proof (restackonce_frame _ _ _ _ _ Hrun) as (Htr & _).
  unfold restack_turn, try_except. rewrite Hrun.
  unfold close_and_reraise, mbind, M_bind, tr_close, running.
  rewrite Htr, Ht. cbn. now rewrite Nat.eqb_refl.
Qed.

(** What [restack] and [fixupamend] do when [_restackonce] raises the
    conflict. *)
Lemma conflict_commits :
  (forall opts w pre t post w2 w3,
     let o := default (mkRebaseopts [] None []) opts in
     tr_count (w_tr w) = 0%nat ->
     unfinished_state (w_repo w) = None ->
     snd (dirstate_parents (w_repo w)) = nullrev ->
     uncommitted_changes (w_repo w) = false ->
     _findrestacktargets (w_repo w) (restack_base (w_repo w))
       = Some (pre ++ t :: post) ->
     for_each pre (restack_turn (opened_tr w) o) (block_entry "restack" w)
       = (inl tt, w2) ->
     _restackonce t (Some o) w2 = (inr InterventionRequired, w3) ->
     restack opts w = (inr InterventionRequired, block_exit w w3))
  /\ (forall w w3,
     tr_count (w_tr w) = 0%nat ->
     config_userestack (w_repo w) = true ->
     _restackonce (dot (w_repo w)) None (block_entry "fixupamend" w)
       = (inr InterventionRequired, w3) ->
     fixupamend w = (inr InterventionRequired, block_exit w w3)).
Proof.
  split.
  - intros opts w pre t post w2 w3 o Hcount Hunf Hmerge Hdirty Htargets Hpre Hfail.
    pose proof (for_each_turns_frame _ _ _ _ _ Hpre) as (Htr & Hwl & Hl & Hlt).
    pose proof (restackonce_frame _ _ _ _ _ Hfail) as (Htr3 & Hwl3 & Hl3 & Hlt3).
    assert (Hturn := restack_turn_conflict (opened_tr w) o t w2 w3 Hfail).
    rewrite Htr in Hturn. specialize (Hturn eq_refl).
    pose proof (for_each_stops _ pre t post _ _ _ _ Hpre Hturn) as Hloop.
    clear Hpre Hfail Hturn. subst o.
    destruct w as [r [id cnt us bk] wl l lt lg].
    destruct w3 as [r3 tr3 wl3 l3 lt3 lg3].
    cbn [w_repo w_tr tr_count] in Hcount, Hunf, Hmerge, Hdirty, Htargets.
    subst cnt. run_in Hloop. run_in Htr. run_in Hwl. run_in Hl. run_in Hlt.
    run_in Htr3. run_in Hwl3. run_in Hl3. run_in Hlt3.
    rewrite Htr in Htr3. rewrite Hwl in Hwl3. rewrite Hl in Hl3. subst tr3 wl3 l3.
    unfold restack, cmdutil_checkunfinished, cmdutil_bailifchanged. run.
    rewrite Hunf. run. rewrite Hmerge, Z.eqb_refl. run. rewrite Hdirty. run.
    fold (restack_base r). rewrite Htargets. run.
    rewrite Hloop. run. rewrite Nat.eqb_refl. run. reflexivity.
  - intros w w3 Hcount Huse Hfail.
    pose proof (restackonce_frame _ _ _ _ _ Hfail) as (Htr3 & Hwl3 & Hl3 & Hlt3).
    destruct w as [r [id cnt us bk] wl l lt lg].
    destruct w3 as [r3 tr3 wl3 l3 lt3 lg3].
    cbn [w_repo w_tr tr_count] in Hcount, Huse.
    subst cnt. run_in Hfail. run_in Htr3. run_in Hwl3. run_in Hl3. run_in Hlt3.
    subst tr3 wl3 l3 lt3.
    unfold fixupamend. run. rewrite Huse. run. rewrite Hfail.
    unfold close_and_reraise. run.
    repeat (rewrite !Nat.eqb_refl; run). reflexivity.
Qed.

(** By contrast, any other exception of a turn aborts the transaction:
    the repository goes back to what it was when [restack] started. *)
Lemma other_error_rolls_back opts w pre t post w2 w3 e :
  let o := default (mkRebaseopts [] None []) opts in
  e <> InterventionRequired ->
  tr_count (w_tr w) = 0%nat ->
  unfinished_state (w_repo w) = None ->
  snd (dirstate_parents (w_repo w)) = nullrev ->
  uncommitted_changes (w_repo w) = false ->
  _findrestacktargets (w_repo w) (restack_base (w_repo w))
    = Some (pre ++ t :: post) ->
  for_each pre (restack_turn (opened_tr w) o) (block_entry "restack" w)
    = (inl tt, w2) ->
  _restackonce t (Some o) w2 = (inr e, w3) ->
  exists w',
    restack opts w = (inr e, w')
    /\ w_repo w' = w_repo w
    /\ w_log w' = w_log w3 ++ [tr_aborted].
Proof.
  intros o He Hcount Hunf Hmerge Hdirty Htargets Hpre Hfail.
  pose proof (for_each_turns_frame _ _ _ _ _ Hpre) as (Htr & Hwl & Hl & Hlt).
  pose proof (restackonce_frame _ _ _ _ _ Hfail) as (Htr3 & Hwl3 & Hl3 & Hlt3).
  assert (Hturn : restack_turn (opened_tr w) o t w2 = (inr e, w3)).
  { unfold restack_turn, try_except. rewrite Hfail.
    destruct e; try reflexivity. congruence. }
  pose proof (for_each_stops _ pre t post _ _ _ _ Hpre Hturn) as Hloop.
  clear Hpre Hfail Hturn. subst o.
  destruct w as [r [id cnt us bk] wl l lt lg].
  destruct w3 as [r3 tr3 wl3 l3 lt3 lg3].
  cbn [w_repo w_tr tr_count] in Hcount, Hunf, Hmerge, Hdirty, Htargets.
  subst cnt. run_in Hloop. run_in Htr. run_in Hwl. run_in Hl. run_in Hlt.
  run_in Htr3. run_in Hwl3. run_in Hl3. run_in Hlt3.
  rewrite Htr in Htr3. rewrite Hwl in Hwl3. rewrite Hl in Hl3. subst tr3 wl3 l3.
  unfold restack, cmdutil_checkunfinished, cmdutil_bailifchanged. run.
  rewrite Hunf. run. rewrite Hmerge, Z.eqb_refl. run. rewrite Hdirty. run.
  fold (restack_base r). rewrite Htargets. run.
  rewrite Hloop. run. rewrite Nat.eqb_refl. run. cbn [Nat.eqb]. run.
  eexists. split; [reflexivity|]. split; reflexivity.
Qed.

Lemma changectxs_error r l e :
  changectxs r l = inr e -> exists rev, e = FilteredRepoLookupError rev.
Proof.
  induction l as [|x l IH]; cbn; [discriminate|]. unfold changectx.
  destruct (visible r x).
  - destruct (changectxs r l); [discriminate|]. intros [= <-]. now apply IH.
  - intros [= <-]. now exists x.
Qed.

(** An exception of the rebase comes out of [_restackonce], with the
    repository as the rebase left it. *)
Lemma restackonce_raises rev opts w e r' :
  ro_rev (rebase_call (w_repo w) rev opts) <> [] ->
  rebasemod_rebase (rebase_call (w_repo w) rev opts) (w_repo w) = (inr e, r') ->
  _restackonce rev opts w
  = (inr e, set_repo r' (add_log (call_rebase (rebase_call (w_repo w) rev opts)) w)).
Proof.
  unfold rebase_call. cbn [ro_rev]. intros Hsrc Hreb.
  unfold _restackonce. run.
  destruct (descendants_minus (w_repo w) (allprecursors (w_repo w) rev)) as [|s0 src];
    [congruence|].
  run. now rewrite Hreb.
Qed.

(** The conflict comes out of [_restackonce] only when the rebase raised
    it. *)
Lemma restackonce_conflict_from_rebase rev opts w w' :
  _restackonce rev opts w = (inr InterventionRequired, w') ->
  rebasemod_rebase (rebase_call (w_repo w) rev opts) (w_repo w)
  = (inr InterventionRequired, w_repo w').
Proof.
  unfold rebase_call, _restackonce. run.
  destruct (descendants_minus (w_repo w) (allprecursors (w_repo w) rev)) as [|s0 src];
    run; [discriminate|].
  destruct (rebasemod_rebase _ (w_repo w)) as [[[]|e] r']; run.
  - destruct (changectxs r' (allprecursors (w_repo w) rev)) as [ctxs|e] eqn:Ec;
      [discriminate|].
    apply changectxs_error in Ec as (x & ->). discriminate.
  - intros [= -> <-]. reflexivity.
Qed.

(** C4: when the rebase of a target stops with a conflict, [restack]
    commits its transaction with everything done up to there (the
    repository is the one the rebase left, not the one the transaction
    started from), processes no further target, releases its locks and
    hands the conflict to its caller; [fixupamend] in restack mode does
    the same; and the conflict can only come from the rebase. *)
Theorem intervention_commits_and_propagates :
  (forall opts w pre t post w2 r3,
     let o := default (mkRebaseopts [] None []) opts in
     let args := rebase_call (w_repo w2) t (Some o) in
     tr_count (w_tr w) = 0%nat ->
     unfinished_state (w_repo w) = None ->
     snd (dirstate_parents (w_repo w)) = nullrev ->
     uncommitted_changes (w_repo w) = false ->
     _findrestacktargets (w_repo w) (restack_base (w_repo w))
       = Some (pre ++ t :: post) ->
     for_each pre (restack_turn (opened_tr w) o) (block_entry "restack" w)
       = (inl tt, w2) ->
     ro_rev args <> [] ->
     rebasemod_rebase args (w_repo w2) = (inr InterventionRequired, r3) ->
     restack opts w
     = (inr InterventionRequired,
        block_exit w (set_repo r3 (add_log (call_rebase args) w2))))
  /\ (forall w r3,
     let args := rebase_call (w_repo w) (dot (w_repo w)) None in
     tr_count (w_tr w) = 0%nat ->
     config_userestack (w_repo w) = true ->
     ro_rev args <> [] ->
     rebasemod_rebase args (w_repo w) = (inr InterventionRequired, r3) ->
     fixupamend w
     = (inr InterventionRequired,
        block_exit w
          (set_repo r3 (add_log (call_rebase args) (block_entry "fixupamend" w)))))
  /\ (forall rev opts w w',
     _restackonce rev opts w = (inr InterventionRequired, w') ->
     rebasemod_rebase (rebase_call (w_repo w) rev opts) (w_repo w)
     = (inr InterventionRequired, w_repo w')).
Proof.
  destruct conflict_commits as [Hr Hf]. split; [|split].
  - intros opts w pre t post w2 r3 o args Hcount Hunf Hmerge Hdirty Htargets Hpre
      Hsrc Hreb.
    apply (Hr opts w pre t post w2); try assumption.
    now apply restackonce_raises.
  - intros w r3 args Hcount Huse Hsrc Hreb. apply Hf; try assumption.
    now apply (restackonce_raises (dot (w_repo w)) None (block_entry "fixupamend" w)).
  - apply restackonce_conflict_from_rebase.
Qed.

End Intervention.

(** *** [fixupamend] and [amend]: the refusals *)

Section Refusals.
Context `{Host}.

(** C7: in bookmark mode, when the recovery bookmark exists and points
    at the current changeset, [fixupamend] raises the "cannot
    automatically determine what to rebase" error and leaves the world
    exactly as it found it. *)
Theorem fixupamend_ambiguous (w : world) (n : node) :
  let r := w_repo w in
  let preamendname := _preamendname r (nodeof r (dot r)) in
  config_userestack r = false ->
  _bookmarks r !! preamendname = Some n ->
  revof r n = Some (dot r) ->
  visible r (dot r) = true ->
  fixupamend w = (inr (ambiguous preamendname), w).
Proof.
  cbv zeta. destruct w as [r t wl l lt lg]. cbn [w_repo].
  intros Huse Hbm Hrev Hvis.
  unfold fixupamend. run. rewrite Huse, Hbm.
  unfold lookup_name, changectx. rewrite Hbm, Hrev, Hvis. run.
  rewrite Z.eqb_refl. run. reflexivity.
Qed.

(** C5, as the code has it: [amend] raises an abort, having changed
    nothing (it has at most printed its notice about evolve), when
    [--interactive] comes with [--rebase] or [--fixup], and, when
    [--fixup] is not given, when the current changeset is public or the
    working directory has two parents.  With [--fixup] and without
    [--interactive] the public and merge checks are not reached: when
    [--rebase] is given during a histedit [amend] raises the "histedit
    in progress" abort, and otherwise it runs [fixupamend] and returns
    or raises as [fixupamend] does. *)
Theorem amend_rejects (depth : nat) (opts : amendopts) (w : world) :
  let r := w_repo w in
  ((o_interactive opts = true /\ (o_rebase opts = true \/ o_fixup opts = true))
   \/ (o_fixup opts = false
       /\ (phaseof r (dot r) = Public \/ (1 < length (wdir_parents r))%nat)) ->
   exists msg hint,
     amend depth opts w = (inr (Abort msg hint), noticed w)
     /\ w_repo (noticed w) = w_repo w
     /\ w_tr (noticed w) = w_tr w
     /\ w_wlock (noticed w) = w_wlock w
     /\ w_lock (noticed w) = w_lock w)
  /\ (o_fixup opts = true -> o_interactive opts = false ->
      (o_rebase opts = true -> _histediting r = true ->
       amend depth opts w
       = (inr (Abort "histedit in progress"
                 (Some "during histedit, use amend without --rebase")), noticed w))
      /\ (o_rebase opts && _histediting r = false ->
          amend depth opts w
          = match fixupamend (noticed w) with
            | (inl _, w') => (inl None, w')
            | (inr e, w') => (inr e, w')
            end)).
Proof.
  cbv zeta. split.
  { intros Hcase.
  assert (Hframe : w_repo (noticed w) = w_repo w /\ w_tr (noticed w) = w_tr w
                   /\ w_wlock (noticed w) = w_wlock w
                   /\ w_lock (noticed w) = w_lock w).
  { unfold noticed. destruct (evolution_allnewcommands (w_repo w)); now repeat split. }
  assert (Hbody : forall self, exists msg hint,
            amend_body self opts w = (inr (Abort msg hint), noticed w)).
  { intros self. unfold amend_body, noticed. destruct w as [r t wl l lt lg].
    cbn [w_repo] in *. run.
    assert (Hgo : forall (k : M (option Z)) e,
      (forall w', k w' = (inr e, w')) ->
      (let (s, w') :=
         (if evolution_allnewcommands r
          then fun w => (inl tt, mkWorld (w_repo w) (w_tr w) (w_wlock w) (w_lock w)
                                  (w_local_tr w)
                                  (w_log w ++ [ui_write_err
                                     (incompatible_msg (config_extensions_fbamend r))]))
          else fun w => (inl tt, w)) (mkWorld r t wl l lt lg) in
       match s with
       | inl _ => k w'
       | inr e => (inr e, w')
       end)
      = (inr e,
         if evolution_allnewcommands r
         then mkWorld r t wl l lt
                (lg ++ [ui_write_err (incompatible_msg (config_extensions_fbamend r))])
         else mkWorld r t wl l lt lg)).
    { intros k e Hk. destruct (evolution_allnewcommands r); apply Hk. }
    destruct (o_rebase opts && _histediting r) eqn:Eh.
    { eexists _, _. now apply Hgo. }
    destruct (o_interactive opts && nonempty (badflags opts)) eqn:Ei.
    { eexists _, _. now apply Hgo. }
    destruct Hcase as [(Hi & Hf) | (Hf & Hp)].
    - exfalso. rewrite Hi in Ei. unfold badflags in Ei. cbn in Ei.
      destruct Hf as [Hf | Hf]; rewrite Hf in Ei; [discriminate|].
      destruct (o_rebase opts); discriminate.
    - rewrite Hf. destruct Hp as [Hp | Hp].
      + rewrite Hp. cbn [phase_eqb]. eexists _, _. now apply Hgo.
      + destruct (phase_eqb (phaseof r (dot r)) Public).
        * eexists _, _. now apply Hgo.
        * destruct (wdir_parents r) as [|a [|b ps]]; cbn [length] in *; try lia.
          eexists _, _. now apply Hgo. }
  destruct depth as [|d]; cbn [amend];
    match goal with
    | |- context [amend_body ?self opts w] =>
        destruct (Hbody self) as (m & h & ->); exists m, h;
        split; [reflexivity | exact Hframe]
    end. }
  intros Hf Hi. split.
  - intros Hr Hh.
    assert (Hbody : forall self,
      amend_body self opts w
      = (inr (Abort "histedit in progress"
                (Some "during histedit, use amend without --rebase")), noticed w)).
    { intros self. unfold amend_body, noticed. destruct w as [r t wl l lt lg].
      cbn [w_repo] in *. run. rewrite Hr, Hh. cbn [andb].
      destruct (evolution_allnewcommands r); reflexivity. }
    destruct depth as [|d]; cbn [amend]; apply Hbody.
  - intros Hh.
    assert (Hbody : forall self,
      amend_body self opts w
      = match fixupamend (noticed w) with
        | (inl _, w') => (inl None, w')
        | (inr e, w') => (inr e, w')
        end).
    { intros self. unfold amend_body, noticed. destruct w as [r t wl l lt lg].
      cbn [w_repo] in *. run. rewrite Hh, Hi, Hf. cbn [andb].
      destruct (evolution_allnewcommands r); run;
        match goal with
        | |- context [fixupamend ?w0] => destruct (fixupamend w0) as [[[]|e] w1]
        end; reflexivity. }
    destruct depth as [|d]; cbn [amend]; apply Hbody.
Qed.

End Refusals.

(** *** [amend] of a changeset with children *)

Section AmendChildren.
Context `{Host}.

Lemma for_each_modify {A} (f : A -> repo -> repo) l w :
  for_each l (fun x => modify (f x)) w =
  (inl tt, set_repo (fold_left (fun r x => f x r) l (w_repo w)) w).
Proof.
  revert w. induction l as [|x l IH]; intros w; cbn [for_each fold_left].
  - now destruct w.
  - unfold mbind, M_bind, modify at 1. rewrite IH. now destruct w.
Qed.

Lemma move_bookmarks l n r :
  fold_left (fun r' bm => set_bookmarks (<[bm := n]> (_bookmarks r')) r') l r =
  set_bookmarks (fold_left (fun m bm => <[bm := n]> m) l (_bookmarks r)) r.
Proof.
  revert r. induction l as [|x l IH]; intros r; cbn [fold_left].
  - now destruct r.
  - rewrite IH. now destruct r.
Qed.

(** The loop [for bm in oldbookmarks: newbookmarks[bm] = node]. *)
Lemma move_loop l (n : node) w :
  for_each l
    (fun bm w0 =>
       (inl tt,
        mkWorld (set_bookmarks (<[bm := n]> (_bookmarks (w_repo w0))) (w_repo w0))
          (w_tr w0) (w_wlock w0) (w_lock w0) (w_local_tr w0) (w_log w0))) w
  = (inl tt,
     mkWorld
       (set_bookmarks (fold_left (fun m bm => <[bm := n]> m) l (_bookmarks (w_repo w)))
          (w_repo w))
       (w_tr w) (w_wlock w) (w_lock w) (w_local_tr w) (w_log w)).
Proof.
  pose proof (for_each_modify
                (fun bm r' => set_bookmarks (<[bm := n]> (_bookmarks r')) r') l w) as E.
  cbv beta in E. rewrite move_bookmarks in E. exact E.
Qed.


End AmendChildren.

(** *** Runs on the concrete repositories *)

Section Runs.

(** C5, counterexample: with [--fixup], on a public changeset (restack
    mode), [amend] does not abort: it goes through [fixupamend] and
    returns. *)
Lemma amend_fixup_on_public_returns :
  phaseof on_public (dot on_public) = Public
  /\ amend (H := simple_host []) 1 fixup_opts (fresh on_public)
     = (inl None,
        mkWorld on_public (mkTransaction 1 0 1 on_public) 0 0 None
          [tr_opened "fixupamend"; tr_committed]).
Proof. split; vm_compute; reflexivity. Qed.


(** C3, the failing run: on [A2], whose precursors are [A0] and [A1],
    [_restackonce] calls the rebase of [C] and [D] onto [A2]; the rebase
    returns, and as [C] is now obsolete the bare [A0] is hidden; the
    look-up of the precursors then raises, so that neither
    [_clearpreamend] nor [_deinhibit] is reached and [old.preamend]
    stays on the precursor [A1].  [restack] on this repository ends with
    that error. *)
Theorem restackonce_hidden_precursor :
  refilter two_precursors = two_precursors
  /\ allprecursors two_precursors 5 = [1; 3]
  /\ fst (hiding_rebase (mkRebaseopts [2; 4] (Some 5) []) two_precursors) = inl tt
  /\ (exists w',
        _restackonce (H := host_with hiding_rebase simple_amend) 5 None
          (fresh two_precursors)
        = (inr (FilteredRepoLookupError 1), w')
        /\ w_log w' = [call_rebase (mkRebaseopts [2; 4] (Some 5) [])]
        /\ filteredrevs (w_repo w') = [1; 2; 4]
        /\ nodeof (w_repo w') 3 = "A1"
        /\ endswith "old.preamend" ".preamend" = true
        /\ _bookmarks (w_repo w') !! "old.preamend" = Some "A1")
  /\ fst (restack (H := host_with hiding_rebase simple_amend) None
            (fresh two_precursors))
     = inr (FilteredRepoLookupError 1).
Proof.
  split; [vm_compute; reflexivity|]. split; [vm_compute; reflexivity|].
  split; [vm_compute; reflexivity|]. split; [|vm_compute; reflexivity].
  eexists. split; [vm_compute; reflexivity|].
  repeat split; vm_compute; reflexivity.
Qed.

(** A conflict while rebasing [B] onto [A2]: the copy of [B] made before
    the conflict is kept. *)
Lemma intervention_witness :
  (exists r3 w2,
     restack (H := simple_host [3]) None (fresh amended_stack)
     = (inr InterventionRequired,
        block_exit (fresh amended_stack)
          (set_repo r3 (add_log (call_rebase (mkRebaseopts [2] (Some 3) [])) w2)))
     /\ nodeof r3 4 = "B'")
  /\ (exists r3,
     fixupamend (H := simple_host [3]) (fresh amended_stack_restackmode)
     = (inr InterventionRequired,
        block_exit (fresh amended_stack_restackmode)
          (set_repo r3
             (add_log (call_rebase (mkRebaseopts [2] (Some 3) []))
                (block_entry "fixupamend" (fresh amended_stack_restackmode)))))
     /\ nodeof r3 4 = "B'").
Proof.
  destruct (intervention_commits_and_propagates (H := simple_host [3])) as (Hr & Hf & _).
  split.
  - exists (snd (simple_rebase [3] (mkRebaseopts [2] (Some 3) []) amended_stack)),
      (block_entry "restack" (fresh amended_stack)).
    split; [|vm_compute; reflexivity].
    apply (Hr None (fresh amended_stack) [] 3 []
             (block_entry "restack" (fresh amended_stack)));
      try reflexivity; try discriminate; vm_compute; reflexivity.
  - exists (snd (simple_rebase [3] (mkRebaseopts [2] (Some 3) []) amended_stack_restackmode)).
    split; [|vm_compute; reflexivity].
    apply (Hf (fresh amended_stack_restackmode));
      try reflexivity; try discriminate; vm_compute; reflexivity.
Defined.

(** [hg amend] on a public changeset, and [hg amend --fixup] there. *)
Lemma amend_rejects_witness :
  (exists msg hint,
     amend (H := simple_host []) 1 plain_opts (fresh on_public)
     = (inr (Abort msg hint), noticed (fresh on_public)))
  /\ amend (H := simple_host []) 1 fixup_opts (fresh on_public)
     = match fixupamend (H := simple_host []) (noticed (fresh on_public)) with
       | (inl _, w') => (inl None, w')
       | (inr e, w') => (inr e, w')
       end.
Proof.
  split.
  - destruct (amend_rejects (H := simple_host []) 1 plain_opts (fresh on_public))
      as [Habort _].
    destruct Habort as (msg & hint & Hrun & _).
    + right. split; [reflexivity|]. left. reflexivity.
    + exists msg, hint. exact Hrun.
  - destruct (amend_rejects (H := simple_host []) 1 fixup_opts (fresh on_public))
      as [_ Hfix].
    destruct Hfix as [_ Hgo]; [reflexivity | reflexivity|].
    apply Hgo. reflexivity.
Defined.


(** [hg amend --fixup] when [feature.preamend] is on the current
    changeset. *)
Lemma fixupamend_ambiguous_witness :
  fixupamend (H := simple_host []) (fresh bookmark_on_current)
  = (inr (ambiguous "feature.preamend"), fresh bookmark_on_current).
Proof.
  apply (fixupamend_ambiguous (H := simple_host []) (fresh bookmark_on_current) "A");
    vm_compute; reflexivity.
Defined.

End Runs.

End FbamendSpec.

(** ** Further properties of [fbamend.py] *)
Module FbamendMore.
Import Fbamend Scenarios MoreScenarios FbamendSpec.

(** *** [restack]: refusals *)

Section RestackRefusals.
Context `{Host}.

(** X1: [restack] refuses to run while another operation is unfinished,
    during a merge, and on a modified working copy: it raises the abort
    of [cmdutil.checkunfinished] or [cmdutil.bailifchanged] and leaves
    the world as it found it (locks released, no transaction opened,
    nothing logged). *)
Theorem restack_refuses (opts : option rebaseopts) (w : world) :
  let r := w_repo w in
  (forall msg, unfinished_state r = Some msg ->
     restack opts w = (inr (Abort msg None), w))
  /\ (unfinished_state r = None -> snd (dirstate_parents r) <> nullrev ->
      restack opts w = (inr (Abort "outstanding uncommitted merge" None), w))
  /\ (unfinished_state r = None -> snd (dirstate_parents r) = nullrev ->
      uncommitted_changes r = true ->
      restack opts w = (inr (Abort "uncommitted changes" None), w)).
Proof.
  cbv zeta. destruct w as [r t wl l lt lg]. cbn [w_repo].
  split; [|split].
  - intros msg Hu. unfold restack, cmdutil_checkunfinished. run.
    rewrite Hu. run. reflexivity.
  - intros Hu Hm. unfold restack, cmdutil_checkunfinished, cmdutil_bailifchanged.
    run. rewrite Hu. run. apply Z.eqb_neq in Hm. rewrite Hm. run. reflexivity.
  - intros Hu Hm Hd. unfold restack, cmdutil_checkunfinished, cmdutil_bailifchanged.
    run. rewrite Hu. run. rewrite Hm, Z.eqb_refl. run. rewrite Hd. run. reflexivity.
Qed.

End RestackRefusals.

Lemma restack_refuses_witness :
  restack (H := simple_host []) None (fresh (with_state (Some "rebase in progress") false nullrev))
  = (inr (Abort "rebase in progress" None),
     fresh (with_state (Some "rebase in progress") false nullrev))
  /\ restack (H := simple_host []) None (fresh (with_state None false 1))
     = (inr (Abort "outstanding uncommitted merge" None),
        fresh (with_state None false 1))
  /\ restack (H := simple_host []) None (fresh (with_state None true nullrev))
     = (inr (Abort "uncommitted changes" None), fresh (with_state None true nullrev)).
Proof.
  split; [|split].
  - apply (proj1 (restack_refuses (H := simple_host []) None
                    (fresh (with_state (Some "rebase in progress") false nullrev)))).
    reflexivity.
  - apply (proj1 (proj2 (restack_refuses (H := simple_host []) None
                    (fresh (with_state None false 1)))));
      [reflexivity | discriminate].
  - apply (proj2 (proj2 (restack_refuses (H := simple_host []) None
                    (fresh (with_state None true nullrev))))); reflexivity.
Defined.

(** *** [fixupamend] without its recovery bookmark *)

Section FixupRefusal.
Context `{Host}.

(** X2: in bookmark mode, when no recovery bookmark exists for the
    current changeset, [fixupamend] raises [no bookmark <name>] with the
    hint to check the active bookmark; nothing is rebased, no
    transaction is opened and the world is left as it was found. *)
Theorem fixupamend_no_bookmark (w : world) :
  let r := w_repo w in
  let preamendname := _preamendname r (nodeof r (dot r)) in
  config_userestack r = false ->
  _bookmarks r !! preamendname = None ->
  fixupamend w
  = (inr (Abort ("no bookmark " ++ preamendname)
            (Some "check if your bookmark is active")), w).
Proof.
  cbv zeta. destruct w as [r t wl l lt lg]. cbn [w_repo].
  intros Huse Hbm. unfold fixupamend. run. rewrite Huse, Hbm. run.
  reflexivity.
Qed.

End FixupRefusal.

(** [hg amend --fixup] on a stack that was never amended. *)
Lemma fixupamend_no_bookmark_witness :
  fixupamend (H := simple_host []) (fresh (two_stack false None))
  = (inr (Abort "no bookmark 41.preamend" (Some "check if your bookmark is active")),
     fresh (two_stack false None)).
Proof.
  apply (fixupamend_no_bookmark (H := simple_host []) (fresh (two_stack false None)));
    vm_compute; reflexivity.
Defined.

(** *** Recovery bookmarks: [_preamendname] and [_clearpreamend] *)

Lemma substring_all s : substring 0 (String.length s) s = s.
Proof. induction s as [|c s IH]; cbn; [reflexivity | now rewrite IH]. Qed.

Lemma substring_skip s t n :
  substring (String.length s) n (s ++ t) = substring 0 n t.
Proof. induction s as [|c s IH]; cbn; [reflexivity | exact IH]. Qed.

Lemma string_length_app s t :
  String.length (s ++ t) = (String.length s + String.length t)%nat.
Proof. induction s as [|c s IH]; simpl; [reflexivity | now f_equal]. Qed.

(** A string ends with what was appended to it. *)
Lemma endswith_app s suffix : endswith (s ++ suffix) suffix = true.
Proof.
  unfold endswith. rewrite string_length_app.
  replace (String.length s + String.length suffix - String.length suffix)%nat
    with (String.length s) by lia.
  rewrite substring_skip, substring_all, String.eqb_refl.
  rewrite andb_true_r. apply Nat.leb_le. lia.
Qed.

Lemma preamendname_endswith r n : endswith (_preamendname r n) ".preamend" = true.
Proof. unfold _preamendname. cbv zeta. apply endswith_app. Qed.

(** A name that is not popped keeps its value. *)
Lemma pop_preamend_other l (m : gmap string node) b :
  ~ In b l \/ endswith b ".preamend" = false ->
  pop_preamend l m !! b = m !! b.
Proof.
  revert m. induction l as [|x l IH]; intros m Hb; [reflexivity|].
  rewrite pop_preamend_cons. rewrite IH.
  - destruct (endswith x ".preamend") eqn:E; [|reflexivity].
    rewrite lookup_delete. destruct (decide (x = b)) as [-> | Hne]; [|reflexivity].
    destruct Hb as [Hb | Hb]; [|congruence]. exfalso. apply Hb. now left.
  - destruct Hb as [Hb | Hb]; [left | now right]. intros Hin. apply Hb. now right.
Qed.

(** The bookmark store after [_clearpreamend]. *)
Lemma clearpreamend_lookup ctxs r b :
  _bookmarks (_clearpreamend ctxs r) !! b =
  match _bookmarks r !! b with
  | Some n =>
      if endswith b ".preamend" && existsb (fun p => String.eqb (nodeof r p) n) ctxs
      then None else Some n
  | None => None
  end.
Proof.
  revert r. induction ctxs as [|c ctxs IH]; intros r.
  - cbn. destruct (_bookmarks r !! b); [now rewrite andb_false_r | reflexivity].
  - cbn [_clearpreamend fold_left].
    fold (_clearpreamend ctxs (clearpreamend_node r (nodeof r c))).
    rewrite IH. rewrite clearpreamend_node_bookmarks.
    cbn [_bookmarks set_bookmarks].
    assert (Hn : forall p, nodeof (set_bookmarks
                   (pop_preamend (nodebookmarks r (nodeof r c)) (_bookmarks r)) r) p
                 = nodeof r p) by reflexivity.
    assert (He : forall n,
      existsb (fun p => String.eqb (nodeof (set_bookmarks
                   (pop_preamend (nodebookmarks r (nodeof r c)) (_bookmarks r)) r) p) n) ctxs
      = existsb (fun p => String.eqb (nodeof r p) n) ctxs) by reflexivity.
    cbn [existsb].
    destruct (_bookmarks r !! b) as [n|] eqn:Eb.
    + destruct (endswith b ".preamend") eqn:Ee; cbn [andb].
      * destruct (String.eqb_spec (nodeof r c) n) as [-> | Hne]; cbn [orb].
        -- rewrite pop_preamend_deletes; [reflexivity| |assumption].
           now apply in_nodebookmarks.
        -- rewrite pop_preamend_other; [unfold node in *; rewrite Eb; now rewrite He|].
           left. intros Hin. apply in_nodebookmarks in Hin.
           unfold node in *. congruence.
      * rewrite pop_preamend_other by now right.
        unfold node in *. now rewrite Eb.
    + destruct (pop_preamend (nodebookmarks r (nodeof r c)) (_bookmarks r) !! b)
        as [v|] eqn:Ep; [|reflexivity].
      apply pop_preamend_only_deletes in Ep. unfold node in *. congruence.
Qed.

Lemma clearpreamend_set_bookmarks ctxs r :
  _clearpreamend ctxs r = set_bookmarks (_bookmarks (_clearpreamend ctxs r)) r.
Proof.
  revert r. induction ctxs as [|c ctxs IH]; intros r.
  - now destruct r.
  - cbn [_clearpreamend fold_left].
    fold (_clearpreamend ctxs (clearpreamend_node r (nodeof r c))).
    rewrite IH at 1. now rewrite clearpreamend_node_bookmarks.
Qed.

(** X3: [_clearpreamend] changes the bookmark store and nothing else,
    and in the store it removes exactly the names that end in
    [.preamend] and pointed at the node of one of the contexts; every
    other bookmark keeps its target. *)
Theorem clearpreamend_spec (ctxs : list Z) (r : repo) :
  _clearpreamend ctxs r = set_bookmarks (_bookmarks (_clearpreamend ctxs r)) r
  /\ forall b,
       _bookmarks (_clearpreamend ctxs r) !! b =
       match _bookmarks r !! b with
       | Some n =>
           if endswith b ".preamend"
              && existsb (fun p => String.eqb (nodeof r p) n) ctxs
           then None else Some n
       | None => None
       end.
Proof.
  split; [apply clearpreamend_set_bookmarks | intros b; apply clearpreamend_lookup].
Qed.

(** X4: whatever name [_preamendname] makes up ends in [.preamend], so
    a recovery bookmark of that name that points at one of the contexts
    is gone after [_clearpreamend]: what [amend] leaves on the old
    changeset, [_restackonce] takes away. *)
Theorem clearpreamend_removes_recovery_bookmark
    (r r0 : repo) (n : node) (ctxs : list Z) (p : Z) :
  In p ctxs ->
  _bookmarks r !! _preamendname r0 n = Some (nodeof r p) ->
  endswith (_preamendname r0 n) ".preamend" = true
  /\ _bookmarks (_clearpreamend ctxs r) !! _preamendname r0 n = None.
Proof.
  intros Hin Hb. split; [apply preamendname_endswith|].
  rewrite clearpreamend_lookup. unfold node in *.
  rewrite Hb, preamendname_endswith. cbn [andb].
  assert (He : existsb (fun q => String.eqb (nodeof r q) (nodeof r p)) ctxs = true).
  { apply existsb_exists. exists p. split; [assumption | apply String.eqb_refl]. }
  now rewrite He.
Qed.

(** The bookmark [feature.preamend] on [A] is cleared with [A]. *)
Lemma clearpreamend_removes_recovery_bookmark_witness :
  endswith "feature.preamend" ".preamend" = true
  /\ _bookmarks (_clearpreamend [1] bookmark_on_current) !! "feature.preamend" = None.
Proof.
  apply (clearpreamend_removes_recovery_bookmark
           bookmark_on_current bookmark_on_current "A" [1] 1);
    [now left | vm_compute; reflexivity].
Defined.

(** *** [_latest] *)

Lemma sorted_filter {A} (R : A -> A -> Prop) (f : A -> bool) l :
  StronglySorted R l -> StronglySorted R (List.filter f l).
Proof.
  induction 1 as [|x l Hs IH Hall]; cbn; [constructor|].
  destruct (f x); [|assumption]. constructor; [assumption|].
  apply List.Forall_forall. intros y Hy. apply filter_In in Hy as [Hy _].
  rewrite List.Forall_forall in Hall. now apply Hall.
Qed.

Lemma seq_sorted start len : StronglySorted lt (seq start len).
Proof.
  revert start. induction len as [|n IH]; intros start; cbn; constructor.
  - apply IH.
  - apply List.Forall_forall. intros y Hy. apply in_seq in Hy. lia.
Qed.

Lemma seqZ_sorted start len : StronglySorted Z.lt (seqZ start len).
Proof.
  unfold seqZ. generalize (seq_sorted 0 (Z.to_nat len)).
  generalize (seq 0 (Z.to_nat len)). intros l.
  induction 1 as [|x l Hs IH Hall]; cbn; constructor; [assumption|].
  apply List.Forall_forall. intros y Hy.
  apply list_elem_of_In, list_elem_of_fmap in Hy as (n & -> & Hn).
  apply list_elem_of_In in Hn. rewrite List.Forall_forall in Hall.
  specialize (Hall n Hn). lia.
Qed.

(** The visible revisions are listed in ascending order. *)
Lemma visiblerevs_sorted r : StronglySorted Z.lt (visiblerevs r).
Proof. unfold visiblerevs. apply sorted_filter, seqZ_sorted. Qed.

Lemma allsuccessors_sorted r rev : StronglySorted Z.lt (allsuccessors r rev).
Proof. unfold allsuccessors. cbv zeta. apply sorted_filter, visiblerevs_sorted. Qed.

Lemma last_snoc l x : last l = Some x -> exists l', l = l' ++ [x].
Proof.
  unfold last. intros Hl. exists (rev (List.tl (rev l))).
  destruct (rev l) as [|y t] eqn:E; [discriminate|].
  cbn in Hl. injection Hl as ->. cbn [List.tl].
  rewrite <- (rev_involutive l), E. reflexivity.
Qed.

Lemma sorted_last_max l x :
  StronglySorted Z.lt l -> last l = Some x ->
  In x l /\ forall y, In y l -> y <= x.
Proof.
  intros Hs Hl. apply last_snoc in Hl as (l' & ->). split.
  - apply in_app_iff. right. now left.
  - intros y Hy. apply in_app_iff in Hy as [Hy | [<- | []]]; [|lia].
    clear -Hs Hy. induction l' as [|z l' IH]; [contradiction|].
    cbn in Hs. inversion Hs as [|? ? Hs' Hall]. subst.
    destruct Hy as [<- | Hy]; [|now apply IH].
    rewrite List.Forall_forall in Hall.
    assert (z < x)%Z by (apply Hall, in_app_iff; right; now left). lia.
Qed.

(** X5: [_latest] returns the revision itself when it has no visible
    successor; otherwise it returns a visible successor, and the one
    with the greatest revision number. *)
Theorem latest_spec (r : repo) (rev : Z) :
  (allsuccessors r rev = [] -> _latest r rev = rev)
  /\ (allsuccessors r rev <> [] ->
      In (_latest r rev) (allsuccessors r rev)
      /\ visible r (_latest r rev) = true
      /\ forall s, In s (allsuccessors r rev) -> s <= _latest r rev).
Proof.
  unfold _latest. split.
  - intros ->. reflexivity.
  - intros Hne. destruct (last (allsuccessors r rev)) as [x|] eqn:E.
    + destruct (sorted_last_max _ _ (allsuccessors_sorted r rev) E) as [Hin Hmax].
      split; [assumption|]. split; [|assumption].
      unfold visible. apply inZ_In. unfold allsuccessors in Hin. cbv zeta in Hin.
      now apply filter_In in Hin as [Hin _].
    + exfalso. unfold last in E. destruct (allsuccessors r rev) as [|a l] eqn:Ea;
        [congruence|].
      assert (Hl : List.rev (a :: l) <> []).
      { intros Hr. apply (f_equal (@length Z)) in Hr. rewrite length_rev in Hr.
        discriminate. }
      destruct (List.rev (a :: l)); [congruence | discriminate].
Qed.

(** The latest version of the amended [A] is [A2]; the public root has
    no successor. *)
Lemma latest_spec_witness :
  _latest amended_stack 0 = 0
  /\ In (_latest amended_stack 1) (allsuccessors amended_stack 1)
  /\ visible amended_stack (_latest amended_stack 1) = true.
Proof.
  split.
  - apply (proj1 (latest_spec amended_stack 0)). vm_compute. reflexivity.
  - destruct (proj2 (latest_spec amended_stack 1)) as (Hin & Hvis & _).
    + vm_compute. discriminate.
    + split; assumption.
Defined.

(** *** [restack]: locks and transaction in every outcome *)

Section RestackBalance.
Context `{Host}.

(** One turn of the loop of [restack] keeps the locks; it leaves the
    transaction running as it was, unless it ends in a conflict, in
    which case it has committed it. *)
Lemma restack_turn_frame tr o rev w out w' bk :
  w_tr w = mkTransaction tr 1 1 bk ->
  restack_turn tr o rev w = (out, w') ->
  w_wlock w' = w_wlock w /\ w_lock w' = w_lock w /\ w_local_tr w' = w_local_tr w
  /\ (w_tr w' = w_tr w
      \/ (out = inr InterventionRequired /\ w_tr w' = mkTransaction tr 0 1 bk)).
Proof.
  intros Ht. unfold restack_turn, try_except.
  destruct (_restackonce rev (Some o) w) as [[[]|e] w1] eqn:E;
    apply restackonce_frame in E as (Htr & Hwl & Hl & Hlt).
  - intros [= <- <-]. auto.
  - unfold close_and_reraise.
    destruct e; try (intros [= <- <-]; auto).
    destruct w1 as [r1 t1 wl1 l1 lt1 lg1]. cbn [w_tr w_wlock w_lock w_local_tr] in *.
    subst t1. rewrite Ht. run. rewrite Nat.eqb_refl. run.
    intros [= <- <-]. cbn [w_tr w_wlock w_lock w_local_tr]. auto 6.
Qed.

Lemma restack_loop_frame tr o revs w out w' bk :
  w_tr w = mkTransaction tr 1 1 bk ->
  for_each revs (restack_turn tr o) w = (out, w') ->
  w_wlock w' = w_wlock w /\ w_lock w' = w_lock w /\ w_local_tr w' = w_local_tr w
  /\ (w_tr w' = w_tr w
      \/ (out = inr InterventionRequired /\ w_tr w' = mkTransaction tr 0 1 bk)).
Proof.
  revert w. induction revs as [|rev revs IH]; intros w Ht; cbn [for_each].
  - intros [= <- <-]. auto.
  - unfold mbind, M_bind.
    destruct (restack_turn tr o rev w) as [[[]|e] w1] eqn:E;
      destruct (restack_turn_frame _ _ _ _ _ _ _ Ht E) as (Hwl & Hl & Hlt & Htr).
    + destruct Htr as [Htr | (Hf & _)]; [|discriminate].
      intros Hrest. apply IH in Hrest; [|congruence].
      destruct Hrest as (Hwl' & Hl' & Hlt' & Htr').
      destruct Htr' as [Htr' | (Ho & Htr')];
        (split; [congruence|]); (split; [congruence|]); (split; [congruence|]);
        [left; congruence | right; auto].
    + intros [= <- <-]. auto.
Qed.

(** X6: however [restack] ends -- refusal, success, conflict or any
    other error of the host -- it has released the two locks it took,
    and the transaction it opened is no longer running (it was committed
    or aborted), provided none was running when it started. *)
Theorem restack_balanced (opts : option rebaseopts) (w : world) out w' :
  tr_count (w_tr w) = 0%nat ->
  restack opts w = (out, w') ->
  w_wlock w' = w_wlock w /\ w_lock w' = w_lock w
  /\ w_local_tr w' = w_local_tr w /\ tr_count (w_tr w') = 0%nat.
Proof.
  destruct w as [r [id cnt us bk] wl l lt lg]. cbn [w_tr tr_count w_wlock w_lock w_local_tr].
  intros ->. unfold restack, cmdutil_checkunfinished, cmdutil_bailifchanged. run.
  destruct (unfinished_state r) as [msg|]; run.
  { intros [= <- <-]. cbn. auto. }
  destruct (snd (dirstate_parents r) =? nullrev); run.
  2: { intros [= <- <-]. cbn. auto. }
  destruct (uncommitted_changes r); run.
  { intros [= <- <-]. cbn. auto. }
  fold (restack_base r).
  destruct (_findrestacktargets r (restack_base r)) as [targets|]; run.
  2: { intros [= <- <-]. cbn. auto. }
  set (o := default (mkRebaseopts [] None []) opts).
  destruct (for_each targets (restack_turn (S id) o)
              (mkWorld r (mkTransaction (S id) 1 1 r) (S wl) (S l) (Some (S id))
                 (lg ++ [tr_opened "restack"]))) as [out1 w2] eqn:Hloop.
  pose proof Hloop as Hfr.
  eapply (restack_loop_frame (S id) o targets _ out1 w2 r) in Hfr; [|reflexivity].
  destruct Hfr as (Hwl & Hl & Hlt & Htr).
  run_in Hloop. fold o. rewrite Hloop.
  destruct w2 as [r2 t2 wl2 l2 lt2 lg2]. cbn [w_tr w_wlock w_lock w_local_tr] in *.
  subst wl2 l2 lt2.
  destruct out1 as [[]|e]; run.
  - destruct Htr as [-> | (Hf & _)]; [|discriminate].
    destruct (last (allsuccessors r2 (dot r2))) as [s|]; run.
    + destruct (commands_update s r2) as [[[]|e] r3]; run;
        repeat (rewrite !Nat.eqb_refl; run); cbn [Nat.eqb]; run;
        intros [= <- <-]; cbn; auto.
    + repeat (rewrite !Nat.eqb_refl; run); cbn [Nat.eqb]; run.
      intros [= <- <-]. cbn. auto.
  - destruct Htr as [-> | (_ & ->)]; run;
      repeat (rewrite !Nat.eqb_refl; run); cbn [Nat.eqb]; run;
      intros [= <- <-]; cbn; auto.
Qed.

End RestackBalance.

(** The run of [restack] that stops with a conflict. *)
Lemma restack_balanced_witness :
  w_wlock (snd (restack (H := simple_host [3]) None (fresh amended_stack))) = 0%nat
  /\ w_lock (snd (restack (H := simple_host [3]) None (fresh amended_stack))) = 0%nat
  /\ w_local_tr (snd (restack (H := simple_host [3]) None (fresh amended_stack))) = None
  /\ tr_count (w_tr (snd (restack (H := simple_host [3]) None (fresh amended_stack))))
     = 0%nat.
Proof.
  apply (restack_balanced (H := simple_host [3]) None (fresh amended_stack)
           (fst (restack (H := simple_host [3]) None (fresh amended_stack))));
    vm_compute; reflexivity.
Defined.

(** *** [restack] where nothing is obsolete *)

Section RestackNoMarkers.
Context `{Host}.

Lemma filter_none {A} (f : A -> bool) l :
  (forall x, f x = false) -> List.filter f l = [].
Proof.
  intros Hf. induction l as [|x l IH]; cbn; [reflexivity|]. now rewrite Hf.
Qed.

(** Without markers no revision has a precursor or a successor. *)
Lemma no_markers r rev :
  obsstore r = [] -> allprecursors r rev = [] /\ allsuccessors r rev = [].
Proof.
  intros Ho. unfold allprecursors, allsuccessors, marker_precursors,
    marker_successors, closure_fuel. rewrite Ho. cbn.
  split; now apply filter_none.
Qed.

(** The traversal finds no target when no revision has a precursor. *)
Lemma findrestacktargets_none r base :
  (forall x, allprecursors r x = []) -> _findrestacktargets r base = Some [].
Proof.
  intros Hp. unfold _findrestacktargets, bfs_run.
  destruct (bfs_loop_spec r (restack_children r base) base) as (visited & -> & _).
  cbn [targets]. rewrite filter_none; [reflexivity|].
  intros x. unfold is_target. now rewrite Hp.
Qed.

(** X7: in a repository without obsolescence markers [restack] has
    nothing to repair: it returns, having called neither the rebase nor
    the update (its transaction is opened and committed empty), with the
    repository and the locks as they were. *)
Theorem restack_without_markers (opts : option rebaseopts) (w : world) :
  let r := w_repo w in
  obsstore r = [] ->
  tr_count (w_tr w) = 0%nat ->
  unfinished_state r = None ->
  snd (dirstate_parents r) = nullrev ->
  uncommitted_changes r = false ->
  exists w',
    restack opts w = (inl tt, w')
    /\ w_repo w' = r
    /\ w_log w' = w_log w ++ [tr_opened "restack"; tr_committed]
    /\ w_wlock w' = w_wlock w /\ w_lock w' = w_lock w.
Proof.
  cbv zeta. destruct w as [r [id cnt us bk] wl l lt lg].
  cbn [w_repo w_tr tr_count w_log w_wlock w_lock].
  intros Hobs -> Hunf Hmerge Hdirty.
  unfold restack, cmdutil_checkunfinished, cmdutil_bailifchanged. run.
  rewrite Hunf. run. rewrite Hmerge, Z.eqb_refl. run. rewrite Hdirty. run.
  fold (restack_base r).
  rewrite findrestacktargets_none by (intros x; now apply no_markers).
  run. cbn [for_each]. run.
  rewrite (proj2 (no_markers r (dot r) Hobs)). cbn [last rev hd_error]. run.
  repeat (rewrite !Nat.eqb_refl; run). cbn [Nat.eqb]. run.
  eexists. split; [reflexivity|]. cbn [w_repo w_log w_wlock w_lock].
  rewrite <- app_assoc. auto.
Qed.

End RestackNoMarkers.

(** [hg rebase --restack] on the stack [A], [B], where nothing was
    amended. *)
Lemma restack_without_markers_witness :
  exists w',
    restack (H := simple_host []) None (fresh (two_stack false None)) = (inl tt, w')
    /\ w_repo w' = two_stack false None
    /\ w_log w' = [tr_opened "restack"; tr_committed].
Proof.
  destruct (restack_without_markers (H := simple_host []) None
              (fresh (two_stack false None)))
    as (w' & Hrun & Hrepo & Hlog & _); try reflexivity.
  exists w'. split; [exact Hrun|]. split; [exact Hrepo | exact Hlog].
Defined.

(** *** [amend]: an empty amend, and the bookmarks of the old changeset *)

Section AmendBookmarks.
Context `{Host}.

(** X8: when the commit machinery hands back the node of the old
    changeset, a plain [amend] (no [--fixup], no [--interactive]) says
    [nothing changed] and returns [0]: it moves no bookmark, creates no
    recovery bookmark, opens no transaction, and gives its locks back;
    the repository is the one the commit machinery left. *)
Theorem amend_nothing_changed (depth : nat) (opts : amendopts) (w : world)
    (message : string) (r1 : repo) :
  let r := w_repo w in
  let old := dot r in
  let opts' := amend_commitopts r opts message in
  o_fixup opts = false -> o_interactive opts = false ->
  o_rebase opts && _histediting r = false ->
  phaseof r old <> Public ->
  (length (wdir_parents r) <= 1)%nat ->
  cmdutil_logmessage opts = inl message ->
  cmdutil_amend old (amend_commitdate r opts) opts' (nonempty (children r old)) r
    = (inl (nodeof r old), r1) ->
  exists w',
    amend depth opts w = (inl (Some 0), w')
    /\ w_repo w' = r1
    /\ w_log w' = w_log (noticed w)
                  ++ [call_amend old opts'; ui_status ("nothing changed" ++ nl)]
    /\ w_tr w' = w_tr w /\ w_wlock w' = w_wlock w /\ w_lock w' = w_lock w
    /\ w_local_tr w' = w_local_tr w.
Proof.
  cbv zeta. destruct w as [r t wl l lt lg]. cbn [w_repo w_tr w_wlock w_lock w_local_tr].
  intros Hfix Hint Hreb Hpub Hmerge Hmsg Hamend.
  assert (Hbody : forall self, exists w',
    amend_body self opts (mkWorld r t wl l lt lg) = (inl (Some 0), w')
    /\ w_repo w' = r1
    /\ w_log w' = w_log (noticed (mkWorld r t wl l lt lg))
                  ++ [call_amend (dot r) (amend_commitopts r opts message);
                      ui_status ("nothing changed" ++ nl)]
    /\ w_tr w' = t /\ w_wlock w' = wl /\ w_lock w' = l /\ w_local_tr w' = lt).
  { intros self. unfold amend_body, noticed. run.
    rewrite Hreb, Hint, Hfix. cbn [andb].
    assert (Hph : phase_eqb (phaseof r (dot r)) Public = false)
      by (destruct (phaseof r (dot r)); [congruence | reflexivity | reflexivity]).
    rewrite Hph.
    assert (Hlen : (match length (wdir_parents r) with S (S _) => true | _ => false end) = false)
      by (destruct (wdir_parents r) as [|a [|b ps]]; cbn [length] in *; [reflexivity | reflexivity | lia]).
    rewrite Hlen, Hmsg.
    change (o_interactive (amend_commitopts r opts message)) with (o_interactive opts).
    rewrite Hint.
    destruct (evolution_allnewcommands r); run; rewrite Hamend; run;
      rewrite String.eqb_refl; run;
      (eexists; split; [reflexivity|]); cbn [w_repo w_log w_tr w_wlock w_lock w_local_tr];
      rewrite <- ?app_assoc; auto 10. }
  destruct depth as [|d]; cbn [amend];
    match goal with
    | |- context [amend_body ?self opts ?w] => exact (Hbody self)
    end.
Qed.

(** The loop that moves the old bookmarks, seen from one name. *)
Lemma move_lookup l (n : node) (m : gmap string node) b :
  fold_left (fun m bm => <[bm := n]> m) l m !! b
  = if existsb (String.eqb b) l then Some n else m !! b.
Proof.
  revert m. induction l as [|x l IH]; intros m; cbn [fold_left existsb]; [reflexivity|].
  rewrite IH. destruct (existsb (String.eqb b) l); [now rewrite orb_true_r|].
  rewrite orb_false_r, lookup_insert.
  destruct (String.eqb_spec b x) as [-> | Hne].
  - now rewrite decide_True.
  - now rewrite decide_False by congruence.
Qed.

Lemma endswith_neq a b :
  endswith a ".preamend" = true -> endswith b ".preamend" = false -> a <> b.
Proof. intros Ha Hb ->. congruence. Qed.

(** X9: a plain [amend] that commits a new node carries the bookmarks
    of the old changeset over to it: afterwards every bookmark whose
    name does not end in [.preamend] points at the new node if it
    pointed at the old one, and is otherwise as the commit machinery
    left it. *)
Theorem amend_moves_bookmarks (depth : nat) (opts : amendopts) (w : world)
    (message : string) (new : node) (r1 : repo) :
  let r := w_repo w in
  let old := dot r in
  o_fixup opts = false -> o_interactive opts = false -> o_rebase opts = false ->
  tr_count (w_tr w) = 0%nat ->
  phaseof r old <> Public ->
  (length (wdir_parents r) <= 1)%nat ->
  cmdutil_logmessage opts = inl message ->
  cmdutil_amend old (amend_commitdate r opts) (amend_commitopts r opts message)
    (nonempty (children r old)) r = (inl new, r1) ->
  new <> nodeof r old ->
  exists w',
    amend depth opts w = (inl None, w')
    /\ forall b, endswith b ".preamend" = false ->
         _bookmarks (w_repo w') !! b
         = if decide (_bookmarks r !! b = Some (nodeof r old))
           then Some new else _bookmarks r1 !! b.
Proof.
  cbv zeta. destruct w as [r [id cnt us bk] wl l lt lg]. cbn [w_repo w_tr tr_count].
  intros Hfix Hint Hreb Hcount Hpub Hmerge Hmsg Hamend Hnew. subst cnt.
  set (M := fold_left (fun m bm => <[bm := new]> m)
              (nodebookmarks r (nodeof r (dot r))) (_bookmarks r1)).
  assert (HM : forall b,
    M !! b = if decide (_bookmarks r !! b = Some (nodeof r (dot r)))
             then Some new else _bookmarks r1 !! b).
  { intros b. unfold M. rewrite move_lookup.
    destruct (existsb (String.eqb b) (nodebookmarks r (nodeof r (dot r)))) eqn:E.
    - apply existsb_exists in E as (x & Hx & Ex). apply String.eqb_eq in Ex. subst x.
      apply in_nodebookmarks in Hx. now rewrite decide_True.
    - rewrite decide_False; [reflexivity|]. intros Hb.
      apply in_nodebookmarks in Hb.
      assert (Ht : existsb (String.eqb b) (nodebookmarks r (nodeof r (dot r))) = true).
      { apply existsb_exists. exists b. split; [assumption | apply String.eqb_refl]. }
      congruence. }
  assert (Hbody : forall self, exists w',
    amend_body self opts (mkWorld r (mkTransaction id 0 us bk) wl l lt lg) = (inl None, w')
    /\ (_bookmarks (w_repo w') = M
        \/ (exists name v, endswith name ".preamend" = true
              /\ _bookmarks (w_repo w') = <[name := v]> M)
        \/ (exists name name' v, endswith name ".preamend" = true
              /\ endswith name' ".preamend" = true
              /\ _bookmarks (w_repo w') = delete name' (<[name := v]> M)))).
  { intros self. unfold amend_body. run.
    rewrite Hreb, Hint, Hfix. cbn [andb].
    assert (Hph : phase_eqb (phaseof r (dot r)) Public = false)
      by (destruct (phaseof r (dot r)); [congruence | reflexivity | reflexivity]).
    rewrite Hph.
    assert (Hlen : (match length (wdir_parents r) with S (S _) => true | _ => false end) = false)
      by (destruct (wdir_parents r) as [|a [|b ps]]; cbn [length] in *; [reflexivity | reflexivity | lia]).
    rewrite Hlen, Hmsg.
    change (o_interactive (amend_commitopts r opts message)) with (o_interactive opts).
    rewrite Hint.
    assert (Hne : (new =? nodeof r (dot r))%string = false) by now apply String.eqb_neq.
    unfold _histediting in *.
    destruct (evolution_allnewcommands r); run; rewrite Hamend; run; rewrite Hne; run;
      destruct (nonempty (children r (dot r))) eqn:Ek; run;
      destruct (histedit_state r1) eqn:Eh; run;
      unfold _usereducation; run;
      try (destruct (config_education r1) as [edu|];
           [destruct (negb (edu =? "")%string)|]); run;
      rewrite move_loop; run;
      cbn [set_bookmarks histedit_state config_userestack]; rewrite ?Eh; run;
      destruct (config_userestack r1) eqn:Eu; run;
      fold M; destruct (str_truthy (bmactive r)) eqn:Ea; run;
      destruct (_bookmarks (set_bookmarks M r1)
                  !! _preamendname (set_bookmarks M r1) (nodeof r (dot r)))
        as [target|] eqn:Et; run;
      repeat (rewrite !Nat.eqb_refl; run); cbn [Nat.eqb]; run;
      (eexists; split; [reflexivity|]);
      cbn [w_repo set_bookmarks _bookmarks];
      first [ left; reflexivity
            | right; left; eexists _, _; split; [apply preamendname_endswith | reflexivity]
            | right; right; eexists _, _, _;
              split; [apply preamendname_endswith|];
              split; [apply preamendname_endswith | reflexivity] ]. }
  assert (Hfin : forall (w' : world),
    (_bookmarks (w_repo w') = M
     \/ (exists name v, endswith name ".preamend" = true
           /\ _bookmarks (w_repo w') = <[name := v]> M)
     \/ (exists name name' v, endswith name ".preamend" = true
           /\ endswith name' ".preamend" = true
           /\ _bookmarks (w_repo w') = delete name' (<[name := v]> M))) ->
    forall b, endswith b ".preamend" = false ->
      _bookmarks (w_repo w') !! b
      = if decide (_bookmarks r !! b = Some (nodeof r (dot r)))
        then Some new else _bookmarks r1 !! b).
  { intros w' Hshape b Hb. rewrite <- HM.
    destruct Hshape as [-> | [(name & v & Hn & ->) | (name & name' & v & Hn & Hn' & ->)]].
    - reflexivity.
    - rewrite lookup_insert. rewrite decide_False; [reflexivity|].
      now apply endswith_neq.
    - rewrite lookup_delete. rewrite decide_False by now apply endswith_neq.
      rewrite lookup_insert. rewrite decide_False; [reflexivity|].
      now apply endswith_neq. }
  destruct depth as [|d]; cbn [amend];
    match goal with
    | |- context [amend_body ?self opts ?w] =>
        destruct (Hbody self) as (w' & -> & Hshape); exists w';
        split; [reflexivity | now apply Hfin]
    end.
Qed.

End AmendBookmarks.

(** [hg amend] with nothing to commit. *)
Lemma amend_nothing_changed_witness :
  exists w',
    amend (H := host_with (simple_rebase []) idle_amend) 1 plain_opts
      (fresh bookmarked_stack) = (inl (Some 0), w')
    /\ w_repo w' = bookmarked_stack
    /\ w_tr w' = w_tr (fresh bookmarked_stack).
Proof.
  destruct (amend_nothing_changed (H := host_with (simple_rebase []) idle_amend)
              1 plain_opts (fresh bookmarked_stack) "" bookmarked_stack)
    as (w' & Hrun & Hrepo & _ & Htr & _);
    try reflexivity; try discriminate; try (cbn; lia).
  exists w'. split; [exact Hrun|]. split; [exact Hrepo | exact Htr].
Defined.

(** [hg amend] of [A], which carries the bookmark [feature]. *)
Lemma amend_moves_bookmarks_witness :
  exists w',
    amend (H := simple_host []) 1 plain_opts (fresh bookmarked_stack) = (inl None, w')
    /\ _bookmarks (w_repo w') !! "feature" = Some "A'".
Proof.
  destruct (amend_moves_bookmarks (H := simple_host []) 1 plain_opts
              (fresh bookmarked_stack) "" "A'"
              (snd (simple_amend 1 "0 0" plain_opts true bookmarked_stack)))
    as (w' & Hrun & Hb).
  - reflexivity.
  - reflexivity.
  - reflexivity.
  - reflexivity.
  - vm_compute. discriminate.
  - vm_compute. lia.
  - reflexivity.
  - vm_compute. reflexivity.
  - vm_compute. discriminate.
  - exists w'. split; [exact Hrun|].
    etransitivity; [apply (Hb "feature"); vm_compute; reflexivity|].
    vm_compute. reflexivity.
Defined.

(** *** [restack]: an error that is not a conflict *)

Section RestackRollback.
Context `{Host}.

(** X10: when the rebase of a target raises anything but the conflict,
    [restack] lets the error through and its transaction is aborted:
    the repository is again the one [restack] started from, whatever
    the earlier targets and the failed rebase had done to it, and the
    failed rebase is the last thing that was asked of the host. *)
Theorem restack_error_rolls_back (opts : option rebaseopts) (w : world)
    (pre : list Z) (t : Z) (post : list Z) (w2 : world) (e : exn) (r3 : repo) :
  let o := default (mkRebaseopts [] None []) opts in
  let args := rebase_call (w_repo w2) t (Some o) in
  e <> InterventionRequired ->
  tr_count (w_tr w) = 0%nat ->
  unfinished_state (w_repo w) = None ->
  snd (dirstate_parents (w_repo w)) = nullrev ->
  uncommitted_changes (w_repo w) = false ->
  _findrestacktargets (w_repo w) (restack_base (w_repo w))
    = Some (pre ++ t :: post) ->
  for_each pre (restack_turn (opened_tr w) o) (block_entry "restack" w)
    = (inl tt, w2) ->
  ro_rev args <> [] ->
  rebasemod_rebase args (w_repo w2) = (inr e, r3) ->
  exists w',
    restack opts w = (inr e, w')
    /\ w_repo w' = w_repo w
    /\ w_log w' = w_log w2 ++ [call_rebase args; tr_aborted].
Proof.
  cbv zeta. intros He Hcount Hunf Hmerge Hdirty Htargets Hpre Hsrc Hreb.
  pose proof (restackonce_raises t (Some (default (mkRebaseopts [] None []) opts))
                w2 e r3 Hsrc Hreb) as Hfail.
  destruct (other_error_rolls_back opts w pre t post w2 _ e
              He Hcount Hunf Hmerge Hdirty Htargets Hpre Hfail)
    as (w' & Hrun & Hrepo & Hlog).
  exists w'. split; [exact Hrun|]. split; [exact Hrepo|].
  rewrite Hlog. cbn [w_log set_repo add_log]. now rewrite <- app_assoc.
Qed.

End RestackRollback.

(** The rebase of [B] onto [A2] fails after copying [B]: the copy is
    gone again. *)
Lemma restack_error_rolls_back_witness :
  exists w',
    restack (H := host_with broken_rebase simple_amend) None (fresh amended_stack)
    = (inr (HostError "rebase"), w')
    /\ w_repo w' = amended_stack.
Proof.
  destruct (restack_error_rolls_back (H := host_with broken_rebase simple_amend)
              None (fresh amended_stack) [] 3 []
              (block_entry "restack" (fresh amended_stack))
              (HostError "rebase")
              (snd (broken_rebase (mkRebaseopts [2] (Some 3) []) amended_stack)))
    as (w' & Hrun & Hrepo & _);
    try reflexivity; try discriminate; try (vm_compute; reflexivity).
  exists w'. split; [exact Hrun | exact Hrepo].
Defined.

(** *** [_getchildrelationships] and [ctx.children()] *)

Section ChildrenAgree.
Variable r : repo.
Variable roots : list Z.

#[local] Abbreviation dstep :=
  (fun acc rev =>
     if inZ rev roots || existsb (fun p => inZ p acc) (parentrevs r rev)
     then acc ++ [rev] else acc).

(** The scan of [descendants] keeps what it has and only adds revisions
    it passes. *)
Lemma dscan_incl l acc x :
  In x (fold_left dstep l acc) -> In x acc \/ In x l.
Proof.
  revert acc. induction l as [|y l IH]; intros acc; cbn [fold_left]; [auto|].
  intros Hx. apply IH in Hx as [Hx | Hx]; [|now right; right].
  destruct (inZ y roots || existsb (fun p => inZ p acc) (parentrevs r y)); [|auto].
  apply in_app_iff in Hx as [Hx | [<- | []]]; [auto | right; now left].
Qed.

Lemma dscan_keeps l acc x : In x acc -> In x (fold_left dstep l acc).
Proof.
  revert acc. induction l as [|y l IH]; intros acc Hx; cbn [fold_left]; [assumption|].
  apply IH.
  destruct (inZ y roots || existsb (fun p => inZ p acc) (parentrevs r y)); [|assumption].
  apply in_app_iff. now left.
Qed.

(** On an ascending list, a revision with a smaller parent that was
    kept is kept too. *)
Lemma dscan_closed l acc p c :
  StronglySorted Z.lt l ->
  In c l -> In p (parentrevs r c) -> p < c ->
  In p (fold_left dstep l acc) -> In c (fold_left dstep l acc).
Proof.
  intros Hs. revert acc. induction Hs as [|y l Hs IH Hall]; intros acc Hc Hp Hlt Hin;
    [contradiction|].
  cbn [fold_left] in *. destruct Hc as [-> | Hc].
  - apply dscan_keeps.
    assert (Hacc : In p acc).
    { apply dscan_incl in Hin as [Hin | Hin].
      - destruct (inZ c roots || existsb (fun q => inZ q acc) (parentrevs r c));
          [|assumption].
        apply in_app_iff in Hin as [Hin | [<- | []]]; [assumption | lia].
      - rewrite List.Forall_forall in Hall. specialize (Hall p Hin). lia. }
    assert (He : existsb (fun q => inZ q acc) (parentrevs r c) = true).
    { apply existsb_exists. exists p. split; [assumption | now apply inZ_In]. }
    rewrite He, orb_true_r. apply in_app_iff. right. now left.
  - now apply IH.
Qed.

(** X24: on a changelog in which parents come before their children,
    the child relation that [_getchildrelationships] builds agrees with
    [ctx.children()] for every revision among the descendants of
    [revs]: there, [childrenof[p]] holds exactly the visible children of
    [p]. *)
Theorem getchildrelationships_agrees (p : Z) :
  (forall c q, visible r c = true -> In q (parentrevs r c) -> q <> nullrev -> q < c) ->
  In p (descendants r roots) ->
  forall c, In c (dict_get (_getchildrelationships r roots) p) <-> In c (children r p).
Proof.
  intros Hwf Hp c. rewrite getchildrelationships_spec.
  assert (Hvis : forall x, In x (descendants r roots) -> In x (visiblerevs r)).
  { intros x Hx. unfold descendants in Hx. apply dscan_incl in Hx as [[] | Hx].
    assumption. }
  assert (Hpn : p <> nullrev).
  { apply Hvis in Hp. unfold visiblerevs in Hp. apply filter_In in Hp as [Hp _].
    apply list_elem_of_In, elem_of_seqZ in Hp. unfold nullrev. lia. }
  unfold children. rewrite filter_In, inZ_In. split.
  - intros (Hc & Hpar & _). split; [now apply Hvis | assumption].
  - intros (Hc & Hpar). split; [|now split].
    unfold descendants.
    apply dscan_closed with (p := p);
      [apply visiblerevs_sorted | assumption | assumption | | exact Hp].
    apply Hwf; [|assumption..]. unfold visible. now apply inZ_In.
Qed.

End ChildrenAgree.

(** On the amended stack, seen from [A] and its successor [A2]: the
    children of [A] are [B] in both relations. *)
Lemma getchildrelationships_agrees_witness :
  In 2 (dict_get (_getchildrelationships amended_stack [1; 3]) 1)
  <-> In 2 (children amended_stack 1).
Proof.
  refine (getchildrelationships_agrees amended_stack [1; 3] 1 _ _ 2).
  - intros c q Hc Hq Hn. unfold visible in Hc. apply inZ_In in Hc.
    vm_compute in Hc.
    repeat (destruct Hc as [<- | Hc];
            [vm_compute in Hq;
             repeat (destruct Hq as [<- | Hq]; [first [lia | now contradiction Hn]|]);
             contradiction|]).
    contradiction.
  - vm_compute. tauto.
Defined.

(** *** [fixupamend]: locks and transaction in every outcome *)

Section FixupBalance.
Context `{Host}.





End FixupBalance.


(** *** [_restackonce]: every outcome *)

Section RestackOnceOutcome.
Context `{Host}.

(** [[repo[r] for r in revs]] raises at the first hidden revision. *)
Lemma changectxs_find r l :
  changectxs r l =
  match List.find (fun p => negb (visible r p)) l with
  | Some y => inr (FilteredRepoLookupError y)
  | None => inl l
  end.
Proof.
  induction l as [|p l IH]; [reflexivity|].
  cbn [changectxs List.find]. unfold changectx.
  destruct (visible r p); cbn [negb]; [|reflexivity].
  rewrite IH. now destruct (List.find (fun p0 => negb (visible r p0)) l).
Qed.

Lemma deinhibit_in ctxs r n :
  In n (_obsinhibit (_deinhibit ctxs r)) <->
  In n (_obsinhibit r)
  /\ (inhibitmod r = true -> ~ In n (map (nodeof r) ctxs)).
Proof.
  unfold _deinhibit, _deinhibitmarkers. destruct (inhibitmod r).
  - cbn [_obsinhibit set_obsinhibit]. rewrite filter_In, negb_true_iff. split.
    + intros [Hin Hex]. split; [assumption|]. intros _ Hn.
      assert (Ht : existsb (String.eqb n) (map (nodeof r) ctxs) = true).
      { apply existsb_exists. exists n. split; [assumption | apply String.eqb_refl]. }
      congruence.
    + intros [Hin Hno]. split; [assumption|].
      destruct (existsb (String.eqb n) (map (nodeof r) ctxs)) eqn:E; [|reflexivity].
      exfalso. apply existsb_exists in E as (m & Hm & Heq).
      apply String.eqb_eq in Heq. subst m. now apply Hno.
  - split; [intros Hin; split; [assumption | discriminate] | tauto].
Qed.

Lemma deinhibit_set_obsinhibit ctxs r :
  _deinhibit ctxs r = set_obsinhibit (_obsinhibit (_deinhibit ctxs r)) r.
Proof.
  unfold _deinhibit, _deinhibitmarkers. destruct (inhibitmod r); now destruct r.
Qed.

(** X26: what [_restackonce] does in every case.  Without a visible
    descendant of the precursors of [rev] outside them, it returns and
    the world is untouched.  Otherwise its one call to the host is the
    rebase of exactly those descendants onto [rev]; an exception of the
    rebase goes to the caller with the repository as the rebase left
    it; when the rebase returns and one of the precursors is hidden by
    then, the look-up of the first such precursor raises and the
    repository is as the rebase left it, bookmarks and inhibition
    markers included; and when the rebase returns and every precursor is
    visible, the repository is the one the rebase left, in which only
    the bookmarks and the inhibition markers differ: the bookmarks
    ending in [.preamend] that pointed at a precursor are gone, and so
    are, when the inhibit extension is there, the inhibition markers on
    the precursors.  Locks and transaction are never touched. *)
Theorem restackonce_outcome (rev : Z) (opts : option rebaseopts) (w : world) :
  let r := w_repo w in
  let precursors := allprecursors r rev in
  let source := descendants_minus r precursors in
  let o := mkRebaseopts source (Some rev)
             (ro_other (default (mkRebaseopts [] None []) opts)) in
  (source = [] -> _restackonce rev opts w = (inl tt, w))
  /\ (source <> [] ->
      forall res r', rebasemod_rebase o r = (res, r') ->
      let w1 := set_repo r' (add_log (call_rebase o) w) in
      match res, List.find (fun p => negb (visible r' p)) precursors with
      | inr e, _ => _restackonce rev opts w = (inr e, w1)
      | inl _, Some y =>
          _restackonce rev opts w = (inr (FilteredRepoLookupError y), w1)
      | inl _, None =>
          let r'' := _deinhibit precursors (_clearpreamend precursors r') in
          _restackonce rev opts w = (inl tt, set_repo r'' w1)
          /\ r'' = set_obsinhibit (_obsinhibit r'') (set_bookmarks (_bookmarks r'') r')
          /\ (forall b,
                _bookmarks r'' !! b =
                match _bookmarks r' !! b with
                | Some n =>
                    if endswith b ".preamend"
                       && existsb (fun p => String.eqb (nodeof r' p) n) precursors
                    then None else Some n
                | None => None
                end)
          /\ (forall n,
                In n (_obsinhibit r'') <->
                In n (_obsinhibit r')
                /\ (inhibitmod r' = true -> ~ In n (map (nodeof r') precursors)))
      end).
Proof.
  cbv zeta. destruct w as [r t wl l lt lg]. cbn [w_repo w_log].
  unfold _restackonce, mbind, M_bind, getrepo, call, lift, modify.
  cbn [w_repo w_log set_repo add_log].
  remember (allprecursors r rev) as precursors eqn:Ep.
  remember (descendants_minus r precursors) as source eqn:Es.
  destruct source as [|s0 source'].
  { split; [reflexivity | congruence]. }
  split; [discriminate|]. intros _ res r' Er.
  cbn [nonempty negb w_repo w_log set_repo add_log].
  rewrite Er. cbn [w_repo set_repo add_log].
  destruct res as [[]|e]; [|reflexivity].
  rewrite changectxs_find.
  destruct (List.find (fun p => negb (visible r' p)) precursors) as [y|];
    [reflexivity|].
  cbn [w_repo set_repo].
  destruct (clearpreamend_frame precursors r') as (Hcl & Hi & Hm & _).
  destruct (deinhibit_frame precursors (_clearpreamend precursors r')) as (_ & Hb').
  split; [reflexivity|]. split; [|split].
  - rewrite Hb'.
    rewrite (deinhibit_set_obsinhibit precursors (_clearpreamend precursors r')) at 1.
    now rewrite (clearpreamend_set_bookmarks precursors r') at 2.
  - intros b. rewrite Hb'. apply clearpreamend_lookup.
  - intros n. rewrite deinhibit_in. rewrite Hi, Hm.
    assert (Hn : map (nodeof (_clearpreamend precursors r')) precursors
                 = map (nodeof r') precursors).
    { apply map_ext. intros p. now apply nodeof_changelog. }
    now rewrite Hn.
Qed.

End RestackOnceOutcome.

(** [_restackonce] on a revision without precursors; on the amended
    [A2], whose precursor still carries the child [B]; and on [A2] of
    [two_precursors], where the rebase hides the precursor [A0]. *)
Lemma restackonce_outcome_witness :
  _restackonce (H := simple_host []) 0 None (fresh amended_stack)
  = (inl tt, fresh amended_stack)
  /\ (exists r'',
        _restackonce (H := simple_host []) 3 None (fresh amended_stack)
        = (inl tt,
           set_repo r''
             (add_log (call_rebase (mkRebaseopts [2] (Some 3) []))
                (fresh amended_stack))))
  /\ (exists r',
        _restackonce (H := host_with hiding_rebase simple_amend) 5 None
          (fresh two_precursors)
        = (inr (FilteredRepoLookupError 1),
           set_repo r'
             (add_log (call_rebase (mkRebaseopts [2; 4] (Some 5) []))
                (fresh two_precursors)))
        /\ _bookmarks r' = _bookmarks two_precursors).
Proof.
  pose proof (restackonce_outcome (H := simple_host []) 0 None (fresh amended_stack))
    as H0.
  pose proof (restackonce_outcome (H := simple_host []) 3 None (fresh amended_stack))
    as H3.
  pose proof (restackonce_outcome (H := host_with hiding_rebase simple_amend) 5 None
                (fresh two_precursors)) as H5.
  cbv zeta in H0, H3, H5.
  destruct H0 as [H0 _]. destruct H3 as [_ H3]. destruct H5 as [_ H5].
  split; [apply H0; vm_compute; reflexivity|]. split.
  - specialize (H3 ltac:(vm_compute; discriminate) (inl tt)
                  (snd (simple_rebase [] (mkRebaseopts [2] (Some 3) []) amended_stack))
                  ltac:(vm_compute; reflexivity)).
    destruct H3 as (Hrun & _). eexists. exact Hrun.
  - specialize (H5 ltac:(vm_compute; discriminate) (inl tt)
                  (snd (hiding_rebase (mkRebaseopts [2; 4] (Some 5) []) two_precursors))
                  ltac:(vm_compute; reflexivity)).
    eexists. split; [exact H5 | vm_compute; reflexivity].
Defined.

End FbamendMore.


(** ** Properties of [_hideopts] and [unamend] *)
Module FbamendCommandsSpec.
Import Fbamend Scenarios FbamendCommands UnamendScenarios FbamendSpec.

(** *** [_hideopts] *)

Lemma combine_seq_snoc {A} (l : list A) x s :
  combine (seq s (length (l ++ [x]))) (l ++ [x])
  = combine (seq s (length l)) l ++ [((s + length l)%nat, x)].
Proof.
  revert s. induction l as [|y l IH]; intros s; cbn.
  - now rewrite Nat.add_0_r.
  - rewrite IH. now rewrite Nat.add_succ_r.
Qed.

Lemma enumerate_snoc {A} (l : list A) x :
  enumerate (l ++ [x]) = enumerate l ++ [(length l, x)].
Proof. unfold enumerate. now rewrite combine_seq_snoc. Qed.

(** The loop over the pairs of [l], run on [l] followed by anything. *)
Lemma hideopts_loop_spec opts l tail :
  hideopts_loop (List.rev (enumerate l)) opts (l ++ tail)
  = Some (List.filter (fun o => negb (str_in (opt_long o) opts)) l ++ tail).
Proof.
  revert tail. induction l as [|x l IH] using rev_ind; intros tail; [reflexivity|].
  rewrite enumerate_snoc, rev_app_distr. cbn [List.rev app hideopts_loop].
  rewrite List.filter_app. cbn [List.filter].
  destruct (str_in (opt_long x) opts); cbn [negb].
  - unfold del_at. rewrite <- app_assoc. cbn [app].
    assert (Hlt : (length l <? length (l ++ x :: tail))%nat = true).
    { apply Nat.ltb_lt. rewrite length_app. cbn. lia. }
    rewrite Hlt, delete_middle, IH. now rewrite app_nil_r.
  - rewrite <- !app_assoc. cbn [app]. apply IH.
Qed.

(** X20: [_hideopts], which deletes by index while walking the options
    backwards, never deletes out of range and leaves exactly the
    options whose long name is not in [opts], in their original
    order. *)
Theorem hideopts_filters (entry1 : list cmdopt) (opts : list string) :
  _hideopts entry1 opts
  = Some (List.filter (fun o => negb (str_in (opt_long o) opts)) entry1).
Proof.
  unfold _hideopts. rewrite <- (app_nil_r entry1) at 2.
  rewrite hideopts_loop_spec. now rewrite app_nil_r.
Qed.

(** *** [unamend] *)

Section UnamendProps.
Context `{Host} `{UnamendHost}.

(** X21: [unamend] checks before it touches anything: without the
    inhibit extension, when the current changeset does not have exactly
    one precursor marker (the message gives their number), and when it
    has children, it raises an abort and the world is as it was -- no
    lock taken, no call to the host. *)
Theorem unamend_refuses (w : world) :
  let r := w_repo w in
  let markers := precursormarkers r (nodeof r (dot r)) in
  (extensions_find_inhibit r = false ->
     unamend w
     = (inr (Abort "unamend requires inhibit extension to be enabled"
               (Some "please add inhibit to the list of enabled extensions")), w))
  /\ (extensions_find_inhibit r = true -> length markers <> 1%nat ->
      unamend w
      = (inr (Abort ("changeset must have one precursor, found "
                     ++ pretty (length markers) ++ " precursors") None), w))
  /\ (forall prec succs p,
        extensions_find_inhibit r = true -> markers = [(prec, succs)] ->
        revof r prec = Some p -> children r (dot r) <> [] ->
        unamend w = (inr (Abort "cannot unamend in the middle of a stack" None), w)).
Proof.
  cbv zeta. destruct w as [r t wl l lt lg]. cbn [w_repo]. split; [|split].
  - intros Hi. unfold unamend. run. rewrite Hi. run. reflexivity.
  - intros Hi Hn. unfold unamend. run. rewrite Hi. run.
    apply Nat.eqb_neq in Hn. rewrite Hn. run. reflexivity.
  - intros prec succs p Hi Hm Hp Hk. unfold unamend. run. rewrite Hi. run.
    rewrite Hm. cbn [length Nat.eqb map fst List.hd]. run.
    unfold unfi_lookup. rewrite Hp. run.
    apply nonempty_spec in Hk. rewrite Hk. run. reflexivity.
Qed.

(** X22: when [unamend] goes through, with every call to the host
    succeeding, the bookmarks that were on the current changeset are on
    its precursor in the repository that the transaction commits
    ([moved]), every other bookmark being as the dirstate rebuild left
    it; the obsolescence marker for the current changeset is created
    after the commit, and the locks are given back. *)
Theorem unamend_moves_bookmarks (w : world) (prec : node) (succs : list node)
    (p : Z) (r1 r2 r3 r5 : repo) :
  let r := w_repo w in
  let cur := nodeof r (dot r) in
  let moved :=
    set_bookmarks
      (fold_left (fun m bm => <[bm := prec]> m) (nodebookmarks r cur) (_bookmarks r3))
      r3 in
  extensions_find_inhibit r = true ->
  precursormarkers r cur = [(prec, succs)] ->
  revof r prec = Some p ->
  children r (dot r) = [] ->
  tr_count (w_tr w) = 0%nat ->
  inhibit_inhibitmarkers [prec] r = (inl tt, r1) ->
  manifest_diff p r1 = (inl tt, r2) ->
  dirstate_rebuild prec r2 = (inl tt, r3) ->
  obsolete_createmarkers [(cur, [])] moved = (inl tt, r5) ->
  exists w',
    unamend w = (inl tt, w')
    /\ w_repo w' = r5
    /\ w_log w' = w_log w ++ [tr_opened "unamend"; tr_committed;
                              call_createmarkers [(cur, [])]]
    /\ w_wlock w' = w_wlock w /\ w_lock w' = w_lock w
    /\ tr_count (w_tr w') = 0%nat
    /\ forall b,
         _bookmarks moved !! b
         = if decide (_bookmarks r !! b = Some cur)
           then Some prec else _bookmarks r3 !! b.
Proof.
  cbv zeta. destruct w as [r [id cnt us bk] wl l lt lg].
  cbn [w_repo w_tr tr_count w_log w_wlock w_lock].
  intros Hi Hm Hp Hk -> H1 H2 H3 H5.
  unfold unamend, hostcall. run. rewrite Hi. run.
  rewrite Hm. cbn [length Nat.eqb map fst List.hd]. run.
  unfold unfi_lookup. rewrite Hp. run. rewrite Hk. run.
  rewrite H1. run. rewrite H2. run. rewrite H3. run.
  rewrite move_loop. run. rewrite Nat.eqb_refl. run. cbn [Nat.eqb]. run.
  rewrite H5. run.
  eexists. split; [reflexivity|]. cbn [w_repo w_log w_wlock w_lock w_tr tr_count].
  split; [reflexivity|]. split; [now rewrite <- !app_assoc|].
  split; [reflexivity|]. split; [reflexivity|]. split; [reflexivity|].
  intros b. cbn [_bookmarks set_bookmarks]. rewrite FbamendMore.move_lookup.
  destruct (existsb (String.eqb b) (nodebookmarks r (nodeof r (dot r)))) eqn:E.
  - apply existsb_exists in E as (x & Hx & Ex). apply String.eqb_eq in Ex. subst x.
    apply in_nodebookmarks in Hx. now rewrite decide_True.
  - rewrite decide_False; [reflexivity|]. intros Hb. apply in_nodebookmarks in Hb.
    assert (Ht : existsb (String.eqb b) (nodebookmarks r (nodeof r (dot r))) = true).
    { apply existsb_exists. exists b. split; [assumption | apply String.eqb_refl]. }
    congruence.
Qed.

End UnamendProps.

(** [hg unamend] on [A], which was never amended, and on [A] of the
    stack [A], [B]. *)
Lemma unamend_refuses_witness :
  unamend (H := simple_host []) (fresh (two_stack false None))
  = (inr (Abort "changeset must have one precursor, found 0 precursors" None),
     fresh (two_stack false None)).
Proof.
  apply (proj1 (proj2 (unamend_refuses (H := simple_host [])
                         (fresh (two_stack false None))))).
  - reflexivity.
  - vm_compute. discriminate.
Defined.

(** [hg unamend] on [A2], the amended [A], which carries [feature]:
    afterwards [feature] is on [A] again. *)
Lemma unamend_moves_bookmarks_witness :
  exists w',
    unamend (H := simple_host []) (fresh amended_once) = (inl tt, w')
    /\ w_log w' = [tr_opened "unamend"; tr_committed; call_createmarkers [("A2", [])]]
    /\ _bookmarks (w_repo w') !! "feature" = Some "A".
Proof.
  pose (R1 := snd (inhibit_inhibitmarkers ["A"] amended_once)).
  pose (R3 := snd (dirstate_rebuild "A" R1)).
  pose (R4 := set_bookmarks
                (fold_left (fun m bm => <[bm := "A"]> m)
                   (nodebookmarks amended_once "A2") (_bookmarks R3)) R3).
  pose (R5 := snd (@obsolete_createmarkers (simple_host []) [("A2", [])] R4)).
  destruct (unamend_moves_bookmarks (H := simple_host []) (fresh amended_once)
              "A" ["A2"] 1 R1 R1 R3 R5)
    as (w' & Hrun & Hrepo & Hlog & _).
  - reflexivity.
  - vm_compute. reflexivity.
  - vm_compute. reflexivity.
  - vm_compute. reflexivity.
  - reflexivity.
  - vm_compute. reflexivity.
  - vm_compute. reflexivity.
  - vm_compute. reflexivity.
  - vm_compute. reflexivity.
  - exists w'. split; [exact Hrun|]. split; [exact Hlog|].
    rewrite Hrepo. vm_compute. reflexivity.
Defined.

End FbamendCommandsSpec.

(** ** Further properties of [p4.py] *)
Module P4More.
Import P4Parsing.

(** *** [P4Changelist.load] *)

Lemma append_inj_r (p a b : string) : (p ++ a = p ++ b)%string -> a = b.
Proof. induction p as [|c p IH]; cbn; [auto|]. intros [= E]. auto. Qed.

(** Different indices give different field names. *)
Lemma field_inj name i j : field name i = field name j -> i = j.
Proof. unfold field. intros E. apply append_inj_r in E. now apply pretty_nat_inj in E. Qed.

(** A dictionary that has [name0] ... [name<i>] has more than [i]
    entries. *)
Lemma fields_bounded (info : gmap string string) name i :
  (forall j, (j <= i)%nat -> info !! field name j <> None) ->
  (i < size info)%nat.
Proof.
  intros Hall.
  set (keys := field name <$> seq 0 (S i)).
  assert (Hnd : NoDup keys).
  { apply NoDup_fmap_2; [|apply NoDup_seq]. intros a b. apply field_inj. }
  assert (Hsub : (list_to_set keys : gset string) ⊆ dom info).
  { intros k Hk. apply elem_of_list_to_set, list_elem_of_fmap in Hk as (j & -> & Hj).
    apply elem_of_seq in Hj. apply elem_of_dom.
    destruct (info !! field name j) eqn:E; [eauto|].
    exfalso. apply (Hall j); [lia | assumption]. }
  apply subseteq_size in Hsub. rewrite size_list_to_set in Hsub by assumption.
  rewrite size_dom in Hsub. unfold keys in Hsub. rewrite length_fmap, length_seq in Hsub.
  lia.
Qed.

(** [nfiles] is the first index without a [depotFile] field. *)
Lemma nfiles_spec (info : gmap string string) :
  (nfiles info <= size info)%nat
  /\ info !! field "depotFile" (nfiles info) = None
  /\ forall i, (i < nfiles info)%nat -> info !! field "depotFile" i <> None.
Proof.
  unfold nfiles.
  destruct (list_find (fun i => info !! field "depotFile" i = None)
              (seq 0 (S (size info)))) as [[k n]|] eqn:E.
  - apply list_find_Some in E as (Hk & Hn & Hmin).
    apply lookup_seq in Hk as [-> Hk]. cbn [Nat.add] in *.
    split; [lia|]. split; [assumption|].
    intros i Hi. apply (Hmin i i); [|assumption].
    apply lookup_seq. split; lia.
  - exfalso. apply list_find_None in E.
    assert (Hall : forall j, (j <= size info)%nat -> info !! field "depotFile" j <> None).
    { intros j Hj. rewrite List.Forall_forall in E. apply E.
      apply list_elem_of_In, elem_of_seq. lia. }
    apply fields_bounded in Hall. lia.
Qed.

Section LoadProps.
Variable int : string -> option Z.

(** The loop reaches its [break] or raises: it does not run out of
    passes when a missing index lies within reach. *)
Lemma load_loop_returns (info : gmap string string) n fuel i files :
  info !! field "depotFile" n = None -> (i <= n)%nat -> (n - i < fuel)%nat ->
  exists res, load_loop int fuel info i files = Some res.
Proof.
  intros Hgap. revert i files. induction fuel as [|k IH]; intros i files Hi Hf; [lia|].
  cbn [load_loop]. destruct (info !! field "depotFile" i) as [fname|] eqn:Ef; [|eauto].
  destruct (ebind (getitem info (field "rev" i)) (to_int int)) as [r|e]; [|eauto].
  destruct (getitem info (field "action" i)) as [a|e]; [|eauto].
  assert (i <> n) by (intros ->; congruence).
  apply IH; lia.
Qed.

(** X11: [load] comes to an end on every description: the loop over
    [depotFile0], [depotFile1], ... stops (or raises) after at most as
    many passes as the dictionary has entries, plus one. *)
Theorem load_terminates (info : gmap string string) :
  exists res, load int info = Some res.
Proof.
  unfold load. destruct (nfiles_spec info) as (Hle & Hgap & _).
  destruct (load_loop_returns info (nfiles info) (S (size info)) 0 ∅ Hgap)
    as ([files|e] & ->); [lia | lia | eauto | eauto].
Qed.

(** The inserts of the loop, seen as one dictionary. *)
Lemma entries_S names revs actions n :
  entries names revs actions (S n)
  = (names n, P4.mkFileinfo (revs n) (actions n)) :: entries names revs actions n.
Proof. unfold entries. now rewrite seq_S, map_app, rev_app_distr. Qed.

(** The loop on well-formed entries [i .. n-1]. *)
Lemma load_loop_run (info : gmap string string) names revs actions n fuel i :
  (forall j, (j < n)%nat ->
     info !! field "depotFile" j = Some (names j)
     /\ (exists s, info !! field "rev" j = Some s /\ int s = Some (revs j))
     /\ info !! field "action" j = Some (actions j)) ->
  info !! field "depotFile" n = None ->
  (i <= n)%nat -> (n - i < fuel)%nat ->
  load_loop int fuel info i (list_to_map (entries names revs actions i))
  = Some (inl (list_to_map (entries names revs actions n))).
Proof.
  intros Hok Hgap. revert i. induction fuel as [|k IH]; intros i Hi Hf; [lia|].
  cbn [load_loop]. destruct (decide (i = n)) as [-> | Hne].
  - now rewrite Hgap.
  - destruct (Hok i) as (Hf' & (s & Hr & Hs) & Ha); [lia|].
    rewrite Hf'. unfold getitem, to_int. rewrite Hr. cbn [ebind]. rewrite Hs, Ha.
    rewrite <- (IH (S i)) by lia. now rewrite entries_S.
Qed.

Lemma entries_lookup names revs actions n f fi :
  (list_to_map (entries names revs actions n) : gmap string P4.fileinfo) !! f = Some fi
  <-> exists i, (i < n)%nat /\ names i = f
        /\ fi = P4.mkFileinfo (revs i) (actions i)
        /\ forall j, (i < j < n)%nat -> names j <> f.
Proof.
  induction n as [|n IH].
  - cbn. rewrite lookup_empty. split; [discriminate | intros (i & Hi & _); lia].
  - rewrite entries_S. cbn [list_to_map foldr fst snd]. rewrite lookup_insert.
    destruct (decide (names n = f)) as [E | Hne].
    + split.
      * intros [= <-]. exists n. repeat split; [lia | assumption | intros j Hj; lia].
      * intros (i & Hi & Hn & -> & Hlast).
        destruct (decide (i = n)) as [-> | Hin]; [reflexivity|].
        exfalso. apply (Hlast n); [lia | assumption].
    + rewrite IH. split.
      * intros (i & Hi & Hn & -> & Hlast). exists i.
        repeat split; [lia | assumption|].
        intros j Hj. destruct (decide (j = n)) as [-> | Hjn]; [assumption|].
        apply Hlast. lia.
      * intros (i & Hi & Hn & -> & Hlast).
        assert (i <> n) by congruence.
        exists i. repeat split; [lia | assumption|]. intros j Hj. apply Hlast. lia.
Qed.

(** X12: [load] reads the files [0 .. n-1], where [n] is the first index
    without a [depotFile] field: whatever fields with higher numbers
    the description holds are not looked at.  Each depot path gets the
    revision (through [int]) and the action of its entry, and a path
    listed more than once keeps those of its last entry. *)
Theorem load_reads_up_to_gap (info : gmap string string) (n : nat)
    (names : nat -> string) (revs : nat -> Z) (actions : nat -> string)
    (desc user : string) (time : Z) :
  (forall i, (i < n)%nat ->
     info !! field "depotFile" i = Some (names i)
     /\ (exists s, info !! field "rev" i = Some s /\ int s = Some (revs i))
     /\ info !! field "action" i = Some (actions i)) ->
  info !! field "depotFile" n = None ->
  info !! "desc" = Some desc ->
  info !! "user" = Some user ->
  (exists s, info !! "time" = Some s /\ int s = Some time) ->
  exists files,
    load int info = Some (inl (mkParsed files desc user time))
    /\ forall f fi,
         files !! f = Some fi
         <-> exists i, (i < n)%nat /\ names i = f
               /\ fi = P4.mkFileinfo (revs i) (actions i)
               /\ forall j, (i < j < n)%nat -> names j <> f.
Proof.
  intros Hok Hgap Hd Hu (s & Ht & Hs).
  exists (list_to_map (entries names revs actions n)). split.
  - unfold load.
    assert (Hn : (n <= size info)%nat).
    { destruct n as [|m]; [lia|].
      assert (m < size info)%nat; [|lia].
      apply fields_bounded with (name := "depotFile"). intros j Hj.
      destruct (Hok j) as (-> & _); [lia | discriminate]. }
    pose proof (load_loop_run info names revs actions n (S (size info)) 0 Hok Hgap)
      as Hrun.
    change (list_to_map (entries names revs actions 0))
      with (∅ : gmap string P4.fileinfo) in Hrun.
    rewrite Hrun by lia.
    unfold getitem, to_int. rewrite Hd, Hu, Ht. cbn [ebind]. now rewrite Hs.
  - intros f fi. apply entries_lookup.
Qed.

(** X13: an entry that has its [depotFile] field but lacks its [rev]
    field, or whose [rev] is no number, or that lacks its [action]
    field, makes [load] raise ([KeyError], [ValueError], [KeyError]);
    no partial result is returned. *)
Theorem load_bad_entry (info : gmap string string) (i : nat)
    (names : nat -> string) (revs : nat -> Z) (actions : nat -> string)
    (fname : string) :
  (forall j, (j < i)%nat ->
     info !! field "depotFile" j = Some (names j)
     /\ (exists s, info !! field "rev" j = Some s /\ int s = Some (revs j))
     /\ info !! field "action" j = Some (actions j)) ->
  info !! field "depotFile" i = Some fname ->
  (info !! field "rev" i = None ->
     load int info = Some (inr (KeyError (PyStr (field "rev" i)))))
  /\ (forall s, info !! field "rev" i = Some s -> int s = None ->
        load int info = Some (inr ValueError))
  /\ (forall s z, info !! field "rev" i = Some s -> int s = Some z ->
        info !! field "action" i = None ->
        load int info = Some (inr (KeyError (PyStr (field "action" i))))).
Proof.
  intros Hok Hf.
  assert (Hi : (i < size info)%nat).
  { apply fields_bounded with (name := "depotFile"). intros j Hj.
    destruct (decide (j = i)) as [-> | Hne]; [congruence|].
    destruct (Hok j) as (-> & _); [lia | discriminate]. }
  assert (Hstep : forall fuel k, (k <= i)%nat -> (i - k < fuel)%nat ->
    load_loop int fuel info k (list_to_map (entries names revs actions k))
    = match ebind (getitem info (field "rev" i)) (to_int int) with
      | inr e => Some (inr e)
      | inl rev =>
          match getitem info (field "action" i) with
          | inr e => Some (inr e)
          | inl action =>
              load_loop int (fuel - S (i - k)) info (S i)
                (<[fname := P4.mkFileinfo rev action]>
                   (list_to_map (entries names revs actions i)))
          end
      end).
  { induction fuel as [|fuel IH]; intros k Hk Hfuel; [lia|].
    cbn [load_loop]. destruct (decide (k = i)) as [-> | Hne].
    - rewrite Hf. replace (S fuel - S (i - i))%nat with fuel by lia. reflexivity.
    - destruct (Hok k) as (Hf' & (s & Hr & Hs) & Ha); [lia|].
      rewrite Hf'. unfold getitem at 1 2, to_int at 1. rewrite Hr. cbn [ebind].
      rewrite Hs, Ha.
      assert (E : (list_to_map (entries names revs actions (S k))
                   : gmap string P4.fileinfo)
                  = <[names k := P4.mkFileinfo (revs k) (actions k)]>
                      (list_to_map (entries names revs actions k)))
        by now rewrite entries_S.
      rewrite <- E. rewrite IH by lia.
      replace (S fuel - S (i - k))%nat with (fuel - S (i - S k))%nat by lia.
      reflexivity. }
  specialize (Hstep (S (size info)) 0%nat ltac:(lia) ltac:(lia)).
  change (list_to_map (entries names revs actions 0))
    with (∅ : gmap string P4.fileinfo) in Hstep.
  unfold load. rewrite Hstep. unfold getitem, to_int. split; [|split].
  - intros ->. reflexivity.
  - intros s -> Hs. cbn [ebind]. now rewrite Hs.
  - intros s z -> Hs Ha. cbn [ebind]. now rewrite Hs, Ha.
Qed.

End LoadProps.

(** The description of two files: both are read, the entry after the
    gap is not. *)
Lemma load_reads_up_to_gap_witness :
  exists files,
    load P4Scenarios.int_digits P4Scenarios.describe
    = Some (inl (mkParsed files "fix" "alice" 1500000000))
    /\ files !! "//depot/a" = Some (P4.mkFileinfo 3 "edit")
    /\ files !! "//depot/d" = None.
Proof.
  destruct (load_reads_up_to_gap P4Scenarios.int_digits P4Scenarios.describe 2
              P4Scenarios.names01 P4Scenarios.revs01 P4Scenarios.actions01
              "fix" "alice" 1500000000)
    as (files & Hload & Hfiles).
  - intros i Hi. destruct i as [|[|i]]; [| |lia].
    + split; [vm_compute; reflexivity|]. split; [|vm_compute; reflexivity].
      exists "3". split; vm_compute; reflexivity.
    + split; [vm_compute; reflexivity|]. split; [|vm_compute; reflexivity].
      exists "1". split; vm_compute; reflexivity.
  - vm_compute. reflexivity.
  - vm_compute. reflexivity.
  - vm_compute. reflexivity.
  - exists "1500000000". split; vm_compute; reflexivity.
  - exists files. split; [exact Hload|]. split.
    + apply Hfiles. exists 0%nat. split; [lia|]. split; [reflexivity|].
      split; [reflexivity|]. intros j Hj. assert (j = 1%nat) as -> by lia.
      discriminate.
    + destruct (files !! "//depot/d") as [fi|] eqn:E; [|reflexivity].
      apply Hfiles in E as (i & Hi & Hn & _). exfalso.
      destruct i as [|[|i]]; [discriminate | discriminate | lia].
Defined.

(** The description whose second file lacks [rev1]. *)
Lemma load_bad_entry_witness :
  load P4Scenarios.int_digits P4Scenarios.describe_norev
  = Some (inr (KeyError (PyStr "rev1"))).
Proof.
  apply (proj1 (load_bad_entry P4Scenarios.int_digits P4Scenarios.describe_norev 1
                  P4Scenarios.names01 P4Scenarios.revs01 P4Scenarios.actions01
                  "//depot/b"
                  ltac:(intros j Hj; assert (j = 0%nat) as -> by lia;
                        split; [vm_compute; reflexivity|];
                        split; [exists "3"; split; vm_compute; reflexivity
                               | vm_compute; reflexivity])
                  ltac:(vm_compute; reflexivity))).
  vm_compute. reflexivity.
Defined.

(** *** [P4Filelog.revisions] *)

Lemma sorted_le_nodup l :
  StronglySorted Z.le l -> NoDup l -> StronglySorted Z.lt l.
Proof.
  induction 1 as [|x l Hs IH Hall]; intros Hnd; constructor.
  - apply IH. now apply NoDup_cons in Hnd.
  - apply NoDup_cons in Hnd as [Hx _].
    rewrite List.Forall_forall in *. intros y Hy.
    specialize (Hall y Hy).
    assert (x <> y) by (intros ->; apply Hx; now apply list_elem_of_In). lia.
Qed.

(** X14: [revisions] lists the changelist numbers of the file log in
    strictly ascending order, each once, whatever the order in which the
    dictionary hands out its keys; and they are exactly the numbers for
    which [isdeleted] answers instead of raising [KeyError]. *)
Theorem revisions_spec (fl : P4Filelog) :
  StronglySorted Z.lt (revisions fl)
  /\ (forall c, In c (revisions fl) <-> is_Some (_data fl !! c))
  /\ (forall c, In c (revisions fl) <-> exists b, isdeleted fl c = inl b)
  /\ (forall keys, Permutation keys (map fst (map_to_list (_data fl))) ->
        sorted_by Z.leb keys = revisions fl).
Proof.
  assert (Hin : forall c, In c (revisions fl) <-> is_Some (_data fl !! c)).
  { intros c. unfold revisions. rewrite FbamendSpec.sorted_by_In.
    rewrite <- list_elem_of_In.
    change (map fst (map_to_list (_data fl))) with ((map_to_list (_data fl)).*1).
    rewrite list_elem_of_fmap. split.
    - intros ([k v] & -> & Hkv). apply elem_of_map_to_list in Hkv. cbn. eauto.
    - intros [v Hv]. exists (c, v). split; [reflexivity|]. now apply elem_of_map_to_list. }
  assert (Hnd : NoDup (revisions fl)).
  { unfold revisions. rewrite FbamendSpec.sorted_by_perm.
    apply NoDup_fst_map_to_list. }
  assert (Hs : StronglySorted Z.lt (revisions fl)).
  { apply sorted_le_nodup; [apply FbamendSpec.sorted_by_sorted | exact Hnd]. }
  split; [exact Hs|]. split; [exact Hin|]. split.
  - intros c. rewrite Hin. unfold isdeleted, data_at.
    destruct (_data fl !! c) as [s|]; cbn [ebind].
    + split; [eauto | intros _; eauto].
    + split; [intros [v Hv]; discriminate | intros [b Hb]; discriminate].
  - intros keys Hperm.
    assert (Hs' : StronglySorted Z.lt (sorted_by Z.leb keys)).
    { apply sorted_le_nodup; [apply FbamendSpec.sorted_by_sorted|].
      rewrite FbamendSpec.sorted_by_perm, Hperm.
      apply NoDup_fst_map_to_list. }
    assert (Hp : Permutation (sorted_by Z.leb keys) (revisions fl)).
    { rewrite FbamendSpec.sorted_by_perm, Hperm. unfold revisions.
      now rewrite FbamendSpec.sorted_by_perm. }
    clear -Hs Hs' Hp. revert Hs Hs' Hp.
    generalize (revisions fl). generalize (sorted_by Z.leb keys).
    induction l as [|x l IH]; intros l' Hs Hs' Hp.
    + apply Permutation_nil in Hp. now subst.
    + destruct l' as [|y l']; [symmetry in Hp; now apply Permutation_nil_cons in Hp|].
      inversion Hs as [|? ? Hs1 Hall1]. inversion Hs' as [|? ? Hs2 Hall2]. subst.
      rewrite List.Forall_forall in Hall1, Hall2.
      assert (x = y).
      { assert (Hx : In x (y :: l')) by (eapply Permutation_in; [exact Hp | now left]).
        assert (Hy : In y (x :: l))
          by (eapply Permutation_in; [symmetry; exact Hp | now left]).
        destruct Hx as [-> | Hx]; [reflexivity|].
        destruct Hy as [-> | Hy]; [reflexivity|].
        specialize (Hall1 x Hx). specialize (Hall2 y Hy). lia. }
      subst y. f_equal. apply IH; [assumption | assumption|].
      now apply Permutation_cons_inv in Hp.
Qed.

(** The log of a file added in changelist 5 and deleted in 7. *)
Lemma revisions_spec_witness :
  StronglySorted Z.lt (revisions P4Scenarios.two_revisions)
  /\ sorted_by Z.leb [7; 5] = revisions P4Scenarios.two_revisions
  /\ (exists b, isdeleted P4Scenarios.two_revisions 7 = inl b).
Proof.
  destruct (revisions_spec P4Scenarios.two_revisions) as (Hs & _ & Hd & Hk).
  split; [exact Hs|]. split.
  - apply Hk. vm_compute. first [apply Permutation_refl | apply perm_swap].
  - apply Hd. vm_compute. tauto.
Defined.

(** *** [config] *)

Section ConfigProps.
Variable p4_info : nat -> pyobj + P4.pyexn.

(** Once the cache is filled, [config] answers from it. *)
Lemma configs_cached keys st :
  _config st <> PyNone ->
  configs p4_info keys st = (map (subscript (_config st)) keys, st).
Proof.
  intros Hc. induction keys as [|k keys IH]; [reflexivity|].
  cbn [configs map].
  assert (Hk : config p4_info k st = (subscript (_config st) k, st)).
  { unfold config. destruct (_config st); [congruence | reflexivity..]. }
  now rewrite Hk, IH.
Qed.

(** X15: [p4 info] is run at most once after it has succeeded: with a
    filled cache any sequence of [config] calls is answered from the
    cache, a missing key included, without a run; with an empty cache
    the first call runs it once and every later call uses what it gave;
    a run that fails leaves the cache empty, so the next call runs it
    again. *)
Theorem config_runs_info_once (st : cfgstate) (keys : list string) :
  (_config st <> PyNone ->
     configs p4_info keys st = (map (subscript (_config st)) keys, st))
  /\ (forall o k, _config st = PyNone -> p4_info (info_runs st) = inl o ->
        o <> PyNone ->
        configs p4_info (k :: keys) st
        = (map (subscript o) (k :: keys), mkCfg o (S (info_runs st))))
  /\ (forall e k, _config st = PyNone -> p4_info (info_runs st) = inr e ->
        config p4_info k st = (inr (LoadError e), mkCfg PyNone (S (info_runs st)))).
Proof.
  split; [apply configs_cached|]. split.
  - intros o k Hnone Hrun Ho. cbn [configs map]. unfold config, parse_info.
    rewrite Hnone, Hrun. cbn [info_runs].
    rewrite (configs_cached keys (mkCfg o (S (info_runs st)))) by exact Ho.
    reflexivity.
  - intros e k Hnone Hrun. unfold config, parse_info. now rewrite Hnone, Hrun.
Qed.

End ConfigProps.

(** [p4 info] fails once and then answers: two runs in all, however
    many keys are asked for afterwards. *)
Lemma config_runs_info_once_witness :
  config P4Scenarios.info_runs01 "clientName" (mkCfg PyNone 0)
  = (inr (LoadError P4.EOFError), mkCfg PyNone 1)
  /\ snd (configs P4Scenarios.info_runs01 ["clientName"; "nothing"; "serverVersion"]
            (mkCfg PyNone 1))
     = mkCfg (PyDict [("clientName", PyStr "ws"); ("serverVersion", PyStr "2017.1")]) 2.
Proof.
  destruct (config_runs_info_once P4Scenarios.info_runs01 (mkCfg PyNone 0) [])
    as (_ & _ & Hfail).
  destruct (config_runs_info_once P4Scenarios.info_runs01 (mkCfg PyNone 1)
              ["nothing"; "serverVersion"]) as (_ & Hfirst & _).
  split.
  - apply Hfail; reflexivity.
  - rewrite (Hfirst (PyDict [("clientName", PyStr "ws"); ("serverVersion", PyStr "2017.1")])
               "clientName"); [reflexivity | reflexivity | reflexivity | discriminate].
Defined.

(** *** [parse_filelogs] and its cache *)

Lemma grows_refl cls filelist st : grows cls filelist st st.
Proof.
  split.
  - intros f log Hf. exists log. auto.
  - auto.
Qed.

Lemma grows_trans cs1 cs2 filelist a b c :
  grows cs1 filelist a b -> grows cs2 filelist b c ->
  grows (cs1 ++ cs2) filelist a c.
Proof.
  intros [H1 N1] [H2 N2]. split.
  - intros f log Hf. destruct (H1 f log Hf) as (log1 & Hb & Hk1 & Hs1).
    destruct (H2 f log1 Hb) as (log2 & Hc & Hk2 & Hs2).
    exists log2. split; [assumption|]. split; [auto|].
    intros x Hx. rewrite Hs2, Hs1; [reflexivity | |];
      intros Hin; apply Hx, in_app_iff; auto.
  - intros f Hf. destruct (N2 f Hf) as [Hb | ?]; auto.
Qed.

(** One assignment [_filelogs[name][cl] = fstat]. *)
Lemma grows_store c filelist st s :
  In (fs_depotFile s) filelist -> grows [c] filelist st (store c st s).
Proof.
  intros Hin. unfold store. split.
  - intros f log Hf. destruct (decide (fs_depotFile s = f)) as [<- | Hne].
    + exists (<[c := s]> log).
      split; [rewrite lookup_insert_eq, Hf; reflexivity|]. split.
      * intros x Hx. destruct (decide (c = x)) as [-> | Hcx].
        -- rewrite lookup_insert_eq. eauto.
        -- now rewrite lookup_insert_ne.
      * intros x Hx. rewrite lookup_insert_ne; [reflexivity|].
        intros ->. apply Hx. now left.
    + exists log. split; [now rewrite lookup_insert_ne|]. auto.
  - intros f Hf. destruct (decide (fs_depotFile s = f)) as [<- | Hne]; [auto|].
    rewrite lookup_insert_ne in Hf by assumption. auto.
Qed.

Lemma grows_stores c filelist fstats st :
  Forall (fun s => In (fs_depotFile s) filelist) fstats ->
  grows [c] filelist st (fold_left (store c) fstats st).
Proof.
  intros Hall. revert st. induction Hall as [|s fstats Hs _ IH]; intros st.
  - apply grows_refl.
  - cbn [fold_left].
    pose proof (grows_trans [c] [c] filelist _ _ _ (grows_store c filelist st s Hs)
                  (IH (store c st s))) as [H1 N1].
    split; [|exact N1].
    intros f log Hf. destruct (H1 f log Hf) as (log' & Hl & Hk & Hsame).
    exists log'. split; [assumption|]. split; [assumption|].
    intros x Hx. apply Hsame. intros Hin. apply in_app_iff in Hin. tauto.
Qed.

(** What [parse_fstat] yields passed the filter. *)
Lemma fstat_of_filtered filelist d s :
  fstat_of filelist d = inl (Some s) -> In (fs_depotFile s) filelist.
Proof.
  unfold fstat_of. destruct (get d "depotFile") as [name|e]; cbn [ebind]; [|discriminate].
  destruct name as [|z|n|l]; try discriminate.
  destruct (truthy (PyStr n) && str_in n filelist) eqn:E; [|discriminate].
  apply andb_true_iff in E as [_ E]. apply str_in_In in E.
  destruct (subscript d "headAction"); cbn [ebind]; [|discriminate].
  destruct (subscript d "headType"); cbn [ebind]; [|discriminate].
  destruct (subscript d "headRev"); cbn [ebind]; [|discriminate].
  intros [= <-]. exact E.
Qed.

Lemma fstat_loop_filtered filelist ds :
  Forall (fun s => In (fs_depotFile s) filelist) (fst (fstat_loop filelist ds)).
Proof.
  induction ds as [|d ds IH]; cbn [fstat_loop fst]; [constructor|].
  destruct (fstat_of filelist d) as [[s|]|e] eqn:E; [| assumption | constructor].
  destruct (fstat_loop filelist ds) as [out e']. cbn [fst] in *.
  constructor; [|assumption]. eapply fstat_of_filtered, E.
Qed.

Section FilelogsProps.
Variable p4_fstat : Z -> P4.file.

Lemma parse_fstat_filtered clnum filelist :
  Forall (fun s => In (fs_depotFile s) filelist)
    (fst (parse_fstat p4_fstat clnum filelist)).
Proof.
  unfold parse_fstat. destruct (records (p4_fstat clnum)) as [ds e].
  pose proof (fstat_loop_filtered filelist ds) as Hf.
  destruct (fstat_loop filelist ds) as [out e']. exact Hf.
Qed.

Lemma filelogs_loop_grows cls filelist st :
  grows (map P4.cl cls) filelist st (snd (filelogs_loop p4_fstat cls filelist st)).
Proof.
  revert st. induction cls as [|c cls IH]; intros st; cbn [filelogs_loop map snd].
  - apply grows_refl.
  - pose proof (parse_fstat_filtered (P4.cl c) filelist) as Hf.
    destruct (parse_fstat p4_fstat (P4.cl c) filelist) as [fstats e]. cbn [fst] in Hf.
    pose proof (grows_stores (P4.cl c) filelist fstats st Hf) as Hg.
    destruct e as [x|]; cbn [snd].
    + apply (grows_trans [P4.cl c] (map P4.cl cls) filelist _ _ _ Hg), grows_refl.
    + apply (grows_trans [P4.cl c] (map P4.cl cls) filelist _ _ _ Hg), IH.
Qed.

(** X16: the cache [_filelogs] only grows.  After [parse_filelogs],
    whether it ended or raised, every file and revision that the cache
    held before is still in it, revisions of changelists other than the
    ones just asked for are unchanged, and the files that came in are
    among [filelist]; and when it ends it yields one file log for every
    file of the cache, the files of earlier calls included, even when
    they are not in [filelist]. *)
Theorem parse_filelogs_accumulates (cls : list P4.P4Changelist)
    (filelist : list string) (st : filelogs) :
  let res := fst (parse_filelogs p4_fstat cls filelist st) in
  let st' := snd (parse_filelogs p4_fstat cls filelist st) in
  grows (map P4.cl cls) filelist st st'
  /\ forall logs, res = inl logs ->
       NoDup (map depotfile logs)
       /\ (forall f log, In (mkP4Filelog f log) logs <-> st' !! f = Some log)
       /\ (forall f, is_Some (st !! f) -> exists fl, In fl logs /\ depotfile fl = f).
Proof.
  cbv zeta. unfold parse_filelogs.
  pose proof (filelogs_loop_grows cls filelist st) as Hg.
  destruct (filelogs_loop p4_fstat cls filelist st) as [[e|] st']; cbn [fst snd] in *.
  { split; [exact Hg | discriminate]. }
  split; [exact Hg|]. intros logs [= <-].
  assert (Hin : forall f log,
    In (mkP4Filelog f log)
      (map (fun kv => mkP4Filelog (fst kv) (snd kv)) (map_to_list st'))
    <-> st' !! f = Some log).
  { intros f log. rewrite in_map_iff. split.
    - intros ([k v] & [= -> ->] & Hkv).
      now apply list_elem_of_In, elem_of_map_to_list in Hkv.
    - intros Hl. exists (f, log). split; [reflexivity|].
      now apply list_elem_of_In, elem_of_map_to_list. }
  split; [|split; [exact Hin|]].
  - rewrite map_map. cbn [depotfile _depotfile].
    change (map (fun x => fst x) (map_to_list st')) with ((map_to_list st').*1).
    apply NoDup_fst_map_to_list.
  - intros f [log Hf]. destruct Hg as [Hkeep _].
    destruct (Hkeep f log Hf) as (log' & Hl & _).
    exists (mkP4Filelog f log'). split; [now apply Hin | reflexivity].
Qed.

End FilelogsProps.

(** A call for changelist 7 and the file [//depot/a], on a cache that
    holds [//depot/old] from an earlier call: [//depot/old] is yielded
    again. *)
Lemma parse_filelogs_accumulates_witness :
  exists logs,
    fst (parse_filelogs P4Scenarios.fstat_stream [P4.mkP4Changelist 7 7]
           ["//depot/a"] P4Scenarios.old_cache) = inl logs
    /\ (exists fl, In fl logs /\ depotfile fl = "//depot/old")
    /\ (exists fl, In fl logs /\ depotfile fl = "//depot/a").
Proof.
  destruct (parse_filelogs_accumulates P4Scenarios.fstat_stream
              [P4.mkP4Changelist 7 7] ["//depot/a"] P4Scenarios.old_cache)
    as (_ & Hlogs).
  destruct (fst (parse_filelogs P4Scenarios.fstat_stream [P4.mkP4Changelist 7 7]
                   ["//depot/a"] P4Scenarios.old_cache)) as [logs|e] eqn:E;
    [|vm_compute in E; discriminate].
  exists logs. split; [reflexivity|].
  destruct (Hlogs logs eq_refl) as (_ & Hin & Hold). split.
  - apply Hold. vm_compute. eauto.
  - eexists (mkP4Filelog "//depot/a" _). split; [|reflexivity].
    apply Hin. vm_compute. reflexivity.
Defined.

(** *** [loaditer] on streams that do not end well *)

(** X17: when [marshal.load] fails on bad data, [loaditer] has yielded
    the records before it, in order, and then lets the [ValueError]
    through (only [EOFError] is swallowed); what follows in the stream
    is never read, and the generator is finished. *)
Theorem loaditer_bad_data (rs : list pyobj) (rest : P4.file) (n : nat) :
  Forall (fun d => truthy d = true) rs ->
  (length rs < n)%nat ->
  P4.iterate n (P4.loaditer (map P4.Loaded rs ++ P4.BadData :: rest))
  = Some (rs, Some P4.ValueError, P4.Finished).
Proof.
  intros Hrs Hn.
  apply P4Spec.iterate_more_fuel with (n := (length rs + 1)%nat); [|lia].
  rewrite <- (app_nil_r rs) at 3. unfold P4.loaditer.
  apply P4Spec.iterate_records; [assumption | reflexivity].
Qed.

(** One record, bad data, one more record. *)
Lemma loaditer_bad_data_witness :
  P4.iterate 3 (P4.loaditer (map P4.Loaded [PyDict [("change", PyStr "7")]]
                               ++ P4.BadData :: [P4.Loaded (PyInt 3)]))
  = Some ([PyDict [("change", PyStr "7")]], Some P4.ValueError, P4.Finished).
Proof.
  apply loaditer_bad_data; [repeat constructor | simpl; lia].
Defined.

(** X18: on every finite stream the loop over [loaditer] comes to an
    end within one resumption more than the stream has items, with the
    generator finished; it yields at most as many records as the stream
    holds, all of them truthy, and the only exception it can end with is
    the [ValueError] of bad data. *)
Theorem loaditer_terminates (f : P4.file) :
  exists ds e,
    P4.iterate (S (length f)) (P4.loaditer f) = Some (ds, e, P4.Finished)
    /\ (length ds <= length f)%nat
    /\ Forall (fun d => truthy d = true) ds
    /\ (e = None \/ e = Some P4.ValueError).
Proof.
  unfold P4.loaditer. induction f as [|[d|] f IH].
  - exists [], None. cbn. auto.
  - destruct IH as (ds & e & Hrun & Hlen & Hall & He).
    destruct (truthy d) eqn:Ed.
    + exists (d :: ds), e.
      change (P4.iterate (S (length (P4.Loaded d :: f))) (P4.Suspended (P4.Loaded d :: f)))
        with (match P4.loaditer_next (P4.Suspended (P4.Loaded d :: f)) with
              | (P4.Yield d0, g') =>
                  match P4.iterate (S (length f)) g' with
                  | Some (ds0, e0, g'') => Some (d0 :: ds0, e0, g'')
                  | None => None
                  end
              | (P4.StopIteration, g') => Some ([], None, g')
              | (P4.Raised e0, g') => Some ([], Some e0, g')
              end).
      cbn [P4.loaditer_next P4.marshal_load]. rewrite Ed. cbn [negb].
      rewrite Hrun. cbn [length]. split; [reflexivity|]. split; [lia|].
      split; [now constructor | assumption].
    + exists [], None. cbn [P4.iterate P4.loaditer_next P4.marshal_load length].
      rewrite Ed. cbn. split; [reflexivity|]. split; [lia|]. auto.
  - exists [], (Some P4.ValueError). cbn. split; [reflexivity|]. split; [lia|]. auto.
Qed.

(** *** [parse_client]: the client part of a view *)

Lemma word_cons c s :
  (forall x, In x (list_ascii_of_string (String c s)) -> is_space x = false) ->
  is_space c = false
  /\ forall x, In x (list_ascii_of_string s) -> is_space x = false.
Proof. cbn. intros Hw. split; [apply Hw; now left | intros x Hx; apply Hw; now right]. Qed.

Lemma app_cons c (w s : string) : (String c w ++ s)%string = String c (w ++ s).
Proof. reflexivity. Qed.

Lemma length_append (a b : string) :
  String.length (a ++ b) = (String.length a + String.length b)%nat.
Proof.
  induction a as [|x a IH]; [reflexivity|].
  rewrite app_cons. cbn [String.length Nat.add]. now f_equal.
Qed.

Lemma string_app_assoc (a b c : string) : ((a ++ b) ++ c = a ++ (b ++ c))%string.
Proof.
  induction a as [|x a IH]; [reflexivity|].
  change (String x ((a ++ b) ++ c) = String x (a ++ (b ++ c))). now f_equal.
Qed.

Lemma string_app_nil_r (a : string) : (a ++ "")%string = a.
Proof.
  induction a as [|x a IH]; [reflexivity|].
  change (String x (a ++ "") = String x a). now f_equal.
Qed.

(** Reading on in a word. *)
Lemma split_loop_in_word w s acc :
  (forall x, In x (list_ascii_of_string w) -> is_space x = false) ->
  split_loop (w ++ s) (Some acc) = split_loop s (Some (acc ++ w)%string).
Proof.
  revert acc. induction w as [|c w IH]; intros acc Hw.
  - simpl. now rewrite string_app_nil_r.
  - apply word_cons in Hw as [Hc Hw]. rewrite app_cons. cbn [split_loop]. rewrite Hc.
    cbn [default]. rewrite IH by assumption.
    now rewrite string_app_assoc.
Qed.

(** Reading a whole word from its start. *)
Lemma split_loop_word w s :
  word w -> split_loop (w ++ s) None = split_loop s (Some w).
Proof.
  intros [Hne Hw]. destruct w as [|c w]; [congruence|].
  apply word_cons in Hw as [Hc Hw]. rewrite app_cons. cbn [split_loop]. rewrite Hc.
  cbn [default]. rewrite split_loop_in_word by assumption. reflexivity.
Qed.

Lemma split_two a b : word a -> word b -> split (a ++ " " ++ b) = [a; b].
Proof.
  intros Ha Hb. unfold split. rewrite split_loop_word by assumption.
  rewrite app_cons. cbn [split_loop]. change (is_space " ") with true. cbv iota.
  change ("" ++ b)%string with b.
  rewrite <- (string_app_nil_r b) at 1.
  rewrite (split_loop_word b "") by assumption. reflexivity.
Qed.

Lemma find_no_slash s t :
  no_slash s -> find "/" (s ++ "/" ++ t) = Z.of_nat (String.length s).
Proof.
  induction s as [|c s IH]; intros Hs.
  - reflexivity.
  - rewrite app_cons. cbn [find String.length].
    rewrite (Hs c) by (cbn; now left).
    rewrite IH by (intros x Hx; apply Hs; cbn; now right).
    destruct (Z.ltb_spec (Z.of_nat (String.length s)) 0); lia.
Qed.

Lemma slice_from_app s t : slice_from (String.length s) (s ++ t) = t.
Proof.
  induction s as [|c s IH]; [now destruct t|].
  rewrite app_cons. cbn [String.length slice_from]. exact IH.
Qed.

(** X19: for a view line [<depot path> //<client>/<path>] -- two words,
    the client name not empty and without slash -- the loop of
    [parse_client] maps the depot path to [<path>]: the leading slashes
    and the client name are taken off, further slashes in the path are
    kept. *)
Theorem parse_view_strips_client (sview client path : string) :
  word sview -> word client -> no_slash client ->
  (forall c, In c (list_ascii_of_string path) -> is_space c = false) ->
  parse_view (PyStr (sview ++ " " ++ "//" ++ client ++ "/" ++ path))
  = inl (sview, path).
Proof.
  intros Hs Hc Hns Hp. unfold parse_view.
  assert (Hw : word ("//" ++ client ++ "/" ++ path)).
  { split; [discriminate|]. intros x Hx. cbn in Hx.
    destruct Hx as [<- | [<- | Hx]]; [reflexivity | reflexivity|].
    assert (Hl : forall a b, In x (list_ascii_of_string (a ++ b)) ->
                   In x (list_ascii_of_string a) \/ In x (list_ascii_of_string b)).
    { induction a as [|y a IH]; cbn; [auto|]. intros b [-> | Hb]; [auto|].
      destruct (IH b Hb); auto. }
    change (In x (list_ascii_of_string (client ++ ("/" ++ path)))) in Hx.
    destruct (Hl client _ Hx) as [Hx1 | Hx2]; [now apply (proj2 Hc)|].
    change ("/" ++ path)%string with (String "/" path) in Hx2.
    cbn [list_ascii_of_string In] in Hx2.
    destruct Hx2 as [<- | Hx2]; [reflexivity | now apply Hp]. }
  rewrite split_two by assumption. cbv zeta.
  destruct Hc as [Hne _]. destruct client as [|c client]; [congruence|].
  assert (Hcs : Ascii.eqb c "/" = false) by (apply Hns; cbn; now left).
  assert (Hl : lstrip "/" ("//" ++ String c client ++ "/" ++ path)
               = (String c client ++ "/" ++ path)%string).
  { change ("//" ++ String c client ++ "/" ++ path)%string
      with (String "/" (String "/" (String c (client ++ "/" ++ path)))).
    cbn [lstrip]. change (Ascii.eqb "/" "/") with true. cbv iota.
    now rewrite Hcs. }
  rewrite Hl. rewrite find_no_slash by assumption.
  replace (Z.to_nat (Z.of_nat (String.length (String c client)) + 1))
    with (String.length (String c client ++ "/")%string).
  - rewrite <- string_app_assoc. now rewrite slice_from_app.
  - rewrite Z2Nat.inj_add, Nat2Z.id by lia. now rewrite length_append.
Qed.

(** The view of the depot directory [//depot/main] in the client
    [ws]. *)
Lemma parse_view_strips_client_witness :
  parse_view (PyStr "//depot/main/... //ws/src/main/...")
  = inl ("//depot/main/...", "src/main/...").
Proof.
  apply (parse_view_strips_client "//depot/main/..." "ws" "src/main/...").
  - split; [discriminate|]. intros c Hc. cbn in Hc.
    repeat (destruct Hc as [<- | Hc]; [reflexivity|]). contradiction.
  - split; [discriminate|]. intros c Hc. cbn in Hc.
    repeat (destruct Hc as [<- | Hc]; [reflexivity|]). contradiction.
  - intros c Hc. cbn in Hc.
    repeat (destruct Hc as [<- | Hc]; [reflexivity|]). contradiction.
  - intros c Hc. cbn in Hc.
    repeat (destruct Hc as [<- | Hc]; [reflexivity|]). contradiction.
Defined.

(** *** [files]: every file once *)

(** A supported action belongs to exactly one of the three groups. *)
Lemma one_group action :
  str_in action P4.SUPPORTED_ACTIONS = true ->
  (str_in action P4.ACTION_ADD, str_in action P4.ACTION_EDIT,
   str_in action P4.ACTION_DELETE)
  = (true, false, false)
  \/ (str_in action P4.ACTION_ADD, str_in action P4.ACTION_EDIT,
      str_in action P4.ACTION_DELETE)
     = (false, true, false)
  \/ (str_in action P4.ACTION_ADD, str_in action P4.ACTION_EDIT,
      str_in action P4.ACTION_DELETE)
     = (false, false, true).
Proof.
  intros Hs. apply str_in_In in Hs. cbn in Hs.
  repeat (destruct Hs as [<- | Hs]; [vm_compute; tauto|]). contradiction.
Qed.

Lemma with_action_cons acts f info d :
  P4.with_action acts ((f, info) :: d)
  = if str_in (P4.fi_action info) acts
    then f :: P4.with_action acts d else P4.with_action acts d.
Proof.
  unfold P4.with_action. cbn [List.filter snd].
  now destruct (str_in (P4.fi_action info) acts).
Qed.

(** X23: when [files] returns, the three lists together hold every
    file of the changelist exactly once: added, modified and removed
    files, put one after the other, are a rearrangement of the names of
    the dictionary, so no file is reported twice and none is lost. *)
Theorem files_partition (d : P4.filesdict) (a m r : list string) :
  P4.files d = inl (a, m, r) ->
  Permutation (a ++ m ++ r) (map fst d)
  /\ (length a + length m + length r = length d)%nat.
Proof.
  unfold P4.files. rewrite P4Spec.files_loop_spec. cbn [app].
  destruct (forallb P4.supportedb d) eqn:Hs; [|discriminate].
  intros [= <- <- <-].
  assert (Hp : Permutation
                 (P4.with_action P4.ACTION_ADD d ++ P4.with_action P4.ACTION_EDIT d
                  ++ P4.with_action P4.ACTION_DELETE d) (map fst d)).
  { induction d as [|[f info] d IH]; [reflexivity|].
    cbn [forallb] in Hs. apply andb_true_iff in Hs as [Hf Hs].
    specialize (IH Hs). rewrite !with_action_cons. cbn [map fst].
    unfold P4.supportedb in Hf. cbn [snd] in Hf.
    destruct (one_group _ Hf) as [E | [E | E]];
      apply pair_equal_spec in E as [E Ed]; apply pair_equal_spec in E as [Ea Ee];
      rewrite Ea, Ee, Ed.
    - cbn [app]. now constructor.
    - rewrite <- IH. symmetry. apply Permutation_middle.
    - rewrite <- IH. rewrite !app_assoc. symmetry. apply Permutation_middle. }
  split; [exact Hp|].
  apply Permutation_length in Hp. rewrite !length_app, length_map in Hp. lia.
Qed.

(** Four files of a changelist. *)
Lemma files_partition_witness :
  Permutation (["//depot/b"; "//depot/d"] ++ ["//depot/a"] ++ ["//depot/c"])
    ["//depot/a"; "//depot/b"; "//depot/c"; "//depot/d"].
Proof.
  apply (files_partition
           [("//depot/a", P4.mkFileinfo 1 "edit"); ("//depot/b", P4.mkFileinfo 2 "move/add");
            ("//depot/c", P4.mkFileinfo 1 "delete"); ("//depot/d", P4.mkFileinfo 4 "branch")]
           ["//depot/b"; "//depot/d"] ["//depot/a"] ["//depot/c"]).
  reflexivity.
Defined.

End P4More.
